(** * quicktype: the Go union codec and the PHP hydrator/dehydrator generator

    A shallow embedding of [src/quicktype-core/language/Golang.ts] and
    [src/quicktype-core/language/Php.ts].

    - Module [Golang] embeds the part of [GoRenderer.emitUnion] that builds
      the generated [UnmarshalJSON]/[MarshalJSON] methods and the two Go
      helper functions [unmarshalUnion]/[marshalUnion] the renderer emits
      verbatim.  Go pointers are modelled by a small reference type over the
      receiver struct and the one local variable the method declares.
    - Module [Php] embeds the renderer functions that emit the hydrator
      class: every [emitLine] becomes a node of a small syntax tree of the
      emitted PHP, with a printer giving back the emitted text, and an
      evaluator for exactly the emitted constructs.
    - Module [GoRenderer] embeds the Go renderer itself: the Go type of a
      type, and the emitters as the calls they make to the base class, with
      the file they have open. *)

From Stdlib Require Import String Ascii List ZArith Bool Arith Lia.
From Stdlib Require Import Permutation Relations DecimalString.
Import ListNotations.
Open Scope string_scope.

(* ================================================================== *)
(** * Golang.ts *)
(* ================================================================== *)

Module Golang.

(** The [TypeKind]s the Go renderer dispatches on. *)
Inductive TypeKind : Type :=
| KAny | KNull | KBool | KInteger | KDouble | KString
| KArray | KClass | KMap | KEnum | KUnion.

Definition kind_eqb (a b : TypeKind) : bool :=
  match a, b with
  | KAny, KAny | KNull, KNull | KBool, KBool | KInteger, KInteger
  | KDouble, KDouble | KString, KString | KArray, KArray | KClass, KClass
  | KMap, KMap | KEnum, KEnum | KUnion, KUnion => true
  | _, _ => false
  end.

(** [const primitiveValueTypeKinds] and [const compoundTypeKinds]. *)
Definition primitiveValueTypeKinds : list TypeKind :=
  [KInteger; KDouble; KBool; KString].
Definition compoundTypeKinds : list TypeKind :=
  [KArray; KClass; KMap; KEnum].

(** A [UnionType] as the renderer sees it: at most one member per kind, so
    a member (and the struct field generated for it) is identified by its
    kind. *)
Record UnionType : Type := { members : list TypeKind }.

(** [u.findMember(kind)]. *)
Definition findMember (u : UnionType) (kind : TypeKind) : option TypeKind :=
  find (kind_eqb kind) (members u).

(** [removeNullFromUnion(u)[0] !== null], the [isNullableArg]. *)
Definition isNullableArg (u : UnionType) : bool :=
  match findMember u KNull with Some _ => true | None => false end.

(** [ifMember(kind, ifNotMember, f)] of [emitUnion]. *)
Definition ifMember {T : Type} (u : UnionType) (kind : TypeKind)
    (ifNotMember : T) (f : TypeKind -> T) : T :=
  match findMember u kind with
  | None => ifNotMember
  | Some maybeType => f maybeType
  end.

(** The argument list [makeArgs] builds: one argument per primitive kind,
    one (flag, pointer) pair per compound kind, then the nullable flag. *)
Record Args (P C : Type) : Type := {
  prims : list P;
  comps : list (bool * C);
  nullableArg : bool
}.
Arguments prims {P C} _.
Arguments comps {P C} _.
Arguments nullableArg {P C} _.

(** [makeArgs(primitiveArg, compoundArg)]; [nilP] is the literal ["nil"] and
    [(false, nilC)] the literal ["false, nil"]. *)
Definition makeArgs {P C : Type} (u : UnionType) (nilP : P) (nilC : C)
    (primitiveArg : TypeKind -> P)
    (compoundArg : bool -> TypeKind -> bool * C) : Args P C :=
  {| prims := map (fun kind => ifMember u kind nilP primitiveArg)
                  primitiveValueTypeKinds;
     comps := map (fun kind =>
                     ifMember u kind (false, nilC)
                       (fun t => compoundArg (kind_eqb t KClass) t))
                  compoundTypeKinds;
     nullableArg := isNullableArg u |}.

(** Go's [error] values are compared by their message. *)
Definition error : Type := string.

(** A JSON token as [dec.Token()] returns it after [dec.UseNumber()]. *)
Inductive Token : Type :=
| TokNumber (v : string)      (* json.Number *)
| TokFloat64                  (* float64 *)
| TokBool (v : bool)
| TokString (v : string)
| TokNil
| TokDelim (v : ascii)
| TokOther.

(** What [json.Marshal] is applied to. *)
Inductive GoValue (float64 V : Type) : Type :=
| GInt (i : Z) | GFloat (f : float64) | GBool (b : bool) | GString (s : string)
| GCompound (kind : TypeKind) (v : V)
| GNil.
Arguments GInt {float64 V} i.
Arguments GFloat {float64 V} f.
Arguments GBool {float64 V} b.
Arguments GString {float64 V} s.
Arguments GCompound {float64 V} kind v.
Arguments GNil {float64 V}.

(** The [encoding/json] package the generated code links against, and the
    Go types the renderer leaves to the other emitters.  [json.Unmarshal]
    checks the syntax of the whole text before it writes anything; a text
    that is well formed and does not fit the type of the target is decoded
    as far as it fits, and the first mismatch is the error returned:
    [json_Unmarshal_partial] is what such a failed call has left in a
    slice, a map or a struct (nothing, when the call wrote nothing). *)
Class Json : Type := {
  float64 : Type;
  V : Type;                  (* a decoded array, struct, map or enum *)
  zeroValue : V;             (* the zero value of [var c T] *)
  dec_Token : string -> error + Token;
  Number_Int64 : string -> error + Z;
  Number_Float64 : string -> error + float64;
  json_Unmarshal : string -> TypeKind -> error + V;
  json_Unmarshal_partial : string -> TypeKind -> option V;
  json_Marshal : GoValue float64 V -> error + string
}.

Section Runtime.

Context `{json : Json}.

(** The generated struct: one nilable field per member kind. *)
Record Union : Type := {
  Integer : option Z;
  Double : option float64;
  Bool : option bool;
  String_ : option string;
  Array : option V;
  Class : option V;
  Map : option V;
  Enum : option V
}.

(** The receiver [x] and the local [c] of the generated [UnmarshalJSON]. *)
Record Frame : Type := { x : Union; c : V }.

(** Pointers the generated call passes: ["nil"], ["&x.<field>"], ["&c"]. *)
Inductive Ptr : Type := Nil | AddrX (kind : TypeKind) | AddrC.

Definition isNil (p : Ptr) : bool :=
  match p with Nil => true | _ => false end.

Definition set_Integer (v : option Z) (u : Union) : Union :=
  {| Integer := v; Double := Double u; Bool := Bool u; String_ := String_ u;
     Array := Array u; Class := Class u; Map := Map u; Enum := Enum u |}.
Definition set_Double (v : option float64) (u : Union) : Union :=
  {| Integer := Integer u; Double := v; Bool := Bool u; String_ := String_ u;
     Array := Array u; Class := Class u; Map := Map u; Enum := Enum u |}.
Definition set_Bool (v : option bool) (u : Union) : Union :=
  {| Integer := Integer u; Double := Double u; Bool := v; String_ := String_ u;
     Array := Array u; Class := Class u; Map := Map u; Enum := Enum u |}.
Definition set_String (v : option string) (u : Union) : Union :=
  {| Integer := Integer u; Double := Double u; Bool := Bool u; String_ := v;
     Array := Array u; Class := Class u; Map := Map u; Enum := Enum u |}.
Definition set_Array (v : option V) (u : Union) : Union :=
  {| Integer := Integer u; Double := Double u; Bool := Bool u;
     String_ := String_ u;
     Array := v; Class := Class u; Map := Map u; Enum := Enum u |}.
Definition set_Class (v : option V) (u : Union) : Union :=
  {| Integer := Integer u; Double := Double u; Bool := Bool u;
     String_ := String_ u;
     Array := Array u; Class := v; Map := Map u; Enum := Enum u |}.
Definition set_Map (v : option V) (u : Union) : Union :=
  {| Integer := Integer u; Double := Double u; Bool := Bool u;
     String_ := String_ u;
     Array := Array u; Class := Class u; Map := v; Enum := Enum u |}.
Definition set_Enum (v : option V) (u : Union) : Union :=
  {| Integer := Integer u; Double := Double u; Bool := Bool u;
     String_ := String_ u;
     Array := Array u; Class := Class u; Map := Map u; Enum := v |}.

Definition with_x (f : Union -> Union) (fr : Frame) : Frame :=
  {| x := f (x fr); c := c fr |}.

(** Stores through a pointer.  A pointer of the wrong target type cannot be
    passed (Go's type checker), so those cases leave the frame alone. *)
Definition store_int (p : Ptr) (v : option Z) (fr : Frame) : Frame :=
  match p with AddrX KInteger => with_x (set_Integer v) fr | _ => fr end.
Definition store_float (p : Ptr) (v : option float64) (fr : Frame) : Frame :=
  match p with AddrX KDouble => with_x (set_Double v) fr | _ => fr end.
Definition store_bool (p : Ptr) (v : option bool) (fr : Frame) : Frame :=
  match p with AddrX KBool => with_x (set_Bool v) fr | _ => fr end.
Definition store_string (p : Ptr) (v : option string) (fr : Frame) : Frame :=
  match p with AddrX KString => with_x (set_String v) fr | _ => fr end.

(** ["x.<field> = nil"] for the field of the member of kind [kind]. *)
Definition assignNil (kind : TypeKind) (u : Union) : Union :=
  match kind with
  | KInteger => set_Integer None u
  | KDouble => set_Double None u
  | KBool => set_Bool None u
  | KString => set_String None u
  | KArray => set_Array None u
  | KClass => set_Class None u
  | KMap => set_Map None u
  | KEnum => set_Enum None u
  | _ => u
  end.

(** [json.Unmarshal(data, p)]: decode [data] for the target [p] points to
    and store the result there.  A call that fails has stored what it
    decoded before the mismatch in the slice, map or struct [p] points to.
    The target of an enum is a string: the helper hands it a text whose
    first token is a string, which a string can fail to take only when the
    text is ill-formed, and then nothing is written. *)
Definition Unmarshal_into (data : string) (p : Ptr) (fr : Frame)
  : Frame * option error :=
  match p with
  | Nil => (fr, Some "json: Unmarshal(nil)")
  | AddrC =>
      match json_Unmarshal data KClass with
      | inl e =>
          (match json_Unmarshal_partial data KClass with
           | Some v => {| x := x fr; c := v |}
           | None => fr
           end, Some e)
      | inr v => ({| x := x fr; c := v |}, None)
      end
  | AddrX kind =>
      let store (v : V) :=
        match kind with
        | KArray => with_x (set_Array (Some v)) fr
        | KClass => with_x (set_Class (Some v)) fr
        | KMap => with_x (set_Map (Some v)) fr
        | KEnum => with_x (set_Enum (Some v)) fr
        | _ => fr
        end in
      match json_Unmarshal data kind with
      | inl e =>
          (match kind, json_Unmarshal_partial data kind with
           | KEnum, _ | _, None => fr
           | _, Some v => store v
           end, Some e)
      | inr v => (store v, None)
      end
  end.

(** The emitted Go helper [unmarshalUnion]; the result is the frame after
    the call and the pair [(bool, error)] it returns. *)
Definition unmarshalUnion (data : string) (pi pf pb ps : Ptr)
    (haveArray : bool) (pa : Ptr) (haveObject : bool) (pc : Ptr)
    (haveMap : bool) (pm : Ptr) (haveEnum : bool) (pe : Ptr)
    (nullable : bool) (fr : Frame) : Frame * (bool * option error) :=
  let fr := if negb (isNil pi) then store_int pi None fr else fr in
  let fr := if negb (isNil pf) then store_float pf None fr else fr in
  let fr := if negb (isNil pb) then store_bool pb None fr else fr in
  let fr := if negb (isNil ps) then store_string ps None fr else fr in
  match dec_Token data with
  | inl err => (fr, (false, Some err))
  | inr tok =>
      match tok with
      | TokNumber v =>
          let tryFloat :=
            if negb (isNil pf) then
              match Number_Float64 v with
              | inr f => (store_float pf (Some f) fr, (false, None))
              | inl _ => (fr, (false, Some "Unparsable number"))
              end
            else (fr, (false, Some "Union does not contain number")) in
          if negb (isNil pi) then
            match Number_Int64 v with
            | inr i => (store_int pi (Some i) fr, (false, None))
            | inl _ => tryFloat
            end
          else tryFloat
      | TokFloat64 => (fr, (false, Some "Decoder should not return float64"))
      | TokBool v =>
          if negb (isNil pb) then (store_bool pb (Some v) fr, (false, None))
          else (fr, (false, Some "Union does not contain bool"))
      | TokString v =>
          if haveEnum then
            let (fr', err) := Unmarshal_into data pe fr in (fr', (false, err))
          else if negb (isNil ps) then
            (store_string ps (Some v) fr, (false, None))
          else (fr, (false, Some "Union does not contain string"))
      | TokNil =>
          if nullable then (fr, (false, None))
          else (fr, (false, Some "Union does not contain null"))
      | TokDelim v =>
          if Ascii.eqb v "{"%char then
            if haveObject then
              let (fr', err) := Unmarshal_into data pc fr in (fr', (true, err))
            else if haveMap then
              let (fr', err) := Unmarshal_into data pm fr in (fr', (false, err))
            else (fr, (false, Some "Union does not contain object"))
          else if Ascii.eqb v "["%char then
            if haveArray then
              let (fr', err) := Unmarshal_into data pa fr in (fr', (false, err))
            else (fr, (false, Some "Union does not contain array"))
          else (fr, (false, Some "Cannot handle delimiter"))
      | TokOther => (fr, (false, Some "Cannot unmarshal union"))
      end
  end.

(** The emitted Go helper [marshalUnion]. *)
Definition marshalUnion (pi : option Z) (pf : option float64)
    (pb : option bool) (ps : option string)
    (haveArray : bool) (pa : option V) (haveObject : bool) (pc : option V)
    (haveMap : bool) (pm : option V) (haveEnum : bool) (pe : option V)
    (nullable : bool) : error + string :=
  let compound kind (p : option V) :=
    json_Marshal (match p with Some v => GCompound kind v | None => GNil end) in
  match pi with
  | Some i => json_Marshal (GInt i)
  | None =>
  match pf with
  | Some f => json_Marshal (GFloat f)
  | None =>
  match pb with
  | Some b => json_Marshal (GBool b)
  | None =>
  match ps with
  | Some s => json_Marshal (GString s)
  | None =>
      if haveArray then compound KArray pa
      else if haveObject then compound KClass pc
      else if haveMap then compound KMap pm
      else if haveEnum then compound KEnum pe
      else if nullable then json_Marshal GNil
      else inl "Union must not be null"
  end end end end.

(** The generated method [UnmarshalJSON] of [emitUnion]:
    [maybeAssignNil] for every compound kind, [var c] for a class member,
    the call of [unmarshalUnion] with the arguments of [makeArgs], and the
    assignment of [&c] when an object was decoded. *)
Definition maybeAssignNil (u : UnionType) (kind : TypeKind) (s : Union)
  : Union :=
  ifMember u kind s (fun t => assignNil t s).

Definition unmarshalArgs (u : UnionType) : Args Ptr Ptr :=
  makeArgs u Nil Nil
    (fun fn => AddrX fn)
    (fun isClass fn => if isClass then (true, AddrC) else (true, AddrX fn)).

Definition UnmarshalJSON (u : UnionType) (data : string) (s : Union)
  : Union * option error :=
  let s := fold_left (fun s kind => maybeAssignNil u kind s)
                     compoundTypeKinds s in
  let fr := {| x := s; c := zeroValue |} in
  let args := unmarshalArgs u in
  (* whether the line "x.<class field> = &c" is part of the method *)
  let assignsC := ifMember u KClass false (fun _ => true) in
  match prims args, comps args with
  | [pi; pf; pb; ps], [(ha, pa); (ho, pc); (hm, pm); (he, pe)] =>
      let '(fr, (object, err)) :=
        unmarshalUnion data pi pf pb ps ha pa ho pc hm pm he pe
                       (nullableArg args) fr in
      match err with
      | Some e => (x fr, Some e)
      | None =>
          if object then
            ((if assignsC then set_Class (Some (c fr)) (x fr) else x fr),
             None)
          else (x fr, None)
      end
  | _, _ => (s, Some "wrong number of arguments")
  end.

(** The generated method [MarshalJSON]: primitive arguments are the fields
    themselves, compound ones the pair ["x.f != nil, x.f"]. *)
Definition isSome {A : Type} (o : option A) : bool :=
  match o with Some _ => true | None => false end.

Definition compoundField (s : Union) (kind : TypeKind) : option V :=
  match kind with
  | KArray => Array s
  | KClass => Class s
  | KMap => Map s
  | KEnum => Enum s
  | _ => None
  end.

Definition MarshalJSON (u : UnionType) (s : Union) : error + string :=
  let args := makeArgs u false None
    (fun _ => true)
    (fun _ fn => (isSome (compoundField s fn), compoundField s fn)) in
  match prims args, comps args with
  | [mi; mf; mb; ms], [(ha, pa); (ho, pc); (hm, pm); (he, pe)] =>
      marshalUnion (if mi then Integer s else None)
                   (if mf then Double s else None)
                   (if mb then Bool s else None)
                   (if ms then String_ s else None)
                   ha pa ho pc hm pm he pe (nullableArg args)
  | _, _ => inl "wrong number of arguments"
  end.

(** ** Observations on the generated struct *)

(** The union has a member of kind [kind], that is, the struct has a field
    for it. *)
Definition has (u : UnionType) (kind : TypeKind) : bool :=
  isSome (findMember u kind).

(** The field for [kind] is non-nil; as a value for [json.Marshal]. *)
Definition slot (s : Union) (kind : TypeKind) : option (GoValue float64 V) :=
  match kind with
  | KInteger => option_map GInt (Integer s)
  | KDouble => option_map GFloat (Double s)
  | KBool => option_map GBool (Bool s)
  | KString => option_map GString (String_ s)
  | KArray => option_map (GCompound KArray) (Array s)
  | KClass => option_map (GCompound KClass) (Class s)
  | KMap => option_map (GCompound KMap) (Map s)
  | KEnum => option_map (GCompound KEnum) (Enum s)
  | _ => None
  end.

(** The order in which [makeArgs] lists the slots. *)
Definition slotOrder : list TypeKind :=
  primitiveValueTypeKinds ++ compoundTypeKinds.

(** The fields of the struct that are populated, in [slotOrder]. *)
Definition populatedSlots (u : UnionType) (s : Union) : list TypeKind :=
  filter (fun kind => has u kind && isSome (slot s kind)) slotOrder.

(** The first populated member slot in [slotOrder], if any. *)
Fixpoint firstPopulated (u : UnionType) (s : Union) (kinds : list TypeKind)
  : option (GoValue float64 V) :=
  match kinds with
  | [] => None
  | kind :: rest =>
      match (if has u kind then slot s kind else None) with
      | Some g => Some g
      | None => firstPopulated u s rest
      end
  end.

(** The struct with every member field set to nil. *)
Definition cleared (u : UnionType) (s : Union) : Union :=
  fold_left (fun s kind => if has u kind then assignNil kind s else s)
            slotOrder s.

(** The pointer [makeArgs] passes for a scalar or compound field. *)
Definition ptrTo (u : UnionType) (kind : TypeKind) : Ptr :=
  if has u kind then (if kind_eqb kind KClass then AddrC else AddrX kind)
  else Nil.

(** What [UnmarshalJSON] does, by the first token of [data]: every member
    field is nil except the one the token selects.  The class member is
    decoded into the local [c], which a failed call drops; the array and
    the map member are decoded in place and keep what a failed call has
    left there. *)
Definition decoded (u : UnionType) (data : string) (s : Union) (tok : Token)
  : Union * option error :=
  let s0 := cleared u s in
  let into kind (set : option V -> Union -> Union) :=
    match json_Unmarshal data kind with
    | inr v => (set (Some v) s0, None)
    | inl e => (s0, Some e)
    end in
  let inPlace kind (set : option V -> Union -> Union) :=
    match json_Unmarshal data kind with
    | inr v => (set (Some v) s0, None)
    | inl e =>
        (match json_Unmarshal_partial data kind with
         | Some v => set (Some v) s0
         | None => s0
         end, Some e)
    end in
  match tok with
  | TokNumber v =>
      let tryFloat :=
        if has u KDouble then
          match Number_Float64 v with
          | inr f => (set_Double (Some f) s0, None)
          | inl _ => (s0, Some "Unparsable number")
          end
        else (s0, Some "Union does not contain number") in
      if has u KInteger then
        match Number_Int64 v with
        | inr i => (set_Integer (Some i) s0, None)
        | inl _ => tryFloat
        end
      else tryFloat
  | TokFloat64 => (s0, Some "Decoder should not return float64")
  | TokBool v =>
      if has u KBool then (set_Bool (Some v) s0, None)
      else (s0, Some "Union does not contain bool")
  | TokString v =>
      if has u KEnum then into KEnum set_Enum
      else if has u KString then (set_String (Some v) s0, None)
      else (s0, Some "Union does not contain string")
  | TokNil =>
      if has u KNull then (s0, None)
      else (s0, Some "Union does not contain null")
  | TokDelim v =>
      if Ascii.eqb v "{"%char then
        if has u KClass then into KClass set_Class
        else if has u KMap then inPlace KMap set_Map
        else (s0, Some "Union does not contain object")
      else if Ascii.eqb v "["%char then
        if has u KArray then inPlace KArray set_Array
        else (s0, Some "Union does not contain array")
      else (s0, Some "Cannot handle delimiter")
  | TokOther => (s0, Some "Cannot unmarshal union")
  end.

(** The two phases of [unmarshalUnion]: the resets, then the dispatch on
    the token. *)
Definition resetScalars (pi pf pb ps : Ptr) (fr : Frame) : Frame :=
  let fr := if negb (isNil pi) then store_int pi None fr else fr in
  let fr := if negb (isNil pf) then store_float pf None fr else fr in
  let fr := if negb (isNil pb) then store_bool pb None fr else fr in
  if negb (isNil ps) then store_string ps None fr else fr.

(** [s'] is [s0] with the one slot [kind] populated. *)
Definition onlySlot (s0 s' : Union) (kind : TypeKind) : Prop :=
  isSome (slot s' kind) = true /\
  forall k, k <> kind -> slot s' k = slot s0 k.

(** The first candidate that is present. *)
Fixpoint firstSome {A : Type} (l : list (option A)) : option A :=
  match l with
  | [] => None
  | Some a :: _ => Some a
  | None :: rest => firstSome rest
  end.

(** [data] is a text the package reads back as the value [g]: the first
    token of [data] and what the conversions make of it. *)
Definition reads (data : string) (g : GoValue float64 V) : Prop :=
  match g with
  | GInt i =>
      exists v, dec_Token data = inr (TokNumber v) /\ Number_Int64 v = inr i
  | GFloat f =>
      exists v, dec_Token data = inr (TokNumber v) /\ Number_Float64 v = inr f
  | GBool b => dec_Token data = inr (TokBool b)
  | GString v => dec_Token data = inr (TokString v)
  | GCompound KArray v =>
      dec_Token data = inr (TokDelim "["%char) /\
      json_Unmarshal data KArray = inr v
  | GCompound KClass v =>
      dec_Token data = inr (TokDelim "{"%char) /\
      json_Unmarshal data KClass = inr v
  | GCompound KMap v =>
      dec_Token data = inr (TokDelim "{"%char) /\
      json_Unmarshal data KMap = inr v
  | GCompound KEnum v =>
      (exists tag, dec_Token data = inr (TokString tag)) /\
      json_Unmarshal data KEnum = inr v
  | GCompound _ _ => False
  | GNil => dec_Token data = inr TokNil
  end.

(** A member [unmarshalUnion] tries earlier takes the token meant for the
    member of kind [kind]: the enum member a string, the class member an
    object, the integer member a number it can read. *)
Definition shadowed (u : UnionType) (kind : TypeKind) (data : string) : Prop :=
  match kind with
  | KString => has u KEnum = true
  | KMap => has u KClass = true
  | KDouble =>
      has u KInteger = true /\
      exists v i, dec_Token data = inr (TokNumber v) /\ Number_Int64 v = inr i
  | _ => False
  end.

(** Two structs agree on the fields of the members of [u]. *)
Definition sameMembers (u : UnionType) (s s' : Union) : Prop :=
  forall kind, has u kind = true -> slot s' kind = slot s kind.

End Runtime.

(** ** A small instance of the [encoding/json] interface

    Enough of the package to run the generated methods on the inputs of the
    examples below: the first token is read off the head of the text (a
    string up to its closing quote, without escapes; a number as the
    longest run of the characters of a number literal), a number is kept
    as its text, and a compound value is kept as the text it was decoded
    from. *)

Definition isDigit (ch : ascii) : bool :=
  (48 <=? nat_of_ascii ch)%nat && (nat_of_ascii ch <=? 57)%nat.

Fixpoint parseDigits (v : string) (acc : Z) : option Z :=
  match v with
  | EmptyString => Some acc
  | String ch rest =>
      if isDigit ch
      then parseDigits rest (acc * 10 + Z.of_nat (nat_of_ascii ch - 48))
      else None
  end.

(** The characters of a string token, up to the closing quote. *)
Fixpoint upToQuote (v : string) : option string :=
  match v with
  | EmptyString => None
  | String ch rest =>
      if Ascii.eqb ch (ascii_of_nat 34) then Some EmptyString
      else option_map (String ch) (upToQuote rest)
  end.

Definition isNumberChar (ch : ascii) : bool :=
  isDigit ch
  || existsb (Ascii.eqb ch) ["-"%char; "+"%char; "."%char; "e"%char; "E"%char].

Fixpoint numberLiteral (v : string) : string :=
  match v with
  | EmptyString => EmptyString
  | String ch rest =>
      if isNumberChar ch then String ch (numberLiteral rest) else EmptyString
  end.

Definition demo_Token (data : string) : error + Token :=
  match data with
  | EmptyString => inl "EOF"
  | String ch rest =>
      if Ascii.eqb ch "n" then inr TokNil
      else if Ascii.eqb ch "t" then inr (TokBool true)
      else if Ascii.eqb ch "f" then inr (TokBool false)
      else if Ascii.eqb ch (ascii_of_nat 34) then
        match upToQuote rest with
        | Some v => inr (TokString v)
        | None => inl "unexpected EOF"
        end
      else if Ascii.eqb ch "{" then inr (TokDelim ch)
      else if Ascii.eqb ch "[" then inr (TokDelim ch)
      else if isDigit ch || Ascii.eqb ch "-" then
        inr (TokNumber (numberLiteral data))
      else inl "invalid character"
  end.

(** [Number.Int64]: an optional minus sign and decimal digits. *)
Definition demo_Int64 (v : string) : error + Z :=
  let digits (d : string) :=
    match d with
    | EmptyString => None
    | _ => parseDigits d 0
    end in
  match v with
  | String "-" rest =>
      match digits rest with
      | Some i => inr (- i)%Z
      | None => inl "invalid syntax"
      end
  | _ =>
      match digits v with
      | Some i => inr i
      | None => inl "invalid syntax"
      end
  end.

Definition demo_Float64 (v : string) : error + string := inr v.

Definition demo_Unmarshal (data : string) (kind : TypeKind) : error + string :=
  inr data.

Definition demo_Marshal (g : GoValue string string) : error + string :=
  match g with
  | GInt i => inr "<int64>"
  | GFloat f => inr f
  | GBool b => inr (if b then "true" else "false")
  | GString v => inr v
  | GCompound _ v => inr v
  | GNil => inr "null"
  end.

Definition demoJson : Json :=
  {| float64 := string;
     V := string;
     zeroValue := "";
     dec_Token := demo_Token;
     Number_Int64 := demo_Int64;
     Number_Float64 := demo_Float64;
     json_Unmarshal := demo_Unmarshal;
     json_Unmarshal_partial := fun _ _ => None;
     json_Marshal := demo_Marshal |}.

Definition demo_UnmarshalJSON
  : UnionType -> string -> @Union demoJson -> @Union demoJson * option error :=
  @UnmarshalJSON demoJson.

Definition demo_marshalUnion := @marshalUnion demoJson.

(** The union of null, an integer and a string. *)
Definition nullableUnion : UnionType :=
  {| members := [KNull; KInteger; KString] |}.

(** The JSON text of the string [red], quotes included. *)
Definition quoted_red : string :=
  String (ascii_of_nat 34) ("red" ++ String (ascii_of_nat 34) EmptyString).

(** A struct with every field nil. *)
Definition nilUnion : @Union demoJson :=
  {| Integer := None; Double := None; Bool := None; String_ := None;
     Array := None; Class := None; Map := None; Enum := None |}.

(** ** Facts about the generated struct and its two methods *)

Section Facts.

Context `{json : Json}.

Lemma findMember_kind (u : UnionType) (kind t : TypeKind) :
  findMember u kind = Some t -> t = kind.
Proof.
  unfold findMember. intros H. apply find_some in H. destruct H as [_ H].
  destruct kind, t; simpl in H; congruence.
Qed.

Lemma ifMember_has {T : Type} (u : UnionType) (kind : TypeKind) (d : T)
    (f : TypeKind -> T) :
  ifMember u kind d f = if has u kind then f kind else d.
Proof.
  unfold ifMember, has.
  destruct (findMember u kind) as [t|] eqn:E; simpl; [|reflexivity].
  apply findMember_kind in E. now subst.
Qed.

Lemma isNullableArg_has (u : UnionType) : isNullableArg u = has u KNull.
Proof. unfold isNullableArg, has. now destruct (findMember u KNull). Qed.

(** Case analysis on which of the eight slots [u] has. *)
Ltac split_members u :=
  rewrite ?ifMember_has, ?isNullableArg_has;
  destruct (has u KArray), (has u KClass), (has u KMap), (has u KEnum),
    (has u KInteger), (has u KDouble), (has u KBool), (has u KString).

(** [MarshalJSON] in terms of the helper, the arguments spelt out. *)
Lemma MarshalJSON_unfold (u : UnionType) (s : Union) :
  MarshalJSON u s =
  marshalUnion
    (if has u KInteger then Integer s else None)
    (if has u KDouble then Double s else None)
    (if has u KBool then Bool s else None)
    (if has u KString then String_ s else None)
    (has u KArray && isSome (Array s)) (if has u KArray then Array s else None)
    (has u KClass && isSome (Class s)) (if has u KClass then Class s else None)
    (has u KMap && isSome (Map s)) (if has u KMap then Map s else None)
    (has u KEnum && isSome (Enum s)) (if has u KEnum then Enum s else None)
    (has u KNull).
Proof.
  unfold MarshalJSON, makeArgs. simpl.
  split_members u; reflexivity.
Qed.

(** [UnmarshalJSON] in terms of the helper, the arguments spelt out. *)
Lemma UnmarshalJSON_unfold (u : UnionType) (data : string) (s : Union) :
  UnmarshalJSON u data s =
  let s0 := fold_left (fun s kind => maybeAssignNil u kind s)
                      compoundTypeKinds s in
  let '(fr, (object, err)) :=
    unmarshalUnion data (ptrTo u KInteger) (ptrTo u KDouble) (ptrTo u KBool)
      (ptrTo u KString) (has u KArray) (ptrTo u KArray)
      (has u KClass) (ptrTo u KClass) (has u KMap) (ptrTo u KMap)
      (has u KEnum) (ptrTo u KEnum) (has u KNull)
      {| x := s0; c := zeroValue |} in
  match err with
  | Some e => (x fr, Some e)
  | None =>
      if object then
        ((if has u KClass then set_Class (Some (c fr)) (x fr) else x fr), None)
      else (x fr, None)
  end.
Proof.
  unfold UnmarshalJSON, unmarshalArgs, makeArgs, ptrTo, maybeAssignNil.
  simpl. split_members u; reflexivity.
Qed.

Lemma unmarshalUnion_error (data : string) (pi pf pb ps : Ptr)
    (ha : bool) (pa : Ptr) (ho : bool) (pc : Ptr) (hm : bool) (pm : Ptr)
    (he : bool) (pe : Ptr) (nullable : bool) (fr : Frame) (err : error) :
  dec_Token data = inl err ->
  unmarshalUnion data pi pf pb ps ha pa ho pc hm pm he pe nullable fr =
  (resetScalars pi pf pb ps fr, (false, Some err)).
Proof. intros H. unfold unmarshalUnion, resetScalars. now rewrite H. Qed.

Lemma resetScalars_cleared (u : UnionType) (s : Union) (z : V) :
  resetScalars (ptrTo u KInteger) (ptrTo u KDouble) (ptrTo u KBool)
    (ptrTo u KString)
    {| x := fold_left (fun s kind => maybeAssignNil u kind s)
                      compoundTypeKinds s;
       c := z |} =
  {| x := cleared u s; c := z |}.
Proof.
  unfold resetScalars, cleared, ptrTo, maybeAssignNil. simpl.
  split_members u; reflexivity.
Qed.

Lemma UnmarshalJSON_decoded (u : UnionType) (data : string) (s : Union) :
  UnmarshalJSON u data s =
  match dec_Token data with
  | inl err => (cleared u s, Some err)
  | inr tok => decoded u data s tok
  end.
Proof.
  rewrite UnmarshalJSON_unfold. cbv zeta.
  destruct (dec_Token data) as [err|tok] eqn:Etok.
  - rewrite (unmarshalUnion_error _ _ _ _ _ _ _ _ _ _ _ _ _ _ _ _ Etok).
    now rewrite resetScalars_cleared.
  - unfold unmarshalUnion. rewrite Etok.
    fold (resetScalars (ptrTo u KInteger) (ptrTo u KDouble) (ptrTo u KBool)
            (ptrTo u KString)
            {| x := fold_left (fun s kind => maybeAssignNil u kind s)
                              compoundTypeKinds s;
               c := zeroValue |}).
    rewrite resetScalars_cleared. unfold decoded. cbv zeta.
    generalize (cleared u s) as s0. intros s0.
    unfold ptrTo.
    destruct tok as [v| |v|v| |v|]; simpl.
    + destruct (has u KInteger), (has u KDouble); simpl;
        try destruct (Number_Int64 v); simpl;
        try destruct (Number_Float64 v); reflexivity.
    + reflexivity.
    + destruct (has u KBool); reflexivity.
    + destruct (has u KEnum); simpl;
        [destruct (json_Unmarshal data KEnum); reflexivity|].
      destruct (has u KString); reflexivity.
    + destruct (has u KNull); reflexivity.
    + destruct (Ascii.eqb v "{"%char).
      * destruct (has u KClass); simpl;
          [destruct (json_Unmarshal data KClass);
           [destruct (json_Unmarshal_partial data KClass)|]; reflexivity|].
        destruct (has u KMap); simpl;
          [destruct (json_Unmarshal data KMap);
           [destruct (json_Unmarshal_partial data KMap)|]; reflexivity
          |reflexivity].
      * destruct (Ascii.eqb v "["%char); [|reflexivity].
        destruct (has u KArray); simpl;
          [destruct (json_Unmarshal data KArray);
           [destruct (json_Unmarshal_partial data KArray)|]; reflexivity
          |reflexivity].
    + reflexivity.
Qed.

Lemma slot_assignNil (kind k : TypeKind) (s : Union) :
  slot (assignNil kind s) k = if kind_eqb k kind then None else slot s k.
Proof. destruct kind, k; try reflexivity; destruct s; reflexivity. Qed.

Lemma slot_cleared_in (u : UnionType) (kinds : list TypeKind) (s : Union)
    (k : TypeKind) :
  slot (fold_left (fun s kind => if has u kind then assignNil kind s else s)
                  kinds s) k =
  if has u k && existsb (kind_eqb k) kinds then None else slot s k.
Proof.
  revert s. induction kinds as [|kind kinds IH]; intros s; simpl.
  - now rewrite andb_false_r.
  - rewrite IH. destruct (kind_eqb k kind) eqn:Ek; simpl.
    + assert (k = kind) by (destruct k, kind; simpl in Ek; congruence).
      subst kind. destruct (has u k); simpl.
      * rewrite slot_assignNil, Ek. now destruct (existsb _ kinds).
      * reflexivity.
    + destruct (has u kind); [|reflexivity].
      now rewrite slot_assignNil, Ek.
Qed.

Lemma slot_cleared (u : UnionType) (s : Union) (k : TypeKind) :
  In k slotOrder -> has u k = true -> slot (cleared u s) k = None.
Proof.
  intros Hin Hk. unfold cleared. rewrite slot_cleared_in, Hk.
  replace (existsb (kind_eqb k) slotOrder) with true; [reflexivity|].
  symmetry. apply existsb_exists. exists k. split; [assumption|].
  now destruct k.
Qed.

Lemma filter_none {A : Type} (f : A -> bool) (l : list A) :
  (forall a, In a l -> f a = false) -> filter f l = [].
Proof.
  induction l as [|a l IH]; intros H; simpl; [reflexivity|].
  rewrite (H a (or_introl eq_refl)). apply IH. intros b Hb.
  apply H. now right.
Qed.

Lemma populatedSlots_cleared (u : UnionType) (s : Union) :
  populatedSlots u (cleared u s) = [].
Proof.
  apply filter_none. intros k Hin.
  destruct (has u k) eqn:Hk; [|reflexivity].
  now rewrite (slot_cleared u s k Hin Hk).
Qed.

Lemma populatedSlots_onlySlot (u : UnionType) (s s' : Union)
    (kind : TypeKind) :
  In kind slotOrder -> has u kind = true ->
  onlySlot (cleared u s) s' kind ->
  populatedSlots u s' = [kind].
Proof.
  intros Hin Hk [Hset Hrest]. unfold populatedSlots.
  rewrite (filter_ext_in _ (kind_eqb kind)).
  - simpl in Hin. repeat (destruct Hin as [<-|Hin]; [reflexivity|]).
    contradiction.
  - intros k Hk'. destruct (kind_eqb kind k) eqn:Ek.
    + assert (kind = k) by (destruct k, kind; simpl in Ek; congruence).
      subst k. now rewrite Hk, Hset.
    + assert (k <> kind) by (intros ->; destruct kind; simpl in Ek; congruence).
      rewrite (Hrest k H). destruct (has u k) eqn:Hu; [|reflexivity].
      now rewrite (slot_cleared u s k Hk' Hu).
Qed.

Lemma onlySlot_set (s0 : Union) :
  (forall v, onlySlot s0 (set_Integer (Some v) s0) KInteger) /\
  (forall v, onlySlot s0 (set_Double (Some v) s0) KDouble) /\
  (forall v, onlySlot s0 (set_Bool (Some v) s0) KBool) /\
  (forall v, onlySlot s0 (set_String (Some v) s0) KString) /\
  (forall v, onlySlot s0 (set_Array (Some v) s0) KArray) /\
  (forall v, onlySlot s0 (set_Class (Some v) s0) KClass) /\
  (forall v, onlySlot s0 (set_Map (Some v) s0) KMap) /\
  (forall v, onlySlot s0 (set_Enum (Some v) s0) KEnum).
Proof.
  repeat split; intros k Hk; destruct k; try reflexivity; congruence.
Qed.

(** A successful [UnmarshalJSON], by cases: a null token leaves every
    member field nil, any other token populates exactly one. *)
Lemma decoded_success (u : UnionType) (data : string) (s s' : Union)
    (tok : Token) :
  decoded u data s tok = (s', None) ->
  (tok = TokNil /\ has u KNull = true /\ s' = cleared u s) \/
  (tok <> TokNil /\
   exists kind, In kind slotOrder /\ has u kind = true /\
                onlySlot (cleared u s) s' kind).
Proof.
  pose proof (onlySlot_set (cleared u s))
    as (Hi & Hf & Hb & Hs & Ha & Hc & Hm & He).
  unfold decoded. cbv zeta. intros H.
  destruct tok as [v| |v|v| |v|].
  - right. split; [discriminate|].
    destruct (has u KInteger) eqn:Ei.
    + destruct (Number_Int64 v) as [?|i].
      * destruct (has u KDouble) eqn:Ef; [|discriminate].
        destruct (Number_Float64 v) as [?|f]; [discriminate|].
        inversion H; subst. exists KDouble. simpl. auto 10.
      * inversion H; subst. exists KInteger. simpl. auto 10.
    + destruct (has u KDouble) eqn:Ef; [|discriminate].
      destruct (Number_Float64 v) as [?|f]; [discriminate|].
      inversion H; subst. exists KDouble. simpl. auto 10.
  - discriminate.
  - right. split; [discriminate|].
    destruct (has u KBool) eqn:Eb; [|discriminate].
    inversion H; subst. exists KBool. simpl. auto 10.
  - right. split; [discriminate|].
    destruct (has u KEnum) eqn:Ee.
    + destruct (json_Unmarshal data KEnum) as [?|w]; [discriminate|].
      inversion H; subst. exists KEnum. simpl. auto 10.
    + destruct (has u KString) eqn:Es; [|discriminate].
      inversion H; subst. exists KString. simpl. auto 10.
  - left. destruct (has u KNull); [|discriminate].
    inversion H; subst. auto.
  - right. split; [discriminate|].
    destruct (Ascii.eqb v "{"%char).
    + destruct (has u KClass) eqn:Ec.
      * destruct (json_Unmarshal data KClass) as [?|w]; [discriminate|].
        inversion H; subst. exists KClass. simpl. auto 10.
      * destruct (has u KMap) eqn:Em; [|discriminate].
        destruct (json_Unmarshal data KMap) as [?|w]; [discriminate|].
        inversion H; subst. exists KMap. simpl. auto 10.
    + destruct (Ascii.eqb v "["%char); [|discriminate].
      destruct (has u KArray) eqn:Ea; [|discriminate].
      destruct (json_Unmarshal data KArray) as [?|w]; [discriminate|].
      inversion H; subst. exists KArray. simpl. auto 10.
  - discriminate.
Qed.

Lemma kind_eqb_eq (a b : TypeKind) : kind_eqb a b = true <-> a = b.
Proof. destruct a, b; simpl; split; congruence. Qed.

Lemma slot_cleared_member (u : UnionType) (s : Union) (k : TypeKind) :
  has u k = true -> slot (cleared u s) k = None.
Proof.
  intros Hk. destruct (slot (cleared u s) k) eqn:E; [|reflexivity].
  rewrite slot_cleared in E; [discriminate| |assumption].
  destruct k; simpl in E; try discriminate; simpl; auto 10.
Qed.

(** C3.  An object token is decoded into the class member whenever the
    union has one, whether or not it also has a map member: after the call
    the class field holds what [json.Unmarshal] decoded and every other
    member field, the map's among them, is nil; when the decoding fails its
    error is returned and every member field is nil.  The map member takes
    the token only in a union without a class member: then the map field
    holds the decoded map, or what a failed call has left there, and every
    other field is nil.  A union with neither is rejected with "Union does
    not contain object".  The first part is the order of the tests in the
    helper [unmarshalUnion]. *)
Theorem UnmarshalJSON_object_prefers_class (u : UnionType) (data : string)
    (s : Union) :
  dec_Token data = inr (TokDelim "{"%char) ->
  (forall pi pf pb ps ha pa ho pc hm pm he pe nullable fr,
      unmarshalUnion data pi pf pb ps ha pa ho pc hm pm he pe nullable fr =
      let fr0 := resetScalars pi pf pb ps fr in
      if ho then
        let (fr', err) := Unmarshal_into data pc fr0 in (fr', (true, err))
      else if hm then
        let (fr', err) := Unmarshal_into data pm fr0 in (fr', (false, err))
      else (fr0, (false, Some "Union does not contain object"))) /\
  (has u KClass = true ->
   (forall k, has u k = true -> k <> KClass ->
              slot (fst (UnmarshalJSON u data s)) k = None) /\
   match json_Unmarshal data KClass with
   | inr v =>
       snd (UnmarshalJSON u data s) = None /\
       slot (fst (UnmarshalJSON u data s)) KClass = Some (GCompound KClass v)
   | inl e =>
       snd (UnmarshalJSON u data s) = Some e /\
       slot (fst (UnmarshalJSON u data s)) KClass = None
   end) /\
  (has u KClass = false -> has u KMap = true ->
   (forall k, has u k = true -> k <> KMap ->
              slot (fst (UnmarshalJSON u data s)) k = None) /\
   match json_Unmarshal data KMap with
   | inr v =>
       snd (UnmarshalJSON u data s) = None /\
       slot (fst (UnmarshalJSON u data s)) KMap = Some (GCompound KMap v)
   | inl e =>
       snd (UnmarshalJSON u data s) = Some e /\
       slot (fst (UnmarshalJSON u data s)) KMap
       = option_map (GCompound KMap) (json_Unmarshal_partial data KMap)
   end) /\
  (has u KClass = false -> has u KMap = false ->
   UnmarshalJSON u data s
   = (cleared u s, Some "Union does not contain object")).
Proof.
  intros Htok.
  pose proof (onlySlot_set (cleared u s))
    as (_ & _ & _ & _ & _ & Hclass & Hmap & _).
  split; [|split; [|split]].
  - intros. unfold unmarshalUnion, resetScalars. rewrite Htok. reflexivity.
  - intros Hc. rewrite UnmarshalJSON_decoded, Htok. simpl. rewrite Hc.
    pose proof (slot_cleared_member u s KClass Hc) as Hnil.
    destruct (json_Unmarshal data KClass) as [e|v]; simpl.
    + split; [|split; [reflexivity|exact Hnil]].
      intros k Hk _. now apply slot_cleared_member.
    + split; [|split; reflexivity].
      intros k Hk Hne. destruct (Hclass v) as [_ Hrest].
      rewrite (Hrest k Hne). now apply slot_cleared_member.
  - intros Hc Hm. rewrite UnmarshalJSON_decoded, Htok. simpl.
    rewrite Hc, Hm.
    pose proof (slot_cleared_member u s KMap Hm) as Hnil.
    destruct (json_Unmarshal data KMap) as [e|v]; simpl.
    + destruct (json_Unmarshal_partial data KMap) as [w|]; simpl.
      * split; [|split; reflexivity].
        intros k Hk Hne. destruct (Hmap w) as [_ Hrest].
        rewrite (Hrest k Hne). now apply slot_cleared_member.
      * split; [|split; [reflexivity|exact Hnil]].
        intros k Hk _. now apply slot_cleared_member.
    + split; [|split; reflexivity].
      intros k Hk Hne. destruct (Hmap v) as [_ Hrest].
      rewrite (Hrest k Hne). now apply slot_cleared_member.
  - intros Hc Hm. rewrite UnmarshalJSON_decoded, Htok. simpl.
    now rewrite Hc, Hm.
Qed.

(** C4 (as amended).  [marshalUnion] serialises the first populated slot in
    the order integer, double, bool, string, array, class, map, enum; with
    no slot populated it marshals nil for a nullable union and otherwise
    fails with the message "Union must not be null".  The generated
    [MarshalJSON] passes the struct's member fields in that order. *)
Theorem MarshalJSON_priority_order :
  (forall pi pf pb ps ha pa ho pc hm pm he pe nullable,
      marshalUnion pi pf pb ps ha pa ho pc hm pm he pe nullable =
      let compound (have : bool) kind (p : option V) :=
        if have
        then Some (match p with Some v => GCompound kind v | None => GNil end)
        else None in
      match firstSome [option_map GInt pi; option_map GFloat pf;
                       option_map GBool pb; option_map GString ps;
                       compound ha KArray pa; compound ho KClass pc;
                       compound hm KMap pm; compound he KEnum pe] with
      | Some g => json_Marshal g
      | None => if nullable then json_Marshal GNil
                else inl "Union must not be null"
      end) /\
  (forall u s,
      MarshalJSON u s =
      match firstPopulated u s slotOrder with
      | Some g => json_Marshal g
      | None => if isNullableArg u then json_Marshal GNil
                else inl "Union must not be null"
      end).
Proof.
  split.
  - intros. unfold marshalUnion. cbv zeta.
    destruct pi; [reflexivity|]. destruct pf; [reflexivity|].
    destruct pb; [reflexivity|]. destruct ps; [reflexivity|]. simpl.
    destruct ha; [reflexivity|]. destruct ho; [reflexivity|].
    destruct hm; [reflexivity|]. destruct he; reflexivity.
  - intros. rewrite MarshalJSON_unfold, isNullableArg_has.
    unfold marshalUnion. simpl.
    destruct (has u KInteger);
      [destruct (Integer s); [reflexivity|]|]; simpl;
    (destruct (has u KDouble);
      [destruct (Double s); [reflexivity|]|]); simpl;
    (destruct (has u KBool);
      [destruct (Bool s); [reflexivity|]|]); simpl;
    (destruct (has u KString);
      [destruct (String_ s); [reflexivity|]|]); simpl;
    (destruct (has u KArray);
      [destruct (Array s); [reflexivity|]|]); simpl;
    (destruct (has u KClass);
      [destruct (Class s); [reflexivity|]|]); simpl;
    (destruct (has u KMap);
      [destruct (Map s); [reflexivity|]|]); simpl;
    (destruct (has u KEnum);
      [destruct (Enum s); [reflexivity|]|]); reflexivity.
Qed.

(** C9 (as amended).  [UnmarshalJSON] sets every member field to nil before
    it looks at the token: that is the state it returns when the token
    cannot be read.  After a call that returns without error at most one
    member field is populated: none when the token is null (accepted
    because the union is nullable), exactly one for every other token; all
    other slots are as the reset left them. *)
Theorem UnmarshalJSON_populates_at_most_one (u : UnionType) (data : string)
    (s : Union) :
  populatedSlots u (cleared u s) = [] /\
  (forall err, dec_Token data = inl err ->
               UnmarshalJSON u data s = (cleared u s, Some err)) /\
  (forall s',
      UnmarshalJSON u data s = (s', None) ->
      (length (populatedSlots u s') <= 1)%nat /\
      exists tok, dec_Token data = inr tok /\
        ((tok = TokNil /\ has u KNull = true /\ s' = cleared u s /\
          populatedSlots u s' = []) \/
         (tok <> TokNil /\
          exists kind, has u kind = true /\ populatedSlots u s' = [kind] /\
                       onlySlot (cleared u s) s' kind))).
Proof.
  split; [apply populatedSlots_cleared|]. split.
  - intros err Herr. now rewrite UnmarshalJSON_decoded, Herr.
  - intros s' H. rewrite UnmarshalJSON_decoded in H.
    destruct (dec_Token data) as [err|tok]; [inversion H|].
    apply decoded_success in H.
    destruct H as [(-> & Hn & ->)|(Hne & kind & Hin & Hk & Hs)].
    + rewrite populatedSlots_cleared. split; [simpl; lia|].
      exists TokNil. split; [reflexivity|]. left. auto.
    + rewrite (populatedSlots_onlySlot u s s' kind Hin Hk Hs).
      split; [simpl; lia|].
      exists tok. split; [reflexivity|]. right. split; [assumption|].
      exists kind. auto.
Qed.

(** ** More on the two methods *)

Lemma populatedSlots_In (u : UnionType) (s : Union) (k : TypeKind) :
  In k (populatedSlots u s) <-> has u k = true /\ isSome (slot s k) = true.
Proof.
  unfold populatedSlots. rewrite filter_In, andb_true_iff. split.
  - now intros [_ H].
  - intros [Hk Hs]. split; [|now split].
    destruct k; simpl in Hs; try discriminate; simpl; auto 10.
Qed.

Lemma populatedSlots_single (u : UnionType) (s : Union) (kind k : TypeKind) :
  populatedSlots u s = [kind] -> has u k = true -> k <> kind ->
  slot s k = None.
Proof.
  intros Hpop Hk Hne. destruct (slot s k) eqn:E; [|reflexivity].
  assert (In k (populatedSlots u s)) as Hin
    by (apply populatedSlots_In; now rewrite E).
  rewrite Hpop in Hin. destruct Hin as [->|[]]. contradiction.
Qed.

Lemma firstPopulated_filter (u : UnionType) (s : Union)
    (kinds : list TypeKind) :
  firstPopulated u s kinds =
  match filter (fun kind => has u kind && isSome (slot s kind)) kinds with
  | [] => None
  | kind :: _ => slot s kind
  end.
Proof.
  induction kinds as [|kind kinds IH]; simpl; [reflexivity|].
  destruct (has u kind); simpl; [|exact IH].
  destruct (slot s kind) eqn:E; simpl; [now rewrite E|exact IH].
Qed.

(** [MarshalJSON] by the populated member fields. *)
Lemma MarshalJSON_populatedSlots (u : UnionType) (s : Union) :
  MarshalJSON u s =
  match populatedSlots u s with
  | [] => if has u KNull then json_Marshal GNil
          else inl "Union must not be null"
  | kind :: _ =>
      match slot s kind with
      | Some g => json_Marshal g
      | None => inl "Union must not be null"
      end
  end.
Proof.
  transitivity
    (match firstPopulated u s slotOrder with
     | Some g => json_Marshal g
     | None => if has u KNull then json_Marshal GNil
               else inl "Union must not be null"
     end).
  - rewrite MarshalJSON_unfold. unfold marshalUnion. simpl.
    destruct (has u KInteger);
      [destruct (Integer s); [reflexivity|]|]; simpl;
    (destruct (has u KDouble);
      [destruct (Double s); [reflexivity|]|]); simpl;
    (destruct (has u KBool);
      [destruct (Bool s); [reflexivity|]|]); simpl;
    (destruct (has u KString);
      [destruct (String_ s); [reflexivity|]|]); simpl;
    (destruct (has u KArray);
      [destruct (Array s); [reflexivity|]|]); simpl;
    (destruct (has u KClass);
      [destruct (Class s); [reflexivity|]|]); simpl;
    (destruct (has u KMap);
      [destruct (Map s); [reflexivity|]|]); simpl;
    (destruct (has u KEnum);
      [destruct (Enum s); [reflexivity|]|]); reflexivity.
  - rewrite firstPopulated_filter. fold (populatedSlots u s).
    destruct (populatedSlots u s) as [|kind rest] eqn:E; [reflexivity|].
    assert (In kind (populatedSlots u s)) as Hin by (rewrite E; now left).
    apply populatedSlots_In in Hin. destruct Hin as [_ Hin].
    destruct (slot s kind); [reflexivity|discriminate].
Qed.

Lemma onlySlot_restores (u : UnionType) (s s0 s' : Union) (kind : TypeKind) :
  populatedSlots u s = [kind] ->
  onlySlot (cleared u s0) s' kind ->
  slot s' kind = slot s kind ->
  sameMembers u s s'.
Proof.
  intros Hpop [_ Hrest] Hkind k Hk.
  destruct (kind_eqb k kind) eqn:E.
  - apply kind_eqb_eq in E. now subst k.
  - assert (k <> kind) as Hne
      by (intros ->; destruct kind; discriminate).
    rewrite (Hrest k Hne), (populatedSlots_single u s kind k Hpop Hk Hne).
    now apply slot_cleared_member.
Qed.



(** X3.  A token of a kind the union has no member for is rejected with a
    message naming the kind, and every member field is left nil: a bool
    without a bool member, null for a union that is not nullable, an array
    without an array member; a delimiter other than the two opening ones,
    a float64 token and a token of no known type are rejected for every
    union. *)
Theorem UnmarshalJSON_rejects_missing_member (u : UnionType) (data : string)
    (s : Union) (tok : Token) :
  dec_Token data = inr tok ->
  match tok with
  | TokBool _ =>
      has u KBool = false ->
      UnmarshalJSON u data s
      = (cleared u s, Some "Union does not contain bool")
  | TokNil =>
      has u KNull = false ->
      UnmarshalJSON u data s
      = (cleared u s, Some "Union does not contain null")
  | TokDelim v =>
      (v = "["%char -> has u KArray = false ->
       UnmarshalJSON u data s
       = (cleared u s, Some "Union does not contain array")) /\
      (v <> "{"%char -> v <> "["%char ->
       UnmarshalJSON u data s = (cleared u s, Some "Cannot handle delimiter"))
  | TokFloat64 =>
      UnmarshalJSON u data s
      = (cleared u s, Some "Decoder should not return float64")
  | TokOther =>
      UnmarshalJSON u data s = (cleared u s, Some "Cannot unmarshal union")
  | TokNumber _ | TokString _ => True
  end /\
  populatedSlots u (cleared u s) = [].
Proof.
  intros Htok. rewrite UnmarshalJSON_decoded, Htok. split.
  - destruct tok as [v| |v|v| |v|]; simpl; try exact I; try reflexivity.
    + intros H. now rewrite H.
    + intros H. now rewrite H.
    + split.
      * intros -> H. simpl. now rewrite H.
      * intros H1 H2.
        destruct (Ascii.eqb_spec v "{"%char); [contradiction|].
        destruct (Ascii.eqb_spec v "["%char); [contradiction|reflexivity].
  - apply populatedSlots_cleared.
Qed.

(** X4.  Nothing of the struct's previous content survives a call of
    [UnmarshalJSON]: for any two structs the method returns the same error
    and the same value in the field of every member of the union. *)
Theorem UnmarshalJSON_overwrites_every_member (u : UnionType) (data : string)
    (s1 s2 : Union) :
  snd (UnmarshalJSON u data s1) = snd (UnmarshalJSON u data s2) /\
  sameMembers u (fst (UnmarshalJSON u data s1))
              (fst (UnmarshalJSON u data s2)).
Proof.
  rewrite !UnmarshalJSON_decoded.
  assert (sameMembers u (cleared u s1) (cleared u s2)) as Hc
    by (intros k Hk; now rewrite !slot_cleared_member).
  destruct (dec_Token data) as [err|tok]; [split; [reflexivity|exact Hc]|].
  unfold decoded. cbv zeta.
  revert Hc. generalize (cleared u s1) (cleared u s2). intros a b Hc.
  assert (forall (set : Union -> Union),
             (forall k, slot (set a) k = slot (set b) k \/
                        (slot (set a) k = slot a k /\
                         slot (set b) k = slot b k)) ->
             sameMembers u (set a) (set b)) as Hset.
  { intros set H k Hk. destruct (H k) as [E|[Ea Eb]]; [now rewrite E|].
    rewrite Ea, Eb. now apply Hc. }
  assert (forall v, sameMembers u (set_Integer (Some v) a)
                                (set_Integer (Some v) b)) as Hi
    by (intros v; apply (Hset (set_Integer (Some v))); intros k;
        destruct k; simpl; auto).
  assert (forall v, sameMembers u (set_Double (Some v) a)
                                (set_Double (Some v) b)) as Hf
    by (intros v; apply (Hset (set_Double (Some v))); intros k;
        destruct k; simpl; auto).
  assert (forall v, sameMembers u (set_Bool (Some v) a)
                                (set_Bool (Some v) b)) as Hb
    by (intros v; apply (Hset (set_Bool (Some v))); intros k;
        destruct k; simpl; auto).
  assert (forall v, sameMembers u (set_String (Some v) a)
                                (set_String (Some v) b)) as Hs
    by (intros v; apply (Hset (set_String (Some v))); intros k;
        destruct k; simpl; auto).
  assert (forall v, sameMembers u (set_Array (Some v) a)
                                (set_Array (Some v) b)) as Ha
    by (intros v; apply (Hset (set_Array (Some v))); intros k;
        destruct k; simpl; auto).
  assert (forall v, sameMembers u (set_Class (Some v) a)
                                (set_Class (Some v) b)) as Hcl
    by (intros v; apply (Hset (set_Class (Some v))); intros k;
        destruct k; simpl; auto).
  assert (forall v, sameMembers u (set_Map (Some v) a)
                                (set_Map (Some v) b)) as Hm
    by (intros v; apply (Hset (set_Map (Some v))); intros k;
        destruct k; simpl; auto).
  assert (forall v, sameMembers u (set_Enum (Some v) a)
                                (set_Enum (Some v) b)) as He
    by (intros v; apply (Hset (set_Enum (Some v))); intros k;
        destruct k; simpl; auto).
  destruct tok as [v| |v|v| |v|];
    repeat match goal with
           | |- context [if ?b then _ else _] => destruct b
           | |- context [match ?x with inl _ => _ | inr _ => _ end] =>
               destruct x
           | |- context [match ?x with Some _ => _ | None => _ end] =>
               destruct x
           end; simpl; split; auto.
Qed.

(** X5.  Encoding and decoding a union with one populated member.
    [MarshalJSON] hands the value of the one populated field to
    [json.Marshal].  From any text the package reads back as that value
    [UnmarshalJSON] restores the field of every member, unless a member
    tried earlier takes the token: then the field stays nil. *)
Theorem MarshalJSON_UnmarshalJSON_round_trip (u : UnionType) (s s0 : Union)
    (kind : TypeKind) (g : GoValue float64 V) :
  populatedSlots u s = [kind] ->
  slot s kind = Some g ->
  MarshalJSON u s = json_Marshal g /\
  (forall data,
      reads data g -> ~ shadowed u kind data ->
      exists s', UnmarshalJSON u data s0 = (s', None) /\ sameMembers u s s') /\
  (forall data,
      reads data g -> shadowed u kind data ->
      slot (fst (UnmarshalJSON u data s0)) kind = None).
Proof.
  intros Hpop Hslot.
  assert (has u kind = true) as Hk.
  { assert (In kind (populatedSlots u s)) as Hin by (rewrite Hpop; now left).
    now apply populatedSlots_In in Hin. }
  pose proof (onlySlot_set (cleared u s0))
    as (Hi & Hf & Hb & Hs & Ha & Hc & Hm & He).
  split; [|split].
  - now rewrite MarshalJSON_populatedSlots, Hpop, Hslot.
  - intros data Hreads Hfree. rewrite UnmarshalJSON_decoded.
    destruct kind; simpl in Hslot; try discriminate.
    + destruct (Bool s) as [b|] eqn:E; [|discriminate].
      injection Hslot as <-. simpl in Hreads. rewrite Hreads. simpl.
      rewrite Hk. eexists. split; [reflexivity|].
      apply (onlySlot_restores u s s0 _ KBool Hpop (Hb b)).
      simpl. now rewrite E.
    + destruct (Integer s) as [i|] eqn:E; [|discriminate].
      injection Hslot as <-. destruct Hreads as (v & Htok & Hv).
      rewrite Htok. simpl. rewrite Hk, Hv. eexists. split; [reflexivity|].
      apply (onlySlot_restores u s s0 _ KInteger Hpop (Hi i)).
      simpl. now rewrite E.
    + destruct (Double s) as [f|] eqn:E; [|discriminate].
      injection Hslot as <-. destruct Hreads as (v & Htok & Hv).
      rewrite Htok. simpl. rewrite Hk, Hv.
      exists (set_Double (Some f) (cleared u s0)). split.
      * destruct (has u KInteger) eqn:Ei; [|reflexivity].
        destruct (Number_Int64 v) as [e|i] eqn:Ev; [reflexivity|].
        exfalso. apply Hfree. simpl. split; [exact Ei|].
        now exists v, i.
      * apply (onlySlot_restores u s s0 _ KDouble Hpop (Hf f)).
        simpl. now rewrite E.
    + destruct (String_ s) as [v|] eqn:E; [|discriminate].
      injection Hslot as <-. simpl in Hreads. rewrite Hreads. simpl.
      destruct (has u KEnum) eqn:Ee; [exfalso; now apply Hfree|].
      rewrite Hk. eexists. split; [reflexivity|].
      apply (onlySlot_restores u s s0 _ KString Hpop (Hs v)).
      simpl. now rewrite E.
    + destruct (Array s) as [v|] eqn:E; [|discriminate].
      injection Hslot as <-. destruct Hreads as (Htok & Hv).
      rewrite Htok. simpl. rewrite Hk, Hv. eexists. split; [reflexivity|].
      apply (onlySlot_restores u s s0 _ KArray Hpop (Ha v)).
      simpl. now rewrite E.
    + destruct (Class s) as [v|] eqn:E; [|discriminate].
      injection Hslot as <-. destruct Hreads as (Htok & Hv).
      rewrite Htok. simpl. rewrite Hk, Hv. eexists. split; [reflexivity|].
      apply (onlySlot_restores u s s0 _ KClass Hpop (Hc v)).
      simpl. now rewrite E.
    + destruct (Map s) as [v|] eqn:E; [|discriminate].
      injection Hslot as <-. destruct Hreads as (Htok & Hv).
      rewrite Htok. simpl.
      destruct (has u KClass) eqn:Ec; [exfalso; now apply Hfree|].
      rewrite Hk, Hv. eexists. split; [reflexivity|].
      apply (onlySlot_restores u s s0 _ KMap Hpop (Hm v)).
      simpl. now rewrite E.
    + destruct (Enum s) as [v|] eqn:E; [|discriminate].
      injection Hslot as <-. destruct Hreads as ((tag & Htok) & Hv).
      rewrite Htok. simpl. rewrite Hk, Hv. eexists. split; [reflexivity|].
      apply (onlySlot_restores u s s0 _ KEnum Hpop (He v)).
      simpl. now rewrite E.
  - intros data Hreads Hshadow. rewrite UnmarshalJSON_decoded.
    pose proof (slot_cleared_member u s0 kind Hk) as Hnil.
    destruct kind; simpl in Hshadow; try contradiction;
      simpl in Hslot.
    + destruct (Double s) as [f|]; [|discriminate]. injection Hslot as <-.
      destruct Hshadow as (Hint & v & i & Htok & Hv).
      rewrite Htok. simpl. now rewrite Hint, Hv.
    + destruct (String_ s) as [v|]; [|discriminate]. injection Hslot as <-.
      simpl in Hreads. rewrite Hreads. simpl. rewrite Hshadow.
      now destruct (json_Unmarshal data KEnum).
    + destruct (Map s) as [v|]; [|discriminate]. injection Hslot as <-.
      destruct Hreads as (Htok & _). rewrite Htok. simpl. rewrite Hshadow.
      now destruct (json_Unmarshal data KClass).
Qed.

(** X6.  What [UnmarshalJSON] decoded is what [MarshalJSON] encodes: after
    a call that returned without error, [MarshalJSON] on the struct hands
    [json.Marshal] the one populated member, or null when the token was
    null; its own failure "Union must not be null" does not occur. *)
Theorem UnmarshalJSON_then_MarshalJSON (u : UnionType) (data : string)
    (s s' : Union) :
  UnmarshalJSON u data s = (s', None) ->
  exists g,
    MarshalJSON u s' = json_Marshal g /\
    match populatedSlots u s' with
    | [] => g = GNil /\ dec_Token data = inr TokNil
    | [kind] => slot s' kind = Some g
    | _ => False
    end.
Proof.
  intros H. rewrite UnmarshalJSON_decoded in H.
  destruct (dec_Token data) as [err|tok]; [discriminate|].
  apply decoded_success in H.
  destruct H as [(-> & Hn & ->)|(Hne & kind & Hin & Hk & Hs)].
  - exists GNil. rewrite MarshalJSON_populatedSlots, populatedSlots_cleared.
    rewrite Hn. now split.
  - pose proof (populatedSlots_onlySlot u s s' kind Hin Hk Hs) as Hpop.
    destruct Hs as [Hset _].
    destruct (slot s' kind) as [g|] eqn:E; [|discriminate].
    exists g. rewrite MarshalJSON_populatedSlots, Hpop, E. now split.
Qed.

End Facts.

Example demo_integer_or_string :
  demo_UnmarshalJSON {| members := [KInteger; KString] |} "42" nilUnion =
  (set_Integer (json := demoJson) (Some 42%Z) nilUnion, None).
Proof. reflexivity. Qed.

Example demo_negative_integer :
  demo_UnmarshalJSON {| members := [KInteger; KString] |} "-7" nilUnion =
  (set_Integer (json := demoJson) (Some (-7)%Z) nilUnion, None).
Proof. reflexivity. Qed.

Example demo_string_token :
  demo_Token quoted_red = inr (TokString "red") /\
  demo_UnmarshalJSON {| members := [KInteger; KString] |} quoted_red nilUnion =
  (set_String (json := demoJson) (Some "red") nilUnion, None).
Proof. split; reflexivity. Qed.

(** An object token for a union of a class and a map goes to the class:
    the class field is populated and the map field is nil. *)
Lemma UnmarshalJSON_object_prefers_class_witness :
  demo_Token "{}" = inr (TokDelim "{"%char) /\
  slot (json := demoJson)
       (fst (demo_UnmarshalJSON {| members := [KMap; KClass] |} "{}"
                                nilUnion)) KClass
  = Some (GCompound KClass "{}") /\
  slot (json := demoJson)
       (fst (demo_UnmarshalJSON {| members := [KMap; KClass] |} "{}"
                                nilUnion)) KMap
  = None.
Proof.
  split; [reflexivity|].
  destruct (UnmarshalJSON_object_prefers_class (json := demoJson)
              {| members := [KMap; KClass] |} "{}" nilUnion eq_refl)
    as (_ & H & _).
  destruct (H eq_refl) as (Hrest & _ & Hclass).
  split; [exact Hclass|]. apply Hrest; [reflexivity|discriminate].
Defined.

(** C4, the claim as worded: with no slot populated and the union not
    nullable, the failure's message starts with a capital letter; it is not
    the lower-case text. *)
Lemma marshalUnion_message_is_capitalised :
  demo_marshalUnion None None None None false None false None false None
                    false None false
  = inl "Union must not be null" /\
  demo_marshalUnion None None None None false None false None false None
                    false None false
  <> inl "union must not be null".
Proof. split; [reflexivity|discriminate]. Qed.

(** A successful decode of an integer populates the integer slot only. *)
Lemma UnmarshalJSON_populates_at_most_one_witness :
  demo_UnmarshalJSON nullableUnion "7" nilUnion =
    (set_Integer (json := demoJson) (Some 7%Z) nilUnion, None) /\
  (length (populatedSlots (json := demoJson) nullableUnion
             (set_Integer (json := demoJson) (Some 7%Z) nilUnion)) <= 1)%nat.
Proof.
  split; [reflexivity|].
  apply (UnmarshalJSON_populates_at_most_one (json := demoJson)
           nullableUnion "7" nilUnion).
  reflexivity.
Defined.

(** C9, the claim as worded: a null token for a nullable union returns
    without error and assigns no slot at all, not exactly one. *)
Lemma UnmarshalJSON_null_populates_none :
  demo_UnmarshalJSON nullableUnion "null" nilUnion = (nilUnion, None) /\
  populatedSlots (json := demoJson) nullableUnion nilUnion = [] /\
  length (populatedSlots (json := demoJson) nullableUnion nilUnion) <> 1%nat.
Proof. split; [reflexivity|]. split; [reflexivity|discriminate]. Qed.



(** A bool for a union of an integer and a string is rejected. *)
Lemma UnmarshalJSON_rejects_missing_member_witness :
  demo_UnmarshalJSON {| members := [KInteger; KString] |} "true" nilUnion
  = (nilUnion, Some "Union does not contain bool").
Proof.
  exact (proj1 (UnmarshalJSON_rejects_missing_member (json := demoJson)
                  {| members := [KInteger; KString] |} "true" nilUnion
                  (TokBool true) eq_refl)
               eq_refl).
Defined.

(** A union of a bool and a string holding [true] is written as ["true"]
    and read back. *)
Lemma MarshalJSON_UnmarshalJSON_round_trip_witness :
  MarshalJSON (json := demoJson) {| members := [KBool; KString] |}
              (set_Bool (json := demoJson) (Some true) nilUnion)
  = inr "true" /\
  exists s',
    demo_UnmarshalJSON {| members := [KBool; KString] |} "true" nilUnion
    = (s', None) /\
    sameMembers (json := demoJson) {| members := [KBool; KString] |}
                (set_Bool (json := demoJson) (Some true) nilUnion) s'.
Proof.
  destruct (MarshalJSON_UnmarshalJSON_round_trip (json := demoJson)
              {| members := [KBool; KString] |}
              (set_Bool (json := demoJson) (Some true) nilUnion) nilUnion
              KBool (GBool true) eq_refl eq_refl) as (H1 & H2 & _).
  split; [exact H1|]. apply (H2 "true"); [reflexivity|].
  simpl. intros [].
Defined.

(** The integer just decoded is the value encoded. *)
Lemma UnmarshalJSON_then_MarshalJSON_witness :
  exists g,
    MarshalJSON (json := demoJson) nullableUnion
                (set_Integer (json := demoJson) (Some 7%Z) nilUnion)
    = demo_Marshal g /\
    g = GInt 7%Z.
Proof.
  destruct (UnmarshalJSON_then_MarshalJSON (json := demoJson)
              nullableUnion "7" nilUnion
              (set_Integer (json := demoJson) (Some 7%Z) nilUnion) eq_refl)
    as (g & H1 & H2).
  exists g. split; [exact H1|]. simpl in H2. now injection H2 as <-.
Defined.

End Golang.

(* ================================================================== *)
(** * Php.ts *)
(* ================================================================== *)

Module Php.

Local Open Scope list_scope.
Local Set Warnings "-register-all".

(** String concatenation, written apart from list concatenation. *)
Local Notation "a +++ b" := (String.append a b)
  (at level 60, right associativity).

(** ** The type graph *)

(** Modelled from the spec: the type variants of [../Type] that
    [matchType] of [../TypeUtils] dispatches on (neither file is among the
    sources): "a closed, recursive sum with variants Any, Null, Bool,
    Integer, Double, String, TransformedString{kind}, Array{items},
    Map{values}, Class{fields}, Enum{cases}, Union{members}".  A class is
    referred to by its identity in the graph, so a graph may refer to one
    class from many places and may be cyclic; its fields are read through
    [getProperties] below. *)
Inductive Ty : Type :=
| AnyType | NullType | BoolType | IntegerType | DoubleType | StringType
| ArrayType (items : Ty)
| ClassType (ref : nat)
| MapType (values : Ty)
| EnumType (ref : nat)
| UnionType (ref : nat) (members : list Ty)
| TransformedStringType (kind : string).

Record ClassProperty : Type := { type : Ty; isOptional : bool }.

Definition isNullType (t : Ty) : bool :=
  match t with NullType => true | _ => false end.

(** Modelled from the spec: [removeNullFromUnion(u)] of [../TypeUtils]:
    whether null is a member, and the other members. *)
Definition removeNullFromUnion {A : Type} (members : list (Ty * A))
  : bool * list (Ty * A) :=
  (existsb (fun m => isNullType (fst m)) members,
   filter (fun m => negb (isNullType (fst m))) members).

(** Modelled from the spec: [nullableFromUnion(u)] of [../TypeUtils]: "a
    Union containing Null plus exactly one other member is the canonical
    nullable shape"; the result is that other member, and nothing for any
    other union.  The members come paired with what a caller wants of
    them, so that a function recursive on the nullable member is
    structurally recursive. *)
Definition nullableFromUnionWith {A : Type} (members : list (Ty * A))
  : option (Ty * A) :=
  match removeNullFromUnion members with
  | (true, [nullable]) => Some nullable
  | _ => None
  end.

Definition nullableFromUnion (members : list Ty) : option Ty :=
  option_map fst (nullableFromUnionWith (map (fun m => (m, tt)) members)).

(** ** Generation results

    A renderer function returns what it emitted, throws, or (for the
    recursive emitters, which run on fuel) is still running when the fuel
    is spent. *)
Inductive Emit (A : Type) : Type :=
| Emitted (a : A)
| Thrown (msg : string)
| Running.
Arguments Emitted {A} a.
Arguments Thrown {A} msg.
Arguments Running {A}.

Definition bind {A B : Type} (m : Emit A) (k : A -> Emit B) : Emit B :=
  match m with
  | Emitted a => k a
  | Thrown msg => Thrown msg
  | Running => Running
  end.

Notation "x <- m ;; k" := (bind m (fun x => k))
  (at level 61, m at next level, right associativity).

(** Run [f] on every element in order and concatenate what was emitted. *)
Fixpoint forEach {A B : Type} (f : A -> Emit (list B)) (l : list A)
  : Emit (list B) :=
  match l with
  | [] => Emitted []
  | a :: rest =>
      out <- f a ;;
      outs <- forEach f rest ;;
      Emitted (out ++ outs)
  end.

(** ** Strings *)

Definition toUpperCase (ch : ascii) : ascii :=
  let n := nat_of_ascii ch in
  if (97 <=? n)%nat && (n <=? 122)%nat then ascii_of_nat (n - 32) else ch.

(** [PhpRenderer.capitaliseFirstLetter]. *)
Definition capitaliseFirstLetter (s : string) : string :=
  match s with
  | EmptyString => EmptyString
  | String ch rest => String (toUpperCase ch) rest
  end.

(** ** The emitted PHP

    Every [emitLine] of the hydrator class becomes one node; [render_*]
    gives the text the source passes to [emitLine]. *)

(** Expressions on the right of an emitted line. *)
Inductive Expr : Type :=
| EData (key : string)                 (* $data['key'] *)
| ECoalesce (e : Expr)                 (* e ?? null *)
| EVar (name : string)                 (* $name *)
| EGet (obj getter : string)           (* $obj->getter() *)
| ECall (fn : string) (arg : Expr)     (* $this->fn(arg) *)
| EFormat (e : Expr).   (* e->format(DateTimeInterface::ISO8601) *)

Fixpoint render_expr (e : Expr) : string :=
  match e with
  | EData key => "$data['" +++ key +++ "']"
  | ECoalesce e => render_expr e +++ " ?? null"
  | EVar name => "$" +++ name
  | EGet obj getter => "$" +++ obj +++ "->" +++ getter +++ "()"
  | ECall fn arg => "$this->" +++ fn +++ "(" +++ render_expr arg +++ ")"
  | EFormat e => render_expr e +++ "->format(DateTimeInterface::ISO8601)"
  end.

(** One emitted line of a [hydrate] body, ["$res->name = e; /*tag*/"], or
    of a constructor call in a [dehydrate] body, ["e, /*tag*/"]. *)
Record Line : Type := { target : option string; value : Expr; tag : string }.

Definition render_line (l : Line) : string :=
  match target l with
  | Some name => "$res->" +++ name +++ " = " +++ render_expr (value l) +++ ";"
                 +++ tag l
  | None => render_expr (value l) +++ "," +++ tag l
  end.

(** The loop [emitArrayHydrateDefinition]/[emitArrayDehydrateDefinition]
    emit for an array property:
    ["$name = [];"], ["foreach (source as $value) {"], the body, ["}"]. *)
Record ArrayLoop : Type := {
  loopVar : string;
  loopSource : Expr;
  loopBody : option Expr          (* "$name[] = body;", or no line *)
}.

Definition render_loop (l : ArrayLoop) : list string :=
  ["$" +++ loopVar l +++ " = [];";
   "foreach (" +++ render_expr (loopSource l) +++ " as $value) {"]
  ++ match loopBody l with
     | Some body => ["$" +++ loopVar l +++ "[] = " +++ render_expr body +++ ";"]
     | None => []
     end
  ++ ["}"].

(** Statements of an emitted method body. *)
Inductive Stmt : Type :=
| SInstanceOf (className : string)
    (* if (!($message instanceof C)) { throw new RuntimeException(...); } *)
| SIsset (name : string)
    (* if (!isset($data['name'])) {
         throw new RuntimeException("Property 'name' not set"); } *)
| SLoop (l : ArrayLoop)
| SNewRes                              (* $res = new stdClass(); *)
| SAssign (l : Line)
| SReturnRes                           (* return $res; *)
| SReturnNew (className : string) (args : list Line).
    (* return new C( args ); *)

Definition render_stmt (s : Stmt) : list string :=
  match s with
  | SInstanceOf className =>
      ["if (!($message instanceof " +++ className +++ ")) {";
       "throw new RuntimeException($message->getMessageName(), self::class);";
       "}"]
  | SIsset name =>
      ["if (!isset($data['" +++ name +++ "'])) {";
       "throw new RuntimeException(" +++ String (ascii_of_nat 34) "Property '"
         +++ name +++ "' not set" +++ String (ascii_of_nat 34) ");";
       "}"]
  | SLoop l => render_loop l
  | SNewRes => ["$res = new stdClass();"]
  | SAssign l => [render_line l]
  | SReturnRes => ["return $res;"]
  | SReturnNew className args =>
      ["return new " +++ className +++ "("] ++ map render_line args ++ [");"]
  end.

(** What the emitters put into the body of the hydrator class: a method
    (an [emitBlock] whose line is the signature
    ["public function name(paramDecl$paramVar)returnDecl"]), or a loop
    emitted between two methods. *)
Inductive Item : Type :=
| Method (name paramDecl paramVar returnDecl : string) (body : list Stmt)
| Loose (l : ArrayLoop).

Definition render_item (i : Item) : list string :=
  match i with
  | Method name paramDecl paramVar returnDecl body =>
      ["public function " +++ name +++ "(" +++ paramDecl +++ "$" +++ paramVar
       +++ ")" +++ returnDecl +++ " {"]
      ++ flat_map render_stmt body ++ ["}"]
  | Loose l => render_loop l
  end.

Definition methodName (i : Item) : option string :=
  match i with Method name _ _ _ _ => Some name | Loose _ => None end.

(** ** The renderer *)

(** [mapSortBy] of the [collection-utils] package, taken as a stable sort:
    the entries sorted by [sortKey], entries of equal key staying in their
    order. *)
Fixpoint insertBy {A : Type} (sortKey : A -> nat) (a : string * A)
    (l : list (string * A)) : list (string * A) :=
  match l with
  | [] => [a]
  | b :: rest =>
      if (sortKey (snd a) <=? sortKey (snd b))%nat then a :: b :: rest
      else b :: insertBy sortKey a rest
  end.

Definition mapSortBy {A : Type} (m : list (string * A)) (sortKey : A -> nat)
  : list (string * A) :=
  fold_right (insertBy sortKey) [] m.

Definition quote : string := String (ascii_of_nat 34) EmptyString.

(** [PhpRenderer.getLastItem]: what follows the last backslash. *)
Fixpoint getLastItem (path : string) : string :=
  match path with
  | EmptyString => EmptyString
  | String ch rest =>
      if existsb (Ascii.eqb (ascii_of_nat 92)) (list_ascii_of_string rest)
      then getLastItem rest
      else if Ascii.eqb ch (ascii_of_nat 92) then rest
      else path
  end.

(** The renderer object [this]: the graph and the names as the renderer
    reads them off the objects declared in [../Type], [../Naming] and
    [../ConvenienceRenderer], and the option [modelInterface]. *)
Record Renderer : Type := {
  getProperties : nat -> list (string * ClassProperty);
  getCombinedName : Ty -> string;
  getChildren : Ty -> list Ty;
  getParentTypes : nat -> list Ty;
  isPrimitive : Ty -> bool;
  isNullable : Ty -> bool;
  nameForNamedType : Ty -> string;
  propertyName : nat -> string -> string;
  getterName : nat -> string -> string;
  modelInterfaceOption : string
}.

(** [sortClassProperties]. *)
Definition sortClassProperties (this : Renderer)
    (properties : list (string * ClassProperty))
  : list (string * ClassProperty) :=
  mapSortBy properties (fun p => if isNullable this (type p) then 1 else 0).

(** [forEachClassProperty(c, _, f)]: the arguments [f] is called with, in
    the order of the calls: the property's name, its JSON name and the
    property. *)
Definition forEachClassProperty (this : Renderer) (c : nat)
  : list (string * string * ClassProperty) :=
  map (fun jp => (propertyName this c (fst jp), fst jp, snd jp))
      (sortClassProperties this (getProperties this c)).


(** [phpType(_reference, t, isOptional, prefix, suffix)]. *)
Fixpoint phpType (this : Renderer) (_reference : bool) (t : Ty)
    (isOptional : bool) (prefix suffix : string) : Emit string :=
  let optionalize s :=
    (if isOptional then prefix else "") +++ s
    +++ (if isOptional then suffix else "") in
  match t with
  | AnyType => Emitted "Object"
  | NullType => Emitted "Object"
  | BoolType => Emitted (optionalize "bool")
  | IntegerType => Emitted (optionalize "long")
  | DoubleType => Emitted (optionalize "float")
  | StringType => Emitted (optionalize "string")
  | ArrayType _ => Emitted (optionalize "array")
  | ClassType _ => Emitted (optionalize (nameForNamedType this t))
  | MapType _ => Emitted (optionalize "stdClass")
  | EnumType _ => Emitted (optionalize (nameForNamedType this t))
  | UnionType _ members =>
      match nullableFromUnionWith
              (map (fun m => (m, phpType this true m true prefix suffix))
                   members)
      with
      | Some (_, rendered) => rendered
      | None => Emitted (nameForNamedType this t)
      end
  | TransformedStringType kind =>
      if (kind =? "time")%string then
        Thrown ("transformedStringType.kind === " +++ quote +++ "time"
                +++ quote)
      else if (kind =? "date")%string then
        Thrown ("transformedStringType.kind === " +++ quote +++ "date"
                +++ quote)
      else if (kind =? "date-time")%string then Emitted "DateTime"
      else if (kind =? "uuid")%string then
        Thrown ("transformedStringType.kind === " +++ quote +++ "uuid"
                +++ quote)
      else Emitted "string"
  end.

Definition unknownKind : string :=
  "transformedStringType.kind === " +++ quote +++ "unknown" +++ quote.

(** [phpConvertType(className, t)]. *)
Fixpoint phpConvertType (this : Renderer) (t : Ty) : Emit string :=
  match t with
  | AnyType => Emitted "any"
  | NullType => Emitted "null"
  | BoolType => Emitted "bool"
  | IntegerType => Emitted "int"
  | DoubleType => Emitted "float"
  | StringType => Emitted "string"
  | ArrayType _ => Emitted "array"
  | ClassType _ => Emitted "stdClass"
  | MapType _ => Emitted "stdClass"
  | EnumType _ => Emitted "string"
  | UnionType _ members =>
      match nullableFromUnionWith
              (map (fun m => (m, phpConvertType this m)) members) with
      | Some (_, rendered) => r <- rendered ;; Emitted ("?" +++ r)
      | None => Thrown "union are not supported"
      end
  | TransformedStringType kind =>
      if (kind =? "date-time")%string then Emitted "string"
      else Thrown unknownKind
  end.

(** [phpDocConvertType(className, t)]. *)
Fixpoint phpDocConvertType (this : Renderer) (t : Ty) : Emit string :=
  match t with
  | AnyType => Emitted "any"
  | NullType => Emitted "null"
  | BoolType => Emitted "bool"
  | IntegerType => Emitted "int"
  | DoubleType => Emitted "float"
  | StringType => Emitted "string"
  | ArrayType items => r <- phpDocConvertType this items ;; Emitted (r +++ "[]")
  | ClassType _ => Emitted (getCombinedName this t)
  | MapType _ => Emitted "stdClass"
  | EnumType _ => Emitted (nameForNamedType this t)
  | UnionType _ members =>
      match nullableFromUnionWith
              (map (fun m => (m, phpDocConvertType this m)) members) with
      | Some (_, rendered) => r <- rendered ;; Emitted (r +++ "|null")
      | None => Thrown "union are not supported"
      end
  | TransformedStringType kind =>
      if (kind =? "date-time")%string then Emitted "DateTime"
      else Thrown unknownKind
  end.

(** [phpHydrateType(jsonName, t, lhs, args)]; [lhs] is
    [["$res->", name, " = "]], given by [name]. *)
Fixpoint phpHydrateType (this : Renderer) (jsonName : string) (t : Ty)
    (lhs : option string) (args : Expr) : Emit (list Line) :=
  let line e tg := Emitted [{| target := lhs; value := e; tag := tg |}] in
  match t with
  | AnyType => line args " /*any*/"
  | NullType => line args " /*null*/"
  | BoolType => line args " /*bool*/"
  | IntegerType => line args " /*int*/"
  | DoubleType => line args " /*float*/"
  | StringType => line args " /*string*/"
  | ArrayType _ => line (EVar jsonName) " /*array*/"
  | ClassType _ =>
      line (ECall ("hydrate" +++ capitaliseFirstLetter (getCombinedName this t))
                  args) " /*class*/"
  | MapType _ => line args " /*map*/"
  | EnumType _ => line args " /*enum*/"
  | UnionType _ members =>
      match nullableFromUnionWith
              (map (fun m => (m, phpHydrateType this jsonName m lhs args))
                   members)
      with
      | Some (_, emitted) => emitted
      | None => Emitted []
      end
  | TransformedStringType kind =>
      if (kind =? "date-time")%string then line (EFormat args) ""
      else Thrown unknownKind
  end.

(** [phpDehydrateType(jsonName, t, lhs, args)]; every caller passes the
    empty [lhs]. *)
Fixpoint phpDehydrateType (this : Renderer) (jsonName : string) (t : Ty)
    (lhs : option string) (args : Expr) : Emit (list Line) :=
  let line e tg := Emitted [{| target := lhs; value := e; tag := tg |}] in
  match t with
  | AnyType => line args " /*any*/"
  | NullType => line args " /*null*/"
  | BoolType => line args " /*bool*/"
  | IntegerType => line args " /*int*/"
  | DoubleType => line args " /*float*/"
  | StringType => line args " /*string*/"
  | ArrayType _ => line (EVar jsonName) " /*array*/"
  | ClassType _ =>
      line (ECall ("dehydrate"
                   +++ capitaliseFirstLetter (getCombinedName this t))
                  args) " /*class*/"
  | MapType _ => line args " /*map*/"
  | EnumType _ => line args " /*enum*/"
  | UnionType _ members =>
      match nullableFromUnionWith
              (map (fun m => (m, phpDehydrateType this jsonName m lhs args))
                   members)
      with
      | Some (_, emitted) => emitted
      | None => Emitted []
      end
  | TransformedStringType kind =>
      if (kind =? "date-time")%string then line (EFormat args) ""
      else Thrown unknownKind
  end.

(** [getFirstChildren(t)]. *)
Definition getFirstChildren (this : Renderer) (t : Ty) : option Ty :=
  match getChildren this t with
  | [] => None
  | item :: _ => Some item
  end.

Definition nullableClass (t : Ty) : option nat :=
  match t with
  | UnionType _ members =>
      match nullableFromUnion members with
      | Some (ClassType c) => Some c
      | _ => None
      end
  | _ => None
  end.

(** [getClassTypeFromType(type)]. *)
Definition getClassTypeFromType (this : Renderer) (t : Ty) : option nat :=
  match t with
  | ClassType c => Some c
  | UnionType _ _ => nullableClass t
  | ArrayType _ =>
      match getFirstChildren this t with
      | None => None
      | Some child =>
          match getFirstChildren this child with
          | None => None
          | Some (ClassType c) => Some c
          | Some childChild => nullableClass childChild
          end
      end
  | _ => None
  end.

(** The type an array property is recognised by: the property's type, or
    its nullable member. *)
Definition arrayPropertyType (p : ClassProperty) : Ty :=
  match type p with
  | UnionType _ members =>
      match nullableFromUnion members with
      | Some nullable => nullable
      | None => type p
      end
  | t => t
  end.

Definition isArrayType (t : Ty) : bool :=
  match t with ArrayType _ => true | _ => false end.

(** The body of the [foreach] both array emitters write; [prefix] is
    ["hydrate"] or ["dehydrate"]. *)
Definition arrayLoopBody (this : Renderer) (prefix : string) (t : Ty)
  : option Expr :=
  match getFirstChildren this t with
  | None => None
  | Some child =>
      if isPrimitive this child then Some (EVar "value")
      else match getFirstChildren this child with
           | None => None
           | Some secondChild =>
               Some (ECall (prefix +++ capitaliseFirstLetter
                                         (getCombinedName this secondChild))
                           (EVar "value"))
           end
  end.

(** [emitArrayHydrateDefinition(classType)]. *)
Definition emitArrayHydrateDefinition (this : Renderer) (classType : nat)
  : list ArrayLoop :=
  flat_map
    (fun njp : string * string * ClassProperty =>
       let '(name, jsonName, p) := njp in
       let t := arrayPropertyType p in
       if isArrayType t then
         [{| loopVar := name;
             loopSource := EGet "message" (getterName this classType jsonName);
             loopBody := arrayLoopBody this "hydrate" t |}]
       else [])
    (forEachClassProperty this classType).

(** [emitArrayDehydrateDefinition(classType)]. *)
Definition emitArrayDehydrateDefinition (this : Renderer) (classType : nat)
  : list ArrayLoop :=
  flat_map
    (fun njp : string * string * ClassProperty =>
       let '(name, jsonName, p) := njp in
       let t := arrayPropertyType p in
       if isArrayType t then
         [{| loopVar := name;
             loopSource := EData name;
             loopBody := arrayLoopBody this "dehydrate" t |}]
       else [])
    (forEachClassProperty this classType).

(** The lines [phpHydrateType] emits for the properties of [classType],
    reading them off the variable [obj]. *)
Definition hydrateLines (this : Renderer) (classType : nat) (obj : string)
  : Emit (list Line) :=
  forEach
    (fun njp : string * string * ClassProperty =>
       let '(name, jsonName, p) := njp in
       phpHydrateType this jsonName (type p) (Some name)
                      (EGet obj (getterName this classType jsonName)))
    (forEachClassProperty this classType).

(** [emitNestedHydrateDefinition(_className, type)].  The recursion follows
    the class references of the graph, so it runs on fuel. *)
Fixpoint emitNestedHydrateDefinition (this : Renderer) (fuel : nat)
    (_className : string) (t : Ty) : Emit (list Item) :=
  match fuel with
  | O => Running
  | S fuel =>
      match getClassTypeFromType this t with
      | None => Emitted []
      | Some classType =>
          let loops := emitArrayHydrateDefinition this classType in
          rendered <- phpType this false (ClassType classType) false "?" "" ;;
          let hydrateFuncName :=
            "hydrate" +++ capitaliseFirstLetter
                            (getCombinedName this (ClassType classType)) in
          lines <- hydrateLines this classType "obj" ;;
          nested <- forEach
            (fun njp : string * string * ClassProperty =>
               let '(name, _jsonName, classProperty) := njp in
               emitNestedHydrateDefinition this fuel name (type classProperty))
            (forEachClassProperty this classType) ;;
          Emitted
            (map Loose loops
             ++ [Method hydrateFuncName (rendered +++ " ") "obj" ": stdClass"
                        ([SNewRes] ++ map SAssign lines ++ [SReturnRes])]
             ++ nested)
      end
  end.

(** [emitTopHydrateDefinition(className, classType)]. *)
Definition emitTopHydrateDefinition (this : Renderer) (fuel : nat)
    (className : string) (classType : nat) : Emit (list Item) :=
  let modelInterface :=
    if (modelInterfaceOption this =? "")%string then ""
    else getLastItem (modelInterfaceOption this) +++ " " in
  let loops := emitArrayHydrateDefinition this classType in
  lines <- hydrateLines this classType "message" ;;
  nested <- forEach
    (fun njp : string * string * ClassProperty =>
       let '(name, _jsonName, classProperty) := njp in
       emitNestedHydrateDefinition this fuel name (type classProperty))
    (forEachClassProperty this classType) ;;
  Emitted
    ([Method "hydrate" modelInterface "message" ": stdClass"
             ([SInstanceOf className] ++ map SLoop loops ++ [SNewRes]
              ++ map SAssign lines ++ [SReturnRes])]
     ++ nested).

(** The presence checks of the top-level [dehydrate]. *)
Definition presenceChecks (this : Renderer) (classType : nat) : list Stmt :=
  flat_map
    (fun njp : string * string * ClassProperty =>
       let '(name, _jsonName, property) := njp in
       if negb (isNullable this (type property)) then [SIsset name] else [])
    (forEachClassProperty this classType).

(** The constructor arguments of the top-level [dehydrate]. *)
Definition topDehydrateLines (this : Renderer) (classType : nat)
  : Emit (list Line) :=
  forEach
    (fun njp : string * string * ClassProperty =>
       let '(_name, jsonName, property) := njp in
       let data := EData jsonName in
       phpDehydrateType this jsonName (type property) None
         (if isNullable this (type property) then ECoalesce data else data))
    (forEachClassProperty this classType).

(** The constructor arguments of a nested [dehydrate...]. *)
Definition nestedDehydrateLines (this : Renderer) (classType : nat)
  : Emit (list Line) :=
  forEach
    (fun njp : string * string * ClassProperty =>
       let '(_name, jsonName, p) := njp in
       phpDehydrateType this jsonName (type p) None (EData jsonName))
    (forEachClassProperty this classType).

(** [emitNestedDehydrateDefinition(_className, type)]. *)
Fixpoint emitNestedDehydrateDefinition (this : Renderer) (fuel : nat)
    (_className : string) (t : Ty) : Emit (list Item) :=
  match fuel with
  | O => Running
  | S fuel =>
      match getClassTypeFromType this t with
      | None => Emitted []
      | Some classType =>
          rendered <- phpType this false (ClassType classType) false "?" "" ;;
          let dehydrateFuncName :=
            "dehydrate" +++ capitaliseFirstLetter
                              (getCombinedName this (ClassType classType)) in
          lines <- nestedDehydrateLines this classType ;;
          nested <- forEach
            (fun njp : string * string * ClassProperty =>
               let '(name, _jsonName, classProperty) := njp in
               emitNestedDehydrateDefinition this fuel name
                                             (type classProperty))
            (forEachClassProperty this classType) ;;
          Emitted
            ([Method dehydrateFuncName "array " "data" (": " +++ rendered)
                     [SReturnNew rendered lines]]
             ++ nested)
      end
  end.

(** [emitTopDehydrateDefinition(className, classType)]. *)
Definition emitTopDehydrateDefinition (this : Renderer) (fuel : nat)
    (className : string) (classType : nat) : Emit (list Item) :=
  let modelInterface :=
    if (modelInterfaceOption this =? "")%string then ""
    else ": " +++ getLastItem (modelInterfaceOption this) in
  let checks := presenceChecks this classType in
  let loops := emitArrayDehydrateDefinition this classType in
  lines <- topDehydrateLines this classType ;;
  nested <- forEach
    (fun njp : string * string * ClassProperty =>
       let '(name, _jsonName, classProperty) := njp in
       emitNestedDehydrateDefinition this fuel name (type classProperty))
    (forEachClassProperty this classType) ;;
  Emitted
    ([Method "dehydrate" "array " "data" modelInterface
             (checks ++ map SLoop loops ++ [SReturnNew className lines])]
     ++ nested).

(** [emitTopClassHydratorDehydrator(classType, className)]: the body of the
    hydrator class. *)
Definition emitTopClassHydratorDehydrator (this : Renderer) (fuel : nat)
    (classType : nat) (className : string) : Emit (list Item) :=
  hydrate <- emitTopHydrateDefinition this fuel className classType ;;
  dehydrate <- emitTopDehydrateDefinition this fuel className classType ;;
  Emitted (hydrate ++ dehydrate).

(** [isArray(c)]. *)
Definition isArray (this : Renderer) (c : nat) : bool :=
  existsb isArrayType (getParentTypes this c).

(** What [emitClassDefinition(c, className)] declares, as far as the
    hydrator uses it: the constructor's parameters (declared type and
    name) in order, each stored to the property of the same name, and the
    property each getter returns. *)
Record ClassDecl : Type := {
  declName : string;
  constructorParams : list (string * string);
  getters : list (string * string)
}.

Definition emitClassDefinition (this : Renderer) (c : nat) (className : string)
  : Emit (option ClassDecl) :=
  if isArray this c then Emitted None
  else
    params <- forEach
      (fun njp : string * string * ClassProperty =>
         let '(name, _jsonName, p) := njp in
         rendered <- phpType this false (type p) false "?" "" ;;
         Emitted [(rendered, name)])
      (forEachClassProperty this c) ;;
    Emitted (Some {| declName := className;
                     constructorParams := params;
                     getters :=
                       map (fun njp : string * string * ClassProperty =>
                              let '(name, jsonName, _) := njp in
                              (getterName this c jsonName, name))
                           (forEachClassProperty this c) |}).

(** ** Running the emitted PHP

    An evaluator for the constructs the emitters produce, and no others.
    Notices and warnings (an undefined index or variable, a [foreach] over
    a non-array) are not modelled: the expression yields null, the loop
    does not run. *)

(** PHP values: the generic ones [json_decode($f, true)] produces, and the
    typed ones.  A [stdClass] is an object of that class name. *)
Inductive Value : Type :=
| VNull
| VBool (b : bool)
| VInt (i : Z)
| VString (s : string)
| VArray (entries : list (string * Value))
| VObject (className : string) (properties : list (string * Value))
| VDateTime (iso8601 : string).

Inductive Exception : Type :=
| RuntimeException (message : string)
| TypeError
| ArgumentCountError
| Error (message : string).

Inductive Outcome (A : Type) : Type :=
| Ok (a : A)
| Throw (e : Exception)
| OutOfFuel.
Arguments Ok {A} a.
Arguments Throw {A} e.
Arguments OutOfFuel {A}.

Definition andThen {A B : Type} (m : Outcome A) (k : A -> Outcome B)
  : Outcome B :=
  match m with
  | Ok a => k a
  | Throw e => Throw e
  | OutOfFuel => OutOfFuel
  end.

Notation "x <~ m ;; k" := (andThen m (fun x => k))
  (at level 61, m at next level, right associativity).

Fixpoint mapM {A B : Type} (f : A -> Outcome B) (l : list A)
  : Outcome (list B) :=
  match l with
  | [] => Ok []
  | a :: rest => b <~ f a ;; bs <~ mapM f rest ;; Ok (b :: bs)
  end.

Definition lookup {A : Type} (key : string) (entries : list (string * A))
  : option A :=
  option_map snd (find (fun kv => (fst kv =? key)%string) entries).

(** [$array[key]], null when there is no such key. *)
Definition index (key : string) (entries : list (string * Value)) : Value :=
  match lookup key entries with Some v => v | None => VNull end.

(** [isset(...)]: the key exists and its value is not null. *)
Definition isset (v : option Value) : bool :=
  match v with
  | None | Some VNull => false
  | Some _ => true
  end.

(** [$object->name = v]. *)
Fixpoint setProperty (name : string) (v : Value)
    (properties : list (string * Value)) : list (string * Value) :=
  match properties with
  | [] => [(name, v)]
  | (n, w) :: rest =>
      if (n =? name)%string then (n, v) :: rest
      else (n, w) :: setProperty name v rest
  end.

(** A PHP list: the elements under the keys [0, 1, ...]. *)
Fixpoint listKeys {A : Type} (l : list A) (k : nat) : list (string * A) :=
  match l with
  | [] => []
  | a :: rest =>
      (NilEmpty.string_of_uint (Nat.to_uint k), a) :: listKeys rest (S k)
  end.

Definition typeName (v : Value) : string :=
  match v with
  | VNull => "null"
  | VBool _ => "bool"
  | VInt _ => "int"
  | VString _ => "string"
  | VArray _ => "array"
  | VObject _ _ => "object"
  | VDateTime _ => "object"
  end.

(** PHP compares the names of methods without regard to case. *)
Definition toLowerCase (ch : ascii) : ascii :=
  let n := nat_of_ascii ch in
  if (65 <=? n)%nat && (n <=? 90)%nat then ascii_of_nat (n + 32) else ch.

Fixpoint lowerCase (s : string) : string :=
  match s with
  | EmptyString => EmptyString
  | String ch rest => String (toLowerCase ch) (lowerCase rest)
  end.

(** The first name that occurs again later in the list, in whatever
    case. *)
Fixpoint firstDuplicate (l : list string) : option string :=
  match l with
  | [] => None
  | n :: rest =>
      if existsb (fun m => (lowerCase m =? lowerCase n)%string) rest
      then Some n
      else firstDuplicate rest
  end.

(** A declaration without the space that separates it from the variable. *)
Fixpoint declaredType (paramDecl : string) : string :=
  match paramDecl with
  | EmptyString => EmptyString
  | String ch EmptyString =>
      if Ascii.eqb ch " " then EmptyString else paramDecl
  | String ch rest => String ch (declaredType rest)
  end.

Section Semantics.

(** PHP's check of an argument against a declared parameter type (the
    files are under [strict_types=1]). *)
Variable accepts : string -> Value -> bool.
(** The classes [emitClassDefinition] declared, and the body of the
    hydrator class. *)
Variable decls : list ClassDecl.
Variable items : list Item.

Definition findDecl (className : string) : option ClassDecl :=
  find (fun d => (declName d =? className)%string) decls.

Definition findMethod (name : string)
  : option (string * string * list Stmt) :=
  match find (fun i => match methodName i with
                       | Some n => (n =? name)%string
                       | None => false
                       end) items with
  | Some (Method _ paramDecl paramVar _ body) =>
      Some (paramDecl, paramVar, body)
  | _ => None
  end.

(** A method the class declares twice, if there is one.  PHP does not load
    such a class ("Cannot redeclare"), so that no method of it runs. *)
Definition redeclared : option string :=
  firstDuplicate
    (flat_map (fun i => match methodName i with
                        | Some n => [n]
                        | None => []
                        end) items).

(** [new C(values)]: the constructor stores each argument to the property
    named like its parameter. *)
Definition construct (className : string) (values : list Value)
  : Outcome Value :=
  match findDecl className with
  | None => Throw (Error ("Class '" +++ className +++ "' not found"))
  | Some d =>
      let params := constructorParams d in
      if (length values <? length params)%nat then Throw ArgumentCountError
      else if forallb (fun pv => accepts (fst (fst pv)) (snd pv))
                      (combine params values)
      then Ok (VObject className
                       (combine (map snd params) values))
      else Throw TypeError
  end.

(** [$obj->getter()]. *)
Definition callGetter (obj : Value) (getter : string) : Outcome Value :=
  match obj with
  | VObject className properties =>
      match findDecl className with
      | None => Throw (Error "Call to undefined method")
      | Some d =>
          match lookup getter (getters d) with
          | None => Throw (Error "Call to undefined method")
          | Some name => Ok (index name properties)
          end
      end
  | _ => Throw (Error ("Call to a member function " +++ getter +++ "() on "
                       +++ typeName obj))
  end.

Definition local (name : string) (locals : list (string * Value)) : Value :=
  index name locals.

(** [$data['key']]. *)
Definition dataAt (key : string) (locals : list (string * Value)) : Value :=
  match local "data" locals with
  | VArray entries => index key entries
  | _ => VNull
  end.

Definition format (v : Value) : Outcome Value :=
  match v with
  | VDateTime iso8601 => Ok (VString iso8601)
  | _ => Throw (Error ("Call to a member function format() on "
                       +++ typeName v))
  end.

(** Expressions; [call] runs a method of the hydrator class.  In
    ["e ?? null->format(...)"] the call binds tighter than [??]: it is
    [e ?? (null->format(...))]. *)
Fixpoint evalExpr (call : string -> Value -> Outcome Value)
    (locals : list (string * Value)) (e : Expr) : Outcome Value :=
  match e with
  | EData key => Ok (dataAt key locals)
  | ECoalesce e => evalExpr call locals e
  | EVar name => Ok (local name locals)
  | EGet obj getter => callGetter (local obj locals) getter
  | ECall fn arg => v <~ evalExpr call locals arg ;; call fn v
  | EFormat (ECoalesce e) =>
      v <~ evalExpr call locals e ;;
      match v with
      | VNull => format VNull
      | _ => Ok v
      end
  | EFormat e => v <~ evalExpr call locals e ;; format v
  end.

Definition evalLoop (call : string -> Value -> Outcome Value)
    (locals : list (string * Value)) (l : ArrayLoop)
  : Outcome (list (string * Value)) :=
  source <~ evalExpr call locals (loopSource l) ;;
  let elements :=
    match source with
    | VArray entries => map snd entries
    | _ => []
    end in
  collected <~
    match loopBody l with
    | None => Ok []
    | Some body =>
        mapM (fun element =>
                evalExpr call (setProperty "value" element locals) body)
             elements
    end ;;
  Ok (setProperty (loopVar l) (VArray (listKeys collected 0)) locals).

(** A method body; the result is what the method returns. *)
Fixpoint exec (call : string -> Value -> Outcome Value)
    (locals : list (string * Value)) (body : list Stmt) : Outcome Value :=
  match body with
  | [] => Ok VNull
  | SInstanceOf className :: rest =>
      match local "message" locals with
      | VObject c _ =>
          if (c =? className)%string then exec call locals rest
          else Throw (Error "not an instance of the class")
      | _ => Throw (Error "not an instance of the class")
      end
  | SIsset name :: rest =>
      match local "data" locals with
      | VArray entries =>
          if isset (lookup name entries) then exec call locals rest
          else Throw (RuntimeException ("Property '" +++ name
                                        +++ "' not set"))
      | _ => Throw (RuntimeException ("Property '" +++ name +++ "' not set"))
      end
  | SLoop l :: rest =>
      locals <~ evalLoop call locals l ;; exec call locals rest
  | SNewRes :: rest =>
      exec call (setProperty "res" (VObject "stdClass" []) locals) rest
  | SAssign l :: rest =>
      v <~ evalExpr call locals (value l) ;;
      match target l, local "res" locals with
      | Some name, VObject c properties =>
          exec call
               (setProperty "res" (VObject c (setProperty name v properties))
                            locals)
               rest
      | _, _ => exec call locals rest
      end
  | SReturnRes :: _ => Ok (local "res" locals)
  | SReturnNew className args :: _ =>
      values <~ mapM (fun a => evalExpr call locals (value a)) args ;;
      construct className values
  end.

(** [$this->name(argument)]. *)
Fixpoint callMethod (fuel : nat) (name : string) (argument : Value)
  : Outcome Value :=
  match fuel with
  | O => OutOfFuel
  | S fuel =>
      match redeclared with
      | Some n => Throw (Error ("Cannot redeclare " +++ n +++ "()"))
      | None =>
          match findMethod name with
          | None =>
              Throw (Error ("Call to undefined method " +++ name +++ "()"))
          | Some (paramDecl, paramVar, body) =>
              if (paramDecl =? "")%string
                 || accepts (declaredType paramDecl) argument
              then exec (callMethod fuel) [(paramVar, argument)] body
              else Throw TypeError
          end
      end
  end.

End Semantics.

(** ** Example graphs

    The methods of [../Type] on the variants of [Ty], a naming that leaves
    every JSON name as it is, and a class table given by a list: class [c]
    is the [c]-th entry, a name and the properties in declaration order. *)

Definition ClassTable : Type := list (string * list (string * ClassProperty)).

Definition tableProperties (g : ClassTable) (c : nat)
  : list (string * ClassProperty) :=
  snd (nth c g ("", [])).

Definition tableName (g : ClassTable) (t : Ty) : string :=
  match t with
  | ClassType c => fst (nth c g ("", []))
  | _ => ""
  end.

Definition tableChildren (g : ClassTable) (t : Ty) : list Ty :=
  match t with
  | ArrayType items => [items]
  | MapType values => [values]
  | UnionType _ members => members
  | ClassType c => map (fun jp => type (snd jp)) (tableProperties g c)
  | _ => []
  end.

Definition primitive (t : Ty) : bool :=
  match t with
  | AnyType | NullType | BoolType | IntegerType | DoubleType | StringType
  | TransformedStringType _ => true
  | _ => false
  end.

Definition nullable (t : Ty) : bool :=
  match t with
  | AnyType | NullType => true
  | UnionType _ members => existsb isNullType members
  | _ => false
  end.

Definition sameName (c : nat) (jsonName : string) : string := jsonName.

Definition getName (c : nat) (jsonName : string) : string :=
  "get" +++ capitaliseFirstLetter jsonName.

(** A permissive reading of PHP's parameter check: null only where the
    declaration starts with [?], everything else accepted. *)
Definition lenient (declared : string) (v : Value) : bool :=
  match v, declared with
  | VNull, String ch _ => Ascii.eqb ch "?"
  | VNull, EmptyString => true
  | _, _ => true
  end.

Definition optional (t : Ty) : Ty := UnionType 0 [NullType; t].
Definition required (t : Ty) : ClassProperty :=
  {| type := t; isOptional := false |}.

(** The renderer for the graph [g] under the naming [naming]. *)
Definition rendererOf (g : ClassTable) (naming : nat -> string -> string)
  : Renderer :=
  {| getProperties := tableProperties g;
     getCombinedName := tableName g;
     getChildren := tableChildren g;
     getParentTypes := fun _ => [];
     isPrimitive := primitive;
     isNullable := nullable;
     nameForNamedType := tableName g;
     propertyName := naming;
     getterName := getName;
     modelInterfaceOption := "" |}.

(** The hydrator class of the [c]-th class of [g], and the classes. *)
Definition hydratorOf (g : ClassTable) (naming : nat -> string -> string)
    (fuel c : nat) : Emit (list Item) :=
  let this := rendererOf g naming in
  emitTopClassHydratorDehydrator this fuel c
    (nameForNamedType this (ClassType c)).

Definition declOf (g : ClassTable) (naming : nat -> string -> string)
    (c : nat) : Emit (option ClassDecl) :=
  let this := rendererOf g naming in
  emitClassDefinition this c (nameForNamedType this (ClassType c)).

Definition declsOf (g : ClassTable) (naming : nat -> string -> string)
  : list ClassDecl :=
  flat_map (fun c => match declOf g naming c with
                     | Emitted (Some d) => [d]
                     | _ => []
                     end)
           (seq 0 (length g)).

(** [$h->dehydrate($data)] and [$h->hydrate($message)] on the generated
    code of the [c]-th class. *)
Definition runOn (g : ClassTable) (naming : nat -> string -> string)
    (c : nat) (method : string) (argument : Value) : Outcome Value :=
  match hydratorOf g naming 16 c with
  | Emitted items =>
      callMethod lenient (declsOf g naming) items 16 method argument
  | _ => Throw (Error "no hydrator class")
  end.

(** [Person{name: String, address: optional Address{city: String}}]. *)
Definition personGraph : ClassTable :=
  [("Person", [("name", required StringType);
               ("address", required (optional (ClassType 1)))]);
   ("Address", [("city", required StringType)])].

(** [Top{a: Leaf, b: Leaf}] and [Leaf{x: String}]: one class, referred to
    by two fields. *)
Definition twiceGraph : ClassTable :=
  [("Top", [("a", required (ClassType 1)); ("b", required (ClassType 1))]);
   ("Leaf", [("x", required StringType)])].


Definition listGraph : ClassTable :=
  [("List", [("tail", required (optional (ClassType 0)))])].

(** [Entry{id: uuid, next: Entry}]: a cycle behind a property the
    generators have no conversion for. *)
Definition entryGraph : ClassTable :=
  [("Entry", [("id", required (TransformedStringType "uuid"));
              ("next", required (ClassType 0))])].

(** [Event{at: date-time}]. *)
Definition eventGraph : ClassTable :=
  [("Event", [("at", required (TransformedStringType "date-time"))])].

(** [Pair{note: optional String, id: String}]: a nullable field declared
    before a required one. *)
Definition pairGraph : ClassTable :=
  [("Pair", [("note", required (optional StringType));
             ("id", required StringType)])].

(** [Order{customer: Customer{city: String}}], both fields required. *)
Definition orderGraph : ClassTable :=
  [("Order", [("customer", required (ClassType 1))]);
   ("Customer", [("city", required StringType)])].

(** [Basket{customer: Customer{city: String, tags: array of String,
    ref: Integer or String}}]. *)
Definition basketGraph : ClassTable :=
  [("Basket", [("customer", required (ClassType 1))]);
   ("Customer", [("city", required StringType);
                 ("tags", required (ArrayType StringType));
                 ("ref", required (UnionType 2 [IntegerType; StringType]))])].

(** A naming that turns the JSON name [first_name] into [firstName] and
    leaves the others, and [User{first_name: String}]. *)
Definition camelName (c : nat) (jsonName : string) : string :=
  if (jsonName =? "first_name")%string then "firstName" else jsonName.

Definition userGraph : ClassTable :=
  [("User", [("first_name", required StringType)])].

(** [Member{first_name: optional String}], to be named by [camelName]. *)
Definition memberGraph : ClassTable :=
  [("Member", [("first_name", required (optional StringType))])].

(** [Box{v: Integer or String}]: a property whose type is a union of two
    members. *)
Definition boxGraph : ClassTable :=
  [("Box", [("v", required (UnionType 1 [IntegerType; StringType]))])].


(** What [json_encode] makes of a value and [json_decode(_, true)] reads
    back: every object an array of its properties. *)
Fixpoint toGeneric (v : Value) : Value :=
  match v with
  | VArray entries =>
      VArray (map (fun kv => match kv with (k, w) => (k, toGeneric w) end)
                  entries)
  | VObject _ properties =>
      VArray (map (fun kv => match kv with (k, w) => (k, toGeneric w) end)
                  properties)
  | _ => v
  end.

(** [$h->hydrate($h->dehydrate($data))], as a generic value. *)
Definition roundTrip (g : ClassTable) (naming : nat -> string -> string)
    (c : nat) (data : Value) : Outcome Value :=
  typed <~ runOn g naming c "dehydrate" data ;;
  hydrated <~ runOn g naming c "hydrate" typed ;;
  Ok (toGeneric hydrated).

(** ** Vocabulary of the statements *)



(** The number of methods called [name] among the emitted items. *)
Definition isMethod (name : string) (i : Item) : bool :=
  match methodName i with
  | Some n => (n =? name)%string
  | None => false
  end.




Definition dehydrateName (this : Renderer) (d : nat) : string :=
  "dehydrate" +++ capitaliseFirstLetter (getCombinedName this (ClassType d)).



(** The type a dehydrator converts a property by: the type itself, or the
    member a nullable union stands for; none for a union that is not of
    the nullable shape. *)
Fixpoint converted (t : Ty) : option Ty :=
  match t with
  | UnionType _ members =>
      match nullableFromUnionWith (map (fun m => (m, converted m)) members)
      with
      | Some (_, b) => b
      | None => None
      end
  | _ => Some t
  end.

Definition hasArgument (t : Ty) : bool :=
  match converted t with Some _ => true | None => false end.

(** The constructor argument for the property [jsonName] converted by the
    type [b], where the fragment [args] reads the entry: the entry as it
    is, through the dehydrator of its class, or through [format]; for an
    array, the variable of the property's name. *)
Definition argumentFor (this : Renderer) (jsonName : string) (args : Expr)
    (b : Ty) : Expr :=
  match b with
  | ArrayType _ => EVar jsonName
  | ClassType d => ECall (dehydrateName this d) args
  | TransformedStringType _ => EFormat args
  | _ => args
  end.

(** The lines are the arguments for the properties that have one, in the
    order of the properties; [reading] gives the fragment that reads the
    entry of a property. *)
Definition argumentsOf (this : Renderer) (c : nat)
    (reading : string -> ClassProperty -> Expr) (lines : list Line) : Prop :=
  Forall2
    (fun (njp : string * string * ClassProperty) (l : Line) =>
       let '(_, jsonName, p) := njp in
       exists b,
         converted (type p) = Some b /\
         target l = None /\
         value l = argumentFor this jsonName (reading jsonName p) b)
    (filter (fun njp : string * string * ClassProperty =>
               hasArgument (type (snd njp)))
            (forEachClassProperty this c))
    lines.

(** An expression contains ["?? null"]. *)
Fixpoint coalesces (e : Expr) : bool :=
  match e with
  | ECoalesce _ => true
  | ECall _ arg => coalesces arg
  | EFormat e => coalesces e
  | _ => false
  end.

Definition isIsset (s : Stmt) : bool :=
  match s with SIsset _ => true | _ => false end.

(** The statements before the [return] of a dehydrator. *)
Definition isCheckOrLoop (s : Stmt) : bool :=
  match s with
  | SIsset _ | SLoop _ => true
  | _ => false
  end.

(** The order in which a typed value presents the fields of class [c]:
    the properties whose type is not nullable, then the nullable ones, each
    group as declared, under their resolved names. *)
Definition fieldOrder (this : Renderer) (c : nat) : list string :=
  map (fun jp => propertyName this c (fst jp))
      (filter (fun jp => negb (isNullable this (type (snd jp))))
              (getProperties this c)
       ++ filter (fun jp => isNullable this (type (snd jp)))
                 (getProperties this c)).


(** The types both converters pass on as they are, and their nullable
    forms. *)
Definition isCopied (t : Ty) : bool :=
  match t with
  | AnyType | NullType | BoolType | IntegerType | DoubleType | StringType
  | MapType _ | EnumType _ => true
  | _ => false
  end.

Definition copies (t : Ty) : bool :=
  match t with
  | UnionType _ members =>
      match nullableFromUnion members with
      | Some nullable => isCopied nullable
      | None => false
      end
  | _ => isCopied t
  end.

(** The resolved names the presence checks of [dehydrate] look up, in the
    order of the checks, and the first of them that is not set. *)
Definition checkedNames (this : Renderer) (c : nat) : list string :=
  map (fun jp => propertyName this c (fst jp))
      (filter (fun jp => negb (isNullable this (type (snd jp))))
              (sortClassProperties this (getProperties this c))).

Definition firstMissing (this : Renderer) (c : nat)
    (entries : list (string * Value)) : option string :=
  find (fun name => negb (isset (lookup name entries))) (checkedNames this c).

(** What [dehydrate] reads off [entries] for the properties of [c], in the
    order of the constructor's parameters: the entry under the JSON name. *)
Definition readValues (this : Renderer) (c : nat)
    (entries : list (string * Value)) : list Value :=
  map (fun jp => index (fst jp) entries)
      (sortClassProperties this (getProperties this c)).

(** What [hydrate] writes for the properties of [c]: under the resolved
    name, the property of that name. *)
Definition writtenProperties (this : Renderer) (c : nat)
    (properties : list (string * Value)) : list (string * Value) :=
  map (fun jp => (propertyName this c (fst jp),
                  index (propertyName this c (fst jp)) properties))
      (sortClassProperties this (getProperties this c)).

(** [path] contains a backslash. *)
Definition hasBackslash (path : string) : bool :=
  existsb (Ascii.eqb (ascii_of_nat 92)) (list_ascii_of_string path).

(** ** Facts about the helpers *)

(** Induction on [Ty] with the hypothesis for every member of a union. *)
Lemma Ty_members_ind (P : Ty -> Prop) :
  P AnyType -> P NullType -> P BoolType -> P IntegerType -> P DoubleType ->
  P StringType ->
  (forall items, P items -> P (ArrayType items)) ->
  (forall ref, P (ClassType ref)) ->
  (forall values, P values -> P (MapType values)) ->
  (forall ref, P (EnumType ref)) ->
  (forall ref members, Forall P members -> P (UnionType ref members)) ->
  (forall kind, P (TransformedStringType kind)) ->
  forall t, P t.
Proof.
  intros HA HN HB HI HD HS HArr HC HM HE HU HT.
  fix IH 1. intros [| | | | | |items|ref|values|ref|ref members|kind];
    try (clear IH; auto; fail).
  - apply HArr, IH.
  - apply HM, IH.
  - apply HU. induction members as [|m members IHm]; constructor.
    + apply IH.
    + exact IHm.
Qed.

Lemma filter_map_fst {A : Type} (f : Ty -> A) (keep : Ty -> bool)
    (members : list Ty) :
  filter (fun m : Ty * A => keep (fst m)) (map (fun m => (m, f m)) members) =
  map (fun m => (m, f m)) (filter keep members).
Proof.
  induction members as [|m members IH]; simpl; [reflexivity|].
  destruct (keep m); simpl; now rewrite IH.
Qed.

Lemma existsb_map_fst {A : Type} (f : Ty -> A) (keep : Ty -> bool)
    (members : list Ty) :
  existsb (fun m : Ty * A => keep (fst m)) (map (fun m => (m, f m)) members) =
  existsb keep members.
Proof.
  induction members as [|m members IH]; simpl; [reflexivity|].
  now rewrite IH.
Qed.

(** The recursive call picked for the nullable member is the call on the
    nullable member. *)
Lemma nullableFromUnionWith_map {A : Type} (f : Ty -> A) (members : list Ty) :
  nullableFromUnionWith (map (fun m => (m, f m)) members) =
  option_map (fun m => (m, f m)) (nullableFromUnion members).
Proof.
  unfold nullableFromUnion, nullableFromUnionWith, removeNullFromUnion.
  rewrite !existsb_map_fst.
  rewrite (filter_map_fst f (fun m => negb (isNullType m))).
  rewrite (filter_map_fst (fun _ => tt) (fun m => negb (isNullType m))).
  destruct (existsb isNullType members); [|reflexivity].
  destruct (filter (fun m => negb (isNullType m)) members) as [|n [|n' rest]];
    reflexivity.
Qed.

Lemma nullableFromUnion_In (members : list Ty) (n : Ty) :
  nullableFromUnion members = Some n -> In n members.
Proof.
  unfold nullableFromUnion, nullableFromUnionWith, removeNullFromUnion.
  rewrite existsb_map_fst.
  rewrite (filter_map_fst (fun _ => tt) (fun m => negb (isNullType m))).
  destruct (existsb isNullType members); [|discriminate].
  destruct (filter (fun m => negb (isNullType m)) members)
    as [|n0 [|n' rest]] eqn:E; try discriminate.
  simpl. intros H. inversion H; subst n0.
  assert (In n (filter (fun m => negb (isNullType m)) members)) as Hin
    by (rewrite E; now left).
  now apply filter_In in Hin.
Qed.


Lemma forEach_not_Running {A B : Type} (f : A -> Emit (list B)) (l : list A) :
  (forall a, In a l -> f a <> Running) -> forEach f l <> Running.
Proof.
  induction l as [|a l IH]; simpl; intros H; [discriminate|].
  destruct (f a) as [o| |] eqn:Ea; simpl.
  - destruct (forEach f l) as [os| |] eqn:El; simpl; try discriminate.
    exfalso. apply IH; [|reflexivity]. intros b Hb. apply H. now right.
  - discriminate.
  - exfalso. apply (H a); [now left|assumption].
Qed.



(** [mapSortBy] permutes its argument and puts the keys in order. *)
Lemma insertBy_Permutation {A : Type} (sortKey : A -> nat) (a : string * A)
    (l : list (string * A)) :
  Permutation (insertBy sortKey a l) (a :: l).
Proof.
  induction l as [|b l IH]; simpl; [reflexivity|].
  destruct (sortKey (snd a) <=? sortKey (snd b))%nat; [reflexivity|].
  rewrite IH. apply perm_swap.
Qed.

Lemma mapSortBy_Permutation {A : Type} (m : list (string * A))
    (sortKey : A -> nat) :
  Permutation (mapSortBy m sortKey) m.
Proof.
  unfold mapSortBy. induction m as [|a m IH]; simpl; [reflexivity|].
  rewrite insertBy_Permutation. now constructor.
Qed.

(** With the two keys of [sortClassProperties], sorting puts the entries of
    key 0 before those of key 1 and keeps each group in its order. *)
Lemma insertBy_early {A : Type} (late : A -> bool) (a : string * A)
    (l : list (string * A)) :
  late (snd a) = false ->
  insertBy (fun a => if late a then 1 else 0) a l = a :: l.
Proof. intros Ha. destruct l as [|b l]; simpl; [|rewrite Ha]; reflexivity. Qed.

Lemma insertBy_late {A : Type} (late : A -> bool) (a : string * A)
    (early lates : list (string * A)) :
  late (snd a) = true ->
  Forall (fun e => late (snd e) = false) early ->
  Forall (fun e => late (snd e) = true) lates ->
  insertBy (fun a => if late a then 1 else 0) a (early ++ lates) =
  early ++ a :: lates.
Proof.
  intros Ha Hearly Hlates. induction Hearly as [|b early Hb _ IH]; simpl.
  - destruct Hlates as [|b lates Hb _]; simpl; [reflexivity|].
    now rewrite Ha, Hb.
  - now rewrite Ha, Hb, IH.
Qed.

Lemma mapSortBy_two_keys {A : Type} (m : list (string * A))
    (late : A -> bool) :
  mapSortBy m (fun a => if late a then 1 else 0) =
  filter (fun e => negb (late (snd e))) m ++ filter (fun e => late (snd e)) m.
Proof.
  unfold mapSortBy. induction m as [|a m IH]; simpl; [reflexivity|].
  rewrite IH. clear IH.
  destruct (late (snd a)) eqn:Ea; simpl.
  - apply insertBy_late; [assumption| |]; apply Forall_forall; intros e He;
      apply filter_In in He; destruct He as [_ He];
      [now apply negb_true_iff in He|assumption].
  - now apply insertBy_early.
Qed.

(** ** Facts about the renderer *)

Lemma phpHydrateType_union (this : Renderer) (jsonName : string) (ref : nat)
    (members : list Ty) (lhs : option string) (args : Expr) :
  phpHydrateType this jsonName (UnionType ref members) lhs args =
  match nullableFromUnion members with
  | Some nullable => phpHydrateType this jsonName nullable lhs args
  | None => Emitted []
  end.
Proof.
  simpl. rewrite nullableFromUnionWith_map.
  now destruct (nullableFromUnion members).
Qed.

Lemma phpDehydrateType_union (this : Renderer) (jsonName : string) (ref : nat)
    (members : list Ty) (lhs : option string) (args : Expr) :
  phpDehydrateType this jsonName (UnionType ref members) lhs args =
  match nullableFromUnion members with
  | Some nullable => phpDehydrateType this jsonName nullable lhs args
  | None => Emitted []
  end.
Proof.
  simpl. rewrite nullableFromUnionWith_map.
  now destruct (nullableFromUnion members).
Qed.



Lemma phpDehydrateType_returns (this : Renderer) (jsonName : string)
    (lhs : option string) (args : Expr) (t : Ty) :
  phpDehydrateType this jsonName t lhs args <> Running.
Proof.
  induction t as [| | | | | |items _|ref|values _|ref|ref members IH|kind]
    using Ty_members_ind; try (simpl; discriminate).
  - rewrite phpDehydrateType_union.
    destruct (nullableFromUnion members) as [n|] eqn:E; [|discriminate].
    apply nullableFromUnion_In in E. rewrite Forall_forall in IH. now apply IH.
  - simpl. destruct (kind =? "date-time")%string; discriminate.
Qed.


Lemma topDehydrateLines_returns (this : Renderer) (classType : nat) :
  topDehydrateLines this classType <> Running.
Proof.
  apply forEach_not_Running. intros [[name jsonName] p] _.
  apply phpDehydrateType_returns.
Qed.

(** Every declared property is visited by [forEachClassProperty]. *)
Lemma forEachClassProperty_In (this : Renderer) (c : nat) (jsonName : string)
    (p : ClassProperty) :
  In (jsonName, p) (getProperties this c) <->
  In (propertyName this c jsonName, jsonName, p) (forEachClassProperty this c).
Proof.
  unfold forEachClassProperty, sortClassProperties. rewrite in_map_iff. split.
  - intros H. exists (jsonName, p). split; [reflexivity|].
    eapply Permutation_in; [|exact H].
    symmetry. apply mapSortBy_Permutation.
  - intros ([j q] & Heq & H). simpl in Heq. inversion Heq; subst.
    eapply Permutation_in; [|exact H]. apply mapSortBy_Permutation.
Qed.

Lemma forEachClassProperty_name (this : Renderer) (c : nat)
    (name jsonName : string) (p : ClassProperty) :
  In (name, jsonName, p) (forEachClassProperty this c) ->
  name = propertyName this c jsonName /\
  In (jsonName, p) (getProperties this c).
Proof.
  intros Hin.
  assert (name = propertyName this c jsonName) as ->.
  { unfold forEachClassProperty in Hin. apply in_map_iff in Hin.
    destruct Hin as (jp & Heq & _). now inversion Heq. }
  split; [reflexivity|]. now apply forEachClassProperty_In.
Qed.























(** ** The shape of the emitted dehydrators *)

Lemma converted_union (ref : nat) (members : list Ty) :
  converted (UnionType ref members) =
  match nullableFromUnion members with
  | Some nullable => converted nullable
  | None => None
  end.
Proof.
  simpl. rewrite nullableFromUnionWith_map.
  now destruct (nullableFromUnion members).
Qed.

(** What [phpDehydrateType] emits for a property: one line, by the type the
    property is converted by, or nothing. *)
Lemma phpDehydrateType_argument (this : Renderer) (jsonName : string)
    (args : Expr) (t : Ty) (lines : list Line) :
  phpDehydrateType this jsonName t None args = Emitted lines ->
  match converted t with
  | Some b =>
      exists l, lines = [l] /\ target l = None /\
                value l = argumentFor this jsonName args b
  | None => lines = []
  end.
Proof.
  revert lines.
  induction t as [| | | | | |items _|ref|values _|ref|ref members IH|kind]
    using Ty_members_ind; intros lines H;
    try (simpl in H; injection H as <-; simpl; eexists;
         repeat split; reflexivity).
  - rewrite phpDehydrateType_union in H. rewrite converted_union.
    destruct (nullableFromUnion members) as [n|] eqn:E.
    + apply nullableFromUnion_In in E. rewrite Forall_forall in IH.
      now apply (IH n E).
    + now injection H as <-.
  - simpl in H. destruct (kind =? "date-time")%string; [|discriminate].
    injection H as <-. simpl. eexists. repeat split; reflexivity.
Qed.

Lemma argumentFor_coalesces (this : Renderer) (jsonName : string) (b : Ty) :
  coalesces (argumentFor this jsonName (EData jsonName) b) = false.
Proof. now destruct b. Qed.

(** The lines a loop over the properties emits, property by property. *)
Lemma forEach_Forall2_filter {A B : Type} (f : A -> Emit (list B))
    (keep : A -> bool) (R : A -> B -> Prop) (l : list A) (out : list B) :
  (forall a o, In a l -> f a = Emitted o ->
               if keep a then exists b, o = [b] /\ R a b else o = []) ->
  forEach f l = Emitted out ->
  Forall2 R (filter keep l) out.
Proof.
  revert out. induction l as [|a l IH]; simpl; intros out HR H.
  - injection H as <-. constructor.
  - destruct (f a) as [o| |] eqn:Ea; simpl in H; try discriminate.
    destruct (forEach f l) as [os| |] eqn:El; simpl in H; try discriminate.
    injection H as <-.
    pose proof (HR a o (or_introl eq_refl) Ea) as Ha.
    assert (Forall2 R (filter keep l) os) as Hrest
      by (apply IH; [|reflexivity]; intros b o' Hb; apply HR; now right).
    destruct (keep a).
    + destruct Ha as (b & -> & Hb). now constructor.
    + now subst o.
Qed.

Lemma dehydrateLines_argumentsOf (this : Renderer) (c : nat)
    (reading : string -> ClassProperty -> Expr) (lines : list Line) :
  forEach
    (fun njp : string * string * ClassProperty =>
       let '(_name, jsonName, p) := njp in
       phpDehydrateType this jsonName (type p) None (reading jsonName p))
    (forEachClassProperty this c) = Emitted lines ->
  argumentsOf this c reading lines.
Proof.
  apply forEach_Forall2_filter. intros [[n j] p] o _ Ho.
  apply phpDehydrateType_argument in Ho. unfold hasArgument. simpl.
  destruct (converted (type p)) as [b|]; [|exact Ho].
  destruct Ho as (l & -> & Ht & Hv). exists l. split; [reflexivity|].
  now exists b.
Qed.

Lemma forEach_Forall {A B : Type} (f : A -> Emit (list B)) (P : B -> Prop)
    (l : list A) (out : list B) :
  (forall a o, In a l -> f a = Emitted o -> Forall P o) ->
  forEach f l = Emitted out -> Forall P out.
Proof.
  revert out. induction l as [|a l IH]; simpl; intros out HP H.
  - injection H as <-. constructor.
  - destruct (f a) as [o| |] eqn:Ea; simpl in H; try discriminate.
    destruct (forEach f l) as [os| |] eqn:El; simpl in H; try discriminate.
    injection H as <-. apply Forall_app. split.
    + apply (HP a); [now left|assumption].
    + apply IH; [|reflexivity]. intros b o' Hb. apply HP. now right.
Qed.

(** The checks of the top-level [dehydrate], spelt out: one per property
    whose type is not nullable, on the property's resolved name. *)
Lemma presenceChecks_spec (this : Renderer) (c : nat) :
  presenceChecks this c =
  map (fun jp => SIsset (propertyName this c (fst jp)))
      (filter (fun jp => negb (isNullable this (type (snd jp))))
              (sortClassProperties this (getProperties this c))).
Proof.
  unfold presenceChecks, forEachClassProperty.
  induction (sortClassProperties this (getProperties this c)) as [|jp l IH];
    simpl; [reflexivity|].
  rewrite IH. now destruct (isNullable this (type (snd jp))).
Qed.

Lemma emitTopDehydrateDefinition_inv (this : Renderer) (fuel : nat)
    (className : string) (c : nat) (items : list Item) :
  emitTopDehydrateDefinition this fuel className c = Emitted items ->
  exists returnDecl lines nested,
    topDehydrateLines this c = Emitted lines /\
    items = Method "dehydrate" "array " "data" returnDecl
                   (presenceChecks this c
                    ++ map SLoop (emitArrayDehydrateDefinition this c)
                    ++ [SReturnNew className lines])
            :: nested.
Proof.
  intros H. unfold emitTopDehydrateDefinition in H.
  destruct (topDehydrateLines this c) as [lines| |] eqn:El; simpl in H;
    try discriminate.
  match type of H with
  | context [forEach ?f ?l] => destruct (forEach f l) as [nested| |]
  end; simpl in H; try discriminate.
  injection H as <-. eexists _, lines, nested. split; reflexivity.
Qed.

(** C10 (as amended).  A nested dehydrator is one [return new ...]: its
    body has no presence check.  It has one argument for every property
    that has one (a union that is not of the nullable shape has none), in
    the order of the properties, and the argument reads [$data['jsonName']]
    as it is, without ["?? null"]: the entry itself, the entry handed to
    the dehydrator of its class, or the entry formatted as a date; but the
    argument for an array is the variable [$jsonName].  The top-level
    [dehydrate] checks [isset] on the resolved name of every property whose
    type is not nullable, and its arguments are the same with
    [$data['jsonName'] ?? null] for the nullable properties.  With a naming
    under which the two names differ, the key checked is not the key
    read. *)
Theorem only_top_level_dehydrate_checks_presence :
  (forall this fuel name t c items,
      getClassTypeFromType this t = Some c ->
      emitNestedDehydrateDefinition this fuel name t = Emitted items ->
      exists rendered lines nested,
        items = Method (dehydrateName this c) "array " "data"
                       (": " +++ rendered) [SReturnNew rendered lines]
                :: nested /\
        argumentsOf this c (fun jsonName _ => EData jsonName) lines /\
        Forall (fun l => coalesces (value l) = false) lines) /\
  (forall this fuel className c items,
      emitTopDehydrateDefinition this fuel className c = Emitted items ->
      exists returnDecl lines nested,
        items = Method "dehydrate" "array " "data" returnDecl
                       (map (fun jp => SIsset (propertyName this c (fst jp)))
                            (filter (fun jp =>
                                       negb (isNullable this (type (snd jp))))
                                    (sortClassProperties
                                       this (getProperties this c)))
                        ++ map SLoop (emitArrayDehydrateDefinition this c)
                        ++ [SReturnNew className lines])
                :: nested /\
        argumentsOf this c
          (fun jsonName p =>
             if isNullable this (type p) then ECoalesce (EData jsonName)
             else EData jsonName)
          lines) /\
  (exists nested,
      emitTopDehydrateDefinition (rendererOf userGraph camelName) 1 "User" 0
      = Emitted
          (Method "dehydrate" "array " "data" ""
                  [SIsset "firstName";
                   SReturnNew "User"
                     [{| target := None; value := EData "first_name";
                         tag := " /*string*/" |}]]
           :: nested)).
Proof.
  split; [|split].
  - intros this fuel name t c items Ec H.
    destruct fuel as [|fuel]; [discriminate|].
    simpl in H. rewrite Ec in H.
    destruct (nestedDehydrateLines this c) as [lines| |] eqn:El; simpl in H;
      try discriminate.
    match type of H with
    | context [forEach ?f ?l] => destruct (forEach f l) as [nested| |]
    end; simpl in H; try discriminate.
    injection H as <-.
    eexists _, lines, nested.
    split; [reflexivity|].
    apply (dehydrateLines_argumentsOf this c (fun jsonName _ => EData jsonName))
      in El.
    split; [exact El|].
    unfold argumentsOf in El.
    induction El as [|[[n j] p] l ps ls (b & _ & _ & Hv) _ IH];
      constructor; [|exact IH].
    rewrite Hv. apply argumentFor_coalesces.
  - intros this fuel className c items H.
    apply emitTopDehydrateDefinition_inv in H.
    destruct H as (returnDecl & lines & nested & El & ->).
    rewrite presenceChecks_spec.
    exists returnDecl, lines, nested. split; [reflexivity|].
    now apply (dehydrateLines_argumentsOf this c
                 (fun jsonName p =>
                    if isNullable this (type p) then ECoalesce (EData jsonName)
                    else EData jsonName)).
  - eexists. reflexivity.
Qed.

(** ** Running the emitted dehydrator *)

(** One call: the class loads, the method is found, the argument is
    checked, the body runs. *)
Lemma callMethod_S (accepts : string -> Value -> bool)
    (decls : list ClassDecl) (items : list Item) (fuel : nat)
    (name : string) (argument : Value) :
  callMethod accepts decls items (S fuel) name argument =
  match redeclared items with
  | Some n => Throw (Error ("Cannot redeclare " +++ n +++ "()"))
  | None =>
      match findMethod items name with
      | None => Throw (Error ("Call to undefined method " +++ name +++ "()"))
      | Some (paramDecl, paramVar, body) =>
          if (paramDecl =? "")%string
             || accepts (declaredType paramDecl) argument
          then exec accepts decls (callMethod accepts decls items fuel)
                    [(paramVar, argument)] body
          else Throw TypeError
      end
  end.
Proof. reflexivity. Qed.

(** A call that returns is a call of a method that was found, on a class
    that loaded. *)
Lemma callMethod_Ok (accepts : string -> Value -> bool)
    (decls : list ClassDecl) (items : list Item) (fuel : nat)
    (name : string) (argument v : Value) :
  callMethod accepts decls items fuel name argument = Ok v ->
  exists fuel' paramDecl paramVar body,
    fuel = S fuel' /\
    redeclared items = None /\
    findMethod items name = Some (paramDecl, paramVar, body) /\
    ((paramDecl =? "")%string || accepts (declaredType paramDecl) argument
     = true) /\
    exec accepts decls (callMethod accepts decls items fuel')
         [(paramVar, argument)] body = Ok v.
Proof.
  destruct fuel as [|fuel]; [discriminate|]. rewrite callMethod_S.
  destruct (redeclared items); [discriminate|].
  destruct (findMethod items name) as [[[paramDecl paramVar] body]|];
    [|discriminate].
  destruct ((paramDecl =? "")%string
            || accepts (declaredType paramDecl) argument) eqn:E;
    [|discriminate].
  intros H. now exists fuel, paramDecl, paramVar, body.
Qed.

Lemma construct_fields (accepts : string -> Value -> bool)
    (decls : list ClassDecl) (className : string) (values : list Value)
    (v : Value) :
  construct accepts decls className values = Ok v ->
  exists d properties,
    findDecl decls className = Some d /\
    v = VObject className properties /\
    map fst properties = map snd (constructorParams d).
Proof.
  unfold construct. intros H.
  destruct (findDecl decls className) as [d|]; [|discriminate].
  destruct (length values <? length (constructorParams d))%nat eqn:El;
    [discriminate|].
  destruct (forallb _ _); [|discriminate].
  injection H as <-. eexists d, _. split; [reflexivity|].
  split; [reflexivity|].
  apply Nat.ltb_ge in El. rewrite <- (length_map snd) in El.
  generalize dependent values.
  induction (map snd (constructorParams d)) as [|n names IH];
    intros values El; [reflexivity|].
  destruct values as [|w values]; simpl in El; [lia|].
  simpl. f_equal. apply IH. lia.
Qed.

Lemma exec_returns_new (accepts : string -> Value -> bool)
    (decls : list ClassDecl) (call : string -> Value -> Outcome Value)
    (pre : list Stmt) (className : string) (lines : list Line) (v : Value) :
  forallb isCheckOrLoop pre = true ->
  forall locals,
    exec accepts decls call locals (pre ++ [SReturnNew className lines])
    = Ok v ->
    exists values, construct accepts decls className values = Ok v.
Proof.
  induction pre as [|st pre IH]; intros Hpre locals H.
  - simpl in H.
    destruct (mapM _ lines) as [values| |]; simpl in H; try discriminate.
    now exists values.
  - simpl in Hpre. apply andb_true_iff in Hpre. destruct Hpre as [Hs Hpre].
    destruct st; try discriminate; simpl in H.
    + destruct (local "data" locals); try discriminate.
      destruct (isset (lookup name entries)); [|discriminate].
      now apply (IH Hpre locals).
    + destruct (evalLoop decls call locals l) as [locals'| |];
        simpl in H; try discriminate.
      now apply (IH Hpre locals').
Qed.

Lemma presenceChecks_are_checks (this : Renderer) (c : nat) :
  forallb isCheckOrLoop
          (presenceChecks this c
           ++ map SLoop (emitArrayDehydrateDefinition this c)) = true.
Proof.
  rewrite forallb_app, presenceChecks_spec. apply andb_true_iff.
  split; apply forallb_forall; intros st Hin; apply in_map_iff in Hin;
    now destruct Hin as (a & <- & _).
Qed.

(** No method of the hydrate half is called [dehydrate]. *)
Lemma emitNestedHydrateDefinition_names (this : Renderer) :
  forall fuel name t out,
    emitNestedHydrateDefinition this fuel name t = Emitted out ->
    Forall (fun i => isMethod "dehydrate" i = false) out.
Proof.
  induction fuel as [|fuel IH]; intros name t out H; [discriminate|].
  simpl in H. destruct (getClassTypeFromType this t) as [c|];
    [|injection H as <-; constructor].
  destruct (hydrateLines this c "obj") as [lines| |]; simpl in H;
    try discriminate.
  match type of H with
  | context [forEach ?f ?l] =>
      destruct (forEach f l) as [nested| |] eqn:En
  end; simpl in H; try discriminate.
  injection H as <-. apply Forall_app. split.
  - apply Forall_forall. intros i Hi. apply in_map_iff in Hi.
    now destruct Hi as (l & <- & _).
  - constructor; [reflexivity|].
    revert En. apply forEach_Forall. intros [[n j] p] o _ Ho.
    exact (IH _ _ _ Ho).
Qed.

Lemma find_app_none {A : Type} (f : A -> bool) (l l' : list A) :
  Forall (fun a => f a = false) l -> find f (l ++ l') = find f l'.
Proof.
  induction 1 as [|a l Ha _ IH]; simpl; [reflexivity|]. now rewrite Ha.
Qed.

(** The method [dehydrate] of the hydrator class is the one
    [emitTopDehydrateDefinition] emitted. *)
Lemma findMethod_dehydrate (this : Renderer) (fuel c : nat)
    (className : string) (items : list Item) :
  emitTopClassHydratorDehydrator this fuel c className = Emitted items ->
  exists lines,
    topDehydrateLines this c = Emitted lines /\
    findMethod items "dehydrate" =
    Some ("array ", "data",
          (presenceChecks this c
           ++ map SLoop (emitArrayDehydrateDefinition this c))
          ++ [SReturnNew className lines]).
Proof.
  unfold emitTopClassHydratorDehydrator. intros H.
  destruct (emitTopHydrateDefinition this fuel className c)
    as [hydrate| |] eqn:Eh; simpl in H; try discriminate.
  destruct (emitTopDehydrateDefinition this fuel className c)
    as [dehydrate| |] eqn:Ed; simpl in H; try discriminate.
  injection H as <-.
  apply emitTopDehydrateDefinition_inv in Ed.
  destruct Ed as (returnDecl & lines & nested & El & ->).
  exists lines. split; [exact El|]. unfold findMethod. rewrite find_app_none.
  - simpl. now rewrite <- app_assoc.
  - unfold emitTopHydrateDefinition in Eh.
    destruct (hydrateLines this c "message") as [ls| |]; simpl in Eh;
      try discriminate.
    match type of Eh with
    | context [forEach ?f ?l] =>
        destruct (forEach f l) as [nested'| |] eqn:En
    end; simpl in Eh; try discriminate.
    injection Eh as <-. constructor; [reflexivity|].
    revert En. apply forEach_Forall. intros [[n j] p] o _ Ho.
    exact (emitNestedHydrateDefinition_names _ _ _ _ _ Ho).
Qed.

Lemma forEach_ext {A B : Type} (f f' : A -> Emit (list B)) (l : list A) :
  (forall a, f a = f' a) -> forEach f l = forEach f' l.
Proof.
  intros H. induction l as [|a l IH]; simpl; [reflexivity|].
  now rewrite H, IH.
Qed.

Lemma forEach_params {A : Type} (g : A -> Emit string) (h : A -> string)
    (l : list A) (out : list (string * string)) :
  forEach (fun a => rendered <- g a ;; Emitted [(rendered, h a)]) l
  = Emitted out ->
  map snd out = map h l.
Proof.
  revert out. induction l as [|a l IH]; simpl; intros out H.
  - now injection H as <-.
  - destruct (g a) as [r| |]; simpl in H; try discriminate.
    destruct (forEach _ l) as [os| |] eqn:El; simpl in H; try discriminate.
    injection H as <-. simpl. f_equal. now apply IH.
Qed.

(** The constructor [emitClassDefinition] declares takes the properties in
    the order of [forEachClassProperty]. *)
Lemma emitClassDefinition_params (this : Renderer) (c : nat)
    (className : string) (d : ClassDecl) :
  emitClassDefinition this c className = Emitted (Some d) ->
  map snd (constructorParams d) =
  map (fun jp => propertyName this c (fst jp))
      (sortClassProperties this (getProperties this c)).
Proof.
  unfold emitClassDefinition. intros H.
  destruct (isArray this c); [discriminate|].
  match type of H with
  | context [forEach ?f ?l] =>
      destruct (forEach f l) as [params| |] eqn:Ep
  end; simpl in H; try discriminate.
  injection H as <-. simpl.
  rewrite (forEach_ext _
             (fun njp : string * string * ClassProperty =>
                rendered <- phpType this false (type (snd njp)) false "?" "" ;;
                Emitted [(rendered, fst (fst njp))])) in Ep
    by (intros [[n j] p]; reflexivity).
  apply forEach_params in Ep. rewrite Ep.
  unfold forEachClassProperty. now rewrite map_map.
Qed.

Lemma append_empty (s : string) : s +++ "" = s.
Proof. induction s as [|ch s IH]; simpl; [reflexivity|now rewrite IH]. Qed.

Lemma fieldOrder_spec (this : Renderer) (c : nat) :
  map (fun jp => propertyName this c (fst jp))
      (sortClassProperties this (getProperties this c))
  = fieldOrder this c.
Proof.
  unfold fieldOrder, sortClassProperties.
  now rewrite (mapSortBy_two_keys (getProperties this c)
                 (fun p => isNullable this (type p))).
Qed.

Lemma constructed_in_fieldOrder (accepts : string -> Value -> bool)
    (decls : list ClassDecl) (this : Renderer) (c : nat) (className : string)
    (d : ClassDecl) (values : list Value) (v : Value) :
  emitClassDefinition this c className = Emitted (Some d) ->
  findDecl decls className = Some d ->
  construct accepts decls className values = Ok v ->
  exists properties,
    v = VObject className properties /\
    map fst properties = fieldOrder this c.
Proof.
  intros Hd Hfind Hc. apply construct_fields in Hc.
  destruct Hc as (d' & properties & Hfind' & -> & Hnames).
  rewrite Hfind in Hfind'. injection Hfind' as <-.
  exists properties. split; [reflexivity|].
  now rewrite Hnames, (emitClassDefinition_params _ _ _ _ Hd),
    fieldOrder_spec.
Qed.

(** C8 (as amended).  Whatever the generic value and its key order, a
    typed value a generated dehydrator returns, the top-level [dehydrate]
    or a nested one, presents the fields of its class in the order of
    [sortClassProperties]: the properties whose type is not nullable
    first, then the nullable ones, each group in declaration order. *)
Theorem dehydrate_presents_required_fields_first
    (accepts : string -> Value -> bool) (decls : list ClassDecl)
    (this : Renderer) (c : nat) (className : string) (d : ClassDecl) :
  emitClassDefinition this c className = Emitted (Some d) ->
  findDecl decls className = Some d ->
  (forall fuel0 fuel items data v,
      emitTopClassHydratorDehydrator this fuel0 c className = Emitted items ->
      callMethod accepts decls items fuel "dehydrate" data = Ok v ->
      exists properties,
        v = VObject className properties /\
        map fst properties = fieldOrder this c) /\
  (forall fuel name t items,
      className = nameForNamedType this (ClassType c) ->
      getClassTypeFromType this t = Some c ->
      emitNestedDehydrateDefinition this fuel name t = Emitted items ->
      exists returnDecl body nested,
        items = Method (dehydrateName this c) "array " "data" returnDecl body
                :: nested /\
        forall call locals v,
          exec accepts decls call locals body = Ok v ->
          exists properties,
            v = VObject className properties /\
            map fst properties = fieldOrder this c).
Proof.
  intros Hd Hfind. split.
  - intros fuel0 fuel items data v Hitems Hrun.
    destruct (findMethod_dehydrate _ _ _ _ _ Hitems) as (lines & _ & Hm).
    apply callMethod_Ok in Hrun.
    destruct Hrun as (fuel' & paramDecl & paramVar & body & _ & _ & Hm'
                      & _ & Hrun).
    rewrite Hm in Hm'. injection Hm' as <- <- <-.
    apply exec_returns_new in Hrun; [|apply presenceChecks_are_checks].
    destruct Hrun as (values & Hc).
    exact (constructed_in_fieldOrder _ _ _ _ _ _ _ _ Hd Hfind Hc).
  - intros fuel name t items Hname Ec H.
    destruct fuel as [|fuel]; [discriminate|].
    simpl in H. rewrite Ec in H.
    destruct (nestedDehydrateLines this c) as [lines| |]; simpl in H;
      try discriminate.
    match type of H with
    | context [forEach ?f ?l] => destruct (forEach f l) as [nested| |]
    end; simpl in H; try discriminate.
    injection H as <-. rewrite append_empty, <- Hname.
    eexists _, _, nested. split; [reflexivity|].
    intros call locals v Hrun.
    apply (exec_returns_new _ _ _ []) in Hrun; [|reflexivity].
    destruct Hrun as (values & Hc).
    exact (constructed_in_fieldOrder _ _ _ _ _ _ _ _ Hd Hfind Hc).
Qed.

(** *** A required date-time field *)

Lemma mapM_In {A B : Type} (f : A -> Outcome B) (l : list A) (bs : list B)
    (a : A) :
  mapM f l = Ok bs -> In a l -> exists b, f a = Ok b.
Proof.
  revert bs. induction l as [|a' l IH]; intros bs H Hin; [contradiction|].
  simpl in H. destruct (f a') as [b'| |] eqn:Ea; simpl in H; try discriminate.
  destruct (mapM f l) as [bs'| |]; simpl in H; try discriminate.
  destruct Hin as [->|Hin]; [now exists b'|]. now apply (IH bs').
Qed.

Lemma forEach_In {A B : Type} (f : A -> Emit (list B)) (l : list A)
    (out o : list B) (a : A) (b : B) :
  forEach f l = Emitted out -> In a l -> f a = Emitted o -> In b o ->
  In b out.
Proof.
  revert out. induction l as [|a' l IH]; intros out H Hin Ha Hb;
    [contradiction|].
  simpl in H. destruct (f a') as [o'| |] eqn:Ea; simpl in H; try discriminate.
  destruct (forEach f l) as [os| |]; simpl in H; try discriminate.
  injection H as <-. apply in_or_app. destruct Hin as [->|Hin].
  - left. congruence.
  - right. now apply (IH os).
Qed.

(** With presence checks only before it, the [return] evaluates its
    arguments on the locals the method started with. *)
Lemma exec_checks_then_new (accepts : string -> Value -> bool)
    (decls : list ClassDecl) (call : string -> Value -> Outcome Value)
    (locals : list (string * Value)) (checks : list Stmt)
    (className : string) (lines : list Line) (v : Value) :
  forallb isIsset checks = true ->
  exec accepts decls call locals (checks ++ [SReturnNew className lines])
  = Ok v ->
  exists values,
    mapM (fun a => evalExpr decls call locals (value a)) lines = Ok values.
Proof.
  induction checks as [|st checks IH]; intros Hchecks H.
  - simpl in H.
    destruct (mapM _ lines) as [values| |]; simpl in H; try discriminate.
    now exists values.
  - simpl in Hchecks. apply andb_true_iff in Hchecks.
    destruct Hchecks as [Hs Hchecks].
    destruct st; try discriminate. simpl in H.
    destruct (local "data" locals); try discriminate.
    destruct (isset (lookup name entries)); [|discriminate].
    now apply IH.
Qed.

(** The top-level [dehydrate] of a class with a required date-time
    property and no array property returns on no generic value: the
    argument it emits for the property calls [format] on the datum. *)
Lemma dehydrate_never_parses_date_time (accepts : string -> Value -> bool)
    (decls : list ClassDecl) (this : Renderer) (fuel0 fuel c : nat)
    (className : string) (items : list Item)
    (entries : list (string * Value)) (jsonName : string)
    (p : ClassProperty) :
  emitTopClassHydratorDehydrator this fuel0 c className = Emitted items ->
  In (jsonName, p) (getProperties this c) ->
  type p = TransformedStringType "date-time" ->
  isNullable this (type p) = false ->
  emitArrayDehydrateDefinition this c = [] ->
  (forall iso8601, index jsonName entries <> VDateTime iso8601) ->
  forall v,
    callMethod accepts decls items fuel "dehydrate" (VArray entries) <> Ok v.
Proof.
  intros Hitems Hin Hty Hnull Hloops Hgeneric v Hrun.
  destruct (findMethod_dehydrate _ _ _ _ _ Hitems) as (lines & El & Hm).
  apply callMethod_Ok in Hrun.
  destruct Hrun as (fuel' & paramDecl & paramVar & body & _ & _ & Hm'
                    & _ & Hrun).
  rewrite Hm in Hm'. injection Hm' as <- <- <-.
  rewrite Hloops in Hrun. simpl in Hrun. rewrite app_nil_r in Hrun.
  apply exec_checks_then_new in Hrun.
  - destruct Hrun as (values & Hvalues).
    apply forEachClassProperty_In in Hin.
    assert (In {| target := None; value := EFormat (EData jsonName);
                  tag := "" |} lines) as Hline.
    { apply (forEach_In _ _ _
                [{| target := None; value := EFormat (EData jsonName);
                    tag := "" |}] _ _ El Hin); [|now left].
      simpl. now rewrite Hnull, Hty. }
    destruct (mapM_In _ _ _ _ Hvalues Hline) as (b & Hb).
    simpl in Hb. unfold dataAt, local, index in Hb. simpl in Hb.
    fold (index jsonName entries) in Hb.
    destruct (index jsonName entries) eqn:Ei; simpl in Hb; try discriminate.
    now apply (Hgeneric iso8601).
  - rewrite presenceChecks_spec. apply forallb_forall. intros st Hst.
    apply in_map_iff in Hst. now destruct Hst as (a & <- & _).
Qed.

(** ** The renderer on the example graphs *)



(** The hydrator class of [Top] declares [hydrateLeaf] twice: PHP does not
    load it, and neither of its methods runs. *)
Example twice_emitted_method_is_redeclared :
  runOn twiceGraph sameName 0 "dehydrate"
        (VArray [("a", VArray [("x", VString "1")]);
                 ("b", VArray [("x", VString "2")])])
  = Throw (Error "Cannot redeclare hydrateLeaf()").
Proof. reflexivity. Qed.





(** The same through a nullable reference. *)
Lemma nullable_cycle_is_not_detected :
  forall fuel name,
    emitNestedHydrateDefinition (rendererOf listGraph sameName) fuel name
                                (optional (ClassType 0))
    = Running.
Proof.
  induction fuel as [|fuel IH]; intros name; [reflexivity|].
  simpl. now rewrite IH.
Qed.





(** The traversal of [Entry] stops on the error for the uuid, before it
    follows the reference: no cycle is reported. *)
Example entryGraph_stops_on_the_uuid :
  forall fuel name,
    emitNestedHydrateDefinition (rendererOf entryGraph sameName) (S fuel) name
                                (ClassType 0)
    = Thrown unknownKind.
Proof. reflexivity. Qed.

(** ** The generated code on the example graphs *)

(** The spec's example: the full value converts, there and back. *)
Example person_round_trip :
  runOn personGraph sameName 0 "dehydrate"
        (VArray [("name", VString "Ana");
                 ("address", VArray [("city", VString "Rome")])])
  = Ok (VObject "Person"
          [("name", VString "Ana");
           ("address", VObject "Address" [("city", VString "Rome")])]) /\
  runOn personGraph sameName 0 "hydrate"
        (VObject "Person"
           [("name", VString "Ana");
            ("address", VObject "Address" [("city", VString "Rome")])])
  = Ok (VObject "stdClass"
          [("name", VString "Ana");
           ("address", VObject "stdClass" [("city", VString "Rome")])]).
Proof. split; reflexivity. Qed.

(** C8, the claim as worded: [Pair] declares [note] before [id], and the
    typed value presents [id] before [note]. *)
Lemma dehydrate_reorders_declared_fields :
  map fst (getProperties (rendererOf pairGraph sameName) 0) = ["note"; "id"]
  /\
  runOn pairGraph sameName 0 "dehydrate"
        (VArray [("note", VString "n"); ("id", VString "7")])
  = Ok (VObject "Pair" [("id", VString "7"); ("note", VString "n")]).
Proof. split; reflexivity. Qed.

Lemma dehydrate_presents_required_fields_first_witness :
  exists properties,
    runOn pairGraph sameName 0 "dehydrate"
          (VArray [("id", VString "7"); ("note", VString "n")])
    = Ok (VObject "Pair" properties) /\
    map fst properties = ["id"; "note"].
Proof.
  destruct (proj1 (dehydrate_presents_required_fields_first
                     lenient (declsOf pairGraph sameName)
                     (rendererOf pairGraph sameName) 0 "Pair"
                     {| declName := "Pair";
                        constructorParams :=
                          [("string", "id"); ("?string", "note")];
                        getters := [("getId", "id"); ("getNote", "note")] |}
                     eq_refl eq_refl)
                  16 16 _
                  (VArray [("id", VString "7"); ("note", VString "n")])
                  (VObject "Pair" [("id", VString "7"); ("note", VString "n")])
                  eq_refl eq_refl)
    as (properties & Hv & Hnames).
  exists properties. split.
  - rewrite <- Hv. reflexivity.
  - exact Hnames.
Defined.

(** C1.  The round trip holds on the spec's example and fails on others:
    for a class with a date-time field the generated [dehydrate] calls
    [format] on the string it is given, as [hydrate] does on the typed
    value, and throws; under a naming that changes a JSON name, [hydrate]
    writes the resolved name and the value comes back under another key. *)
Lemma round_trip_fails :
  roundTrip personGraph sameName 0
            (VArray [("name", VString "Ana");
                     ("address", VArray [("city", VString "Rome")])])
  = Ok (VArray [("name", VString "Ana");
                ("address", VArray [("city", VString "Rome")])]) /\
  phpDehydrateType (rendererOf eventGraph sameName) "at"
                   (TransformedStringType "date-time") None (EData "at")
  = Emitted [{| target := None; value := EFormat (EData "at"); tag := "" |}]
  /\
  runOn eventGraph sameName 0 "dehydrate"
        (VArray [("at", VString "2020-01-01T00:00:00+0000")])
  = Throw (Error "Call to a member function format() on string") /\
  roundTrip memberGraph camelName 0 (VArray [("first_name", VString "Ana")])
  = Ok (VArray [("firstName", VString "Ana")]).
Proof. repeat split; reflexivity. Qed.

(** C1: whatever string stands for the date, and whatever the parameter
    check accepts, [dehydrate] of [Event] returns no value. *)
Lemma event_dehydrate_never_returns :
  forall (accepts : string -> Value -> bool) (fuel : nat) (date : string)
         (items : list Item) (v : Value),
    hydratorOf eventGraph sameName 16 0 = Emitted items ->
    callMethod accepts (declsOf eventGraph sameName) items fuel "dehydrate"
               (VArray [("at", VString date)]) <> Ok v.
Proof.
  intros accepts fuel date items v Hitems.
  apply (dehydrate_never_parses_date_time accepts _
           (rendererOf eventGraph sameName) 16 fuel 0 "Event" items
           [("at", VString date)] "at"
           (required (TransformedStringType "date-time")));
    try reflexivity; try exact Hitems.
  - now left.
  - intros iso8601. discriminate.
Qed.

(** C1 and C10: with a naming that changes the JSON name, [dehydrate]
    checks the resolved name and rejects the value that has the field. *)
Lemma dehydrate_checks_the_resolved_name :
  runOn userGraph camelName 0 "dehydrate"
        (VArray [("first_name", VString "Ana")])
  = Throw (RuntimeException "Property 'firstName' not set").
Proof. reflexivity. Qed.

(** The emitted text of the nested dehydrator of [Customer]. *)
Example dehydrateCustomer_text :
  match emitNestedDehydrateDefinition (rendererOf orderGraph sameName) 2
                                      "customer" (ClassType 1) with
  | Emitted items => flat_map render_item items
  | _ => []
  end =
  ["public function dehydrateCustomer(array $data): Customer {";
   "return new Customer(";
   "$data['city'], /*string*/";
   ");";
   "}"].
Proof. reflexivity. Qed.

Lemma only_top_level_dehydrate_checks_presence_witness :
  exists rendered line nested,
    emitNestedDehydrateDefinition (rendererOf orderGraph sameName) 2
                                  "customer" (ClassType 1)
    = Emitted (Method "dehydrateCustomer" "array " "data" (": " +++ rendered)
                      [SReturnNew rendered [line]]
               :: nested) /\
    value line = EData "city".
Proof.
  destruct (proj1 only_top_level_dehydrate_checks_presence
              (rendererOf orderGraph sameName) 2 "customer" (ClassType 1) 1 _
              eq_refl eq_refl)
    as (rendered & lines & nested & Hitems & Hlines & _).
  unfold argumentsOf in Hlines. simpl in Hlines.
  inversion Hlines as [|njp l ps ls Hl Hrest]; subst.
  destruct Hl as (b & Hb & _ & Hv).
  inversion Hrest; subst. injection Hb as <-.
  exists rendered, l, nested. split; [exact (f_equal Emitted Hitems)|exact Hv].
Defined.

(** C10, the claim as worded: the nested dehydrator of [Customer] does not
    read the array [tags] as [$data['tags']] but passes the variable
    [$tags], and it passes nothing for [ref]. *)
Lemma nested_dehydrator_passes_array_as_variable :
  match emitNestedDehydrateDefinition (rendererOf basketGraph sameName) 2
                                      "customer" (ClassType 1) with
  | Emitted items => flat_map render_item items
  | _ => []
  end =
  ["public function dehydrateCustomer(array $data): Customer {";
   "return new Customer(";
   "$data['city'], /*string*/";
   "$tags, /*array*/";
   ");";
   "}"] /\
  (exists nested,
      emitNestedDehydrateDefinition (rendererOf basketGraph sameName) 2
                                    "customer" (ClassType 1)
      = Emitted
          (Method "dehydrateCustomer" "array " "data" ": Customer"
                  [SReturnNew "Customer"
                     [{| target := None; value := EData "city";
                         tag := " /*string*/" |};
                      {| target := None; value := EVar "tags";
                         tag := " /*array*/" |}]]
           :: nested)) /\
  EVar "tags" <> EData "tags".
Proof.
  split; [reflexivity|]. split; [eexists; reflexivity|discriminate].
Qed.

(** C2: the nested dehydrator has no presence check.  With the required
    [city] absent, no error names the field: the constructor of [Customer]
    gets null. *)
Lemma nested_dehydrate_misses_required_field :
  (exists items nested,
      hydratorOf orderGraph sameName 3 0 = Emitted items /\
      emitNestedDehydrateDefinition (rendererOf orderGraph sameName) 2
                                    "customer" (ClassType 1)
      = Emitted
          (Method "dehydrateCustomer" "array " "data" ": Customer"
                  [SReturnNew "Customer"
                     [{| target := None; value := EData "city";
                         tag := " /*string*/" |}]]
           :: nested)) /\
  runOn orderGraph sameName 0 "dehydrate"
        (VArray [("customer", VArray [])])
  = Throw TypeError /\
  (forall accepts fuel message,
      callMethod accepts (declsOf orderGraph sameName)
                 (match hydratorOf orderGraph sameName 3 0 with
                  | Emitted items => items
                  | _ => []
                  end)
                 fuel "dehydrate" (VArray [("customer", VArray [])])
      <> Throw (RuntimeException message)).
Proof.
  split; [eexists _, _; split; reflexivity|]. split; [reflexivity|].
  intros accepts fuel message.
  destruct fuel as [|[|fuel]]; cbv; try discriminate;
    repeat (match goal with
            | |- context [accepts ?a ?b] => destruct (accepts a b)
            end; try discriminate).
Qed.

(** C2: an absent optional field of class type is no absence marker
    either: the nested dehydrator is called on null. *)
Lemma absent_optional_class_is_a_type_error :
  runOn personGraph sameName 0 "dehydrate" (VArray [("name", VString "Ana")])
  = Throw TypeError.
Proof. reflexivity. Qed.

(** ** More on the renderer *)

(** X7.  [getLastItem] returns what follows the last backslash of the
    path: the result has no backslash, a path with a backslash is a
    namespace, a backslash and the result, and a path without one is
    returned as it is. *)
Theorem getLastItem_is_last_segment (path : string) :
  hasBackslash (getLastItem path) = false /\
  if hasBackslash path
  then exists namespace,
         path = namespace +++ String (ascii_of_nat 92) (getLastItem path)
  else getLastItem path = path.
Proof.
  unfold hasBackslash.
  induction path as [|ch rest [IHno IHsplit]]; [split; reflexivity|].
  cbn [getLastItem list_ascii_of_string existsb].
  destruct (existsb (Ascii.eqb (ascii_of_nat 92)) (list_ascii_of_string rest))
    eqn:Erest.
  - split; [exact IHno|]. rewrite orb_true_r.
    destruct IHsplit as (namespace & Hrest).
    exists (String ch namespace). simpl. now rewrite <- Hrest.
  - rewrite orb_false_r, (Ascii.eqb_sym (ascii_of_nat 92) ch).
    destruct (Ascii.eqb_spec ch (ascii_of_nat 92)) as [->|Hne].
    + split; [exact Erest|]. now exists "".
    + split; [|exact eq_refl].
      cbn [list_ascii_of_string existsb]. rewrite Erest, orb_false_r.
      now apply Ascii.eqb_neq, not_eq_sym.
Qed.

Lemma filter_all {A : Type} (f : A -> bool) (l : list A) :
  forallb f l = true -> filter f l = l.
Proof.
  induction l as [|a l IH]; simpl; [reflexivity|].
  destruct (f a); simpl; [|discriminate]. intros H. now rewrite IH.
Qed.

Lemma filter_nothing {A : Type} (f : A -> bool) (l : list A) :
  forallb (fun a => negb (f a)) l = true -> filter f l = [].
Proof.
  induction l as [|a l IH]; simpl; [reflexivity|].
  destruct (f a); simpl; [discriminate|exact IH].
Qed.

Lemma filter_filter {A : Type} (f g : A -> bool) (l : list A) :
  filter f (filter g l) = filter (fun a => g a && f a) l.
Proof.
  induction l as [|a l IH]; simpl; [reflexivity|].
  destruct (g a); simpl; [destruct (f a); now rewrite IH|exact IH].
Qed.

(** X8.  [sortClassProperties] loses and duplicates no property, sorting
    again changes nothing, and a class whose properties are all nullable
    or all not nullable keeps its declaration order. *)
Theorem sortClassProperties_is_a_stable_partition (this : Renderer)
    (properties : list (string * ClassProperty)) :
  Permutation (sortClassProperties this properties) properties /\
  sortClassProperties this (sortClassProperties this properties)
  = sortClassProperties this properties /\
  (forallb (fun jp => isNullable this (type (snd jp))) properties = true \/
   forallb (fun jp => negb (isNullable this (type (snd jp)))) properties
   = true ->
   sortClassProperties this properties = properties).
Proof.
  split; [apply mapSortBy_Permutation|].
  unfold sortClassProperties.
  rewrite !(mapSortBy_two_keys _ (fun p => isNullable this (type p))).
  split.
  - rewrite !filter_app, !filter_filter.
    rewrite (filter_ext (fun a => negb (isNullable this (type (snd a)))
                                  && negb (isNullable this (type (snd a))))
                        (fun a => negb (isNullable this (type (snd a)))))
      by (intros a; now destruct (isNullable this (type (snd a)))).
    rewrite (filter_ext (fun a => isNullable this (type (snd a))
                                  && isNullable this (type (snd a)))
                        (fun a => isNullable this (type (snd a))))
      by (intros a; now destruct (isNullable this (type (snd a)))).
    rewrite (filter_nothing
               (fun a => isNullable this (type (snd a))
                         && negb (isNullable this (type (snd a)))))
      by (apply forallb_forall; intros a _;
          now destruct (isNullable this (type (snd a)))).
    rewrite (filter_nothing
               (fun a => negb (isNullable this (type (snd a)))
                         && isNullable this (type (snd a))))
      by (apply forallb_forall; intros a _;
          now destruct (isNullable this (type (snd a)))).
    now rewrite app_nil_r.
  - intros [H|H].
    + rewrite (filter_all _ _ H), filter_nothing; [reflexivity|].
      rewrite forallb_forall in *. intros a Ha.
      now rewrite negb_involutive, (H a Ha).
    + rewrite (filter_all _ _ H), filter_nothing; [apply app_nil_r|exact H].
Qed.

Lemma phpDehydrateType_at_most_one (this : Renderer) (jsonName : string)
    (lhs : option string) (args : Expr) (t : Ty) (lines : list Line) :
  phpDehydrateType this jsonName t lhs args = Emitted lines ->
  length lines <= 1.
Proof.
  revert lines.
  induction t as [| | | | | |items _|ref|values _|ref|ref members IH|kind]
    using Ty_members_ind; intros lines H;
    try (simpl in H; injection H as <-; simpl; lia).
  - rewrite phpDehydrateType_union in H.
    destruct (nullableFromUnion members) as [n|] eqn:E.
    + apply nullableFromUnion_In in E. rewrite Forall_forall in IH.
      now apply (IH n E).
    + injection H as <-. simpl. lia.
  - simpl in H. destruct (kind =? "date-time")%string; [|discriminate].
    injection H as <-. simpl. lia.
Qed.

Lemma forEach_shorter {A B : Type} (f : A -> Emit (list B)) (l : list A)
    (out : list B) (a : A) :
  (forall b o, In b l -> f b = Emitted o -> length o <= 1) ->
  In a l -> f a = Emitted [] ->
  forEach f l = Emitted out -> length out < length l.
Proof.
  intros Hone Hin Ha. revert out.
  assert (forall l' out',
             (forall b o, In b l' -> f b = Emitted o -> length o <= 1) ->
             forEach f l' = Emitted out' -> length out' <= length l') as Hle.
  { induction l' as [|b l' IH]; simpl; intros out' H1 H.
    - injection H as <-. simpl. lia.
    - destruct (f b) as [o| |] eqn:Eb; simpl in H; try discriminate.
      destruct (forEach f l') as [os| |] eqn:El; simpl in H;
        try discriminate.
      injection H as <-. rewrite length_app.
      pose proof (H1 b o (or_introl eq_refl) Eb).
      pose proof (IH os (fun b' o' Hb' => H1 b' o' (or_intror Hb')) eq_refl).
      lia. }
  induction l as [|b l IH]; simpl; intros out H; [contradiction|].
  destruct (f b) as [o| |] eqn:Eb; simpl in H; try discriminate.
  destruct (forEach f l) as [os| |] eqn:El; simpl in H; try discriminate.
  injection H as <-. rewrite length_app.
  destruct Hin as [->|Hin].
  - rewrite Ha in Eb. injection Eb as <-. simpl.
    pose proof (Hle l os (fun b' o' Hb' => Hone b' o' (or_intror Hb')) El).
    lia.
  - pose proof (Hone b o (or_introl eq_refl) Eb).
    pose proof (IH (fun b' o' Hb' => Hone b' o' (or_intror Hb')) Hin os
                   eq_refl).
    lia.
Qed.

Lemma mapM_length {A B : Type} (f : A -> Outcome B) (l : list A)
    (bs : list B) :
  mapM f l = Ok bs -> length bs = length l.
Proof.
  revert bs. induction l as [|a l IH]; simpl; intros bs H.
  - now injection H as <-.
  - destruct (f a); simpl in H; try discriminate.
    destruct (mapM f l) as [bs'| |]; simpl in H; try discriminate.
    injection H as <-. simpl. now rewrite (IH bs').
Qed.

(** The [return new] of a dehydrator constructs from as many values as it
    has argument lines. *)
Lemma exec_returns_new_values (accepts : string -> Value -> bool)
    (decls : list ClassDecl) (call : string -> Value -> Outcome Value)
    (pre : list Stmt) (className : string) (lines : list Line) (v : Value) :
  forallb isCheckOrLoop pre = true ->
  forall locals,
    exec accepts decls call locals (pre ++ [SReturnNew className lines])
    = Ok v ->
    exists values,
      length values = length lines /\
      construct accepts decls className values = Ok v.
Proof.
  induction pre as [|st pre IH]; intros Hpre locals H.
  - simpl in H.
    destruct (mapM _ lines) as [values| |] eqn:Ev; simpl in H;
      try discriminate.
    exists values. split; [exact (mapM_length _ _ _ Ev)|exact H].
  - simpl in Hpre. apply andb_true_iff in Hpre. destruct Hpre as [Hs Hpre].
    destruct st; try discriminate; simpl in H.
    + destruct (local "data" locals); try discriminate.
      destruct (isset (lookup name entries)); [|discriminate].
      now apply (IH Hpre locals).
    + destruct (evalLoop decls call locals l) as [locals'| |];
        simpl in H; try discriminate.
      now apply (IH Hpre locals').
Qed.

(** X9.  A property whose type is a union that is not a nullable one gets
    no argument in the [return new] of the top-level [dehydrate], while
    the constructor [emitClassDefinition] declares has a parameter for it:
    the call passes fewer arguments than the constructor takes, and
    [dehydrate] returns a typed value on no input. *)
Theorem dehydrate_drops_union_property (accepts : string -> Value -> bool)
    (decls : list ClassDecl) (this : Renderer) (fuel0 c : nat)
    (className : string) (d : ClassDecl) (items : list Item)
    (jsonName : string) (p : ClassProperty) (ref : nat) (members : list Ty) :
  emitClassDefinition this c className = Emitted (Some d) ->
  findDecl decls className = Some d ->
  emitTopClassHydratorDehydrator this fuel0 c className = Emitted items ->
  In (jsonName, p) (getProperties this c) ->
  type p = UnionType ref members ->
  nullableFromUnion members = None ->
  (exists lines,
      topDehydrateLines this c = Emitted lines /\
      length lines < length (constructorParams d)) /\
  forall fuel data v,
    callMethod accepts decls items fuel "dehydrate" data <> Ok v.
Proof.
  intros Hd Hfind Hitems Hin Hty Hnone.
  destruct (findMethod_dehydrate _ _ _ _ _ Hitems) as (lines & El & Hm).
  assert (length lines < length (constructorParams d)) as Hlt.
  { rewrite <- (length_map snd (constructorParams d)).
    rewrite (emitClassDefinition_params _ _ _ _ Hd), length_map.
    rewrite <- (length_map
                  (fun jp => (propertyName this c (fst jp), fst jp, snd jp))).
    fold (forEachClassProperty this c).
    apply forEachClassProperty_In in Hin.
    revert El.
    apply forEach_shorter with (a := (propertyName this c jsonName,
                                      jsonName, p)).
    - intros [[n j] q] o _. apply phpDehydrateType_at_most_one.
    - exact Hin.
    - cbv beta iota. rewrite Hty, phpDehydrateType_union. now rewrite Hnone. }
  split; [now exists lines|].
  intros fuel data v Hrun. apply callMethod_Ok in Hrun.
  destruct Hrun as (fuel' & paramDecl & paramVar & body & _ & _ & Hm'
                    & _ & Hrun).
  rewrite Hm in Hm'. injection Hm' as <- <- <-.
  apply exec_returns_new_values in Hrun; [|apply presenceChecks_are_checks].
  destruct Hrun as (values & Hlen & Hc).
  unfold construct in Hc. rewrite Hfind in Hc.
  destruct (Nat.ltb_spec (length values) (length (constructorParams d)));
    [discriminate|lia].
Qed.

(** *** Classes of copied properties *)

Lemma copies_dehydrate (this : Renderer) (jsonName : string) (t : Ty)
    (lhs : option string) (args : Expr) :
  copies t = true ->
  exists tg, phpDehydrateType this jsonName t lhs args
             = Emitted [{| target := lhs; value := args; tag := tg |}].
Proof.
  assert (forall n, isCopied n = true ->
                    exists tg, phpDehydrateType this jsonName n lhs args
                               = Emitted [{| target := lhs; value := args;
                                             tag := tg |}]) as Hplain
    by (intros n Hn; destruct n; try discriminate; eexists; reflexivity).
  intros H. destruct t; try (now apply Hplain).
  simpl in H. rewrite phpDehydrateType_union.
  destruct (nullableFromUnion members) as [n|]; [|discriminate].
  now apply Hplain.
Qed.

Lemma copies_hydrate (this : Renderer) (jsonName : string) (t : Ty)
    (lhs : option string) (args : Expr) :
  copies t = true ->
  exists tg, phpHydrateType this jsonName t lhs args
             = Emitted [{| target := lhs; value := args; tag := tg |}].
Proof.
  assert (forall n, isCopied n = true ->
                    exists tg, phpHydrateType this jsonName n lhs args
                               = Emitted [{| target := lhs; value := args;
                                             tag := tg |}]) as Hplain
    by (intros n Hn; destruct n; try discriminate; eexists; reflexivity).
  intros H. destruct t; try (now apply Hplain).
  simpl in H. rewrite phpHydrateType_union.
  destruct (nullableFromUnion members) as [n|]; [|discriminate].
  now apply Hplain.
Qed.

Lemma copies_not_array (p : ClassProperty) :
  copies (type p) = true -> isArrayType (arrayPropertyType p) = false.
Proof.
  unfold arrayPropertyType. destruct (type p); try reflexivity;
    try discriminate.
  simpl. destruct (nullableFromUnion members) as [n|]; [|discriminate].
  now destruct n.
Qed.

Lemma forEachClassProperty_copies (this : Renderer) (c : nat) :
  Forall (fun jp => copies (type (snd jp)) = true) (getProperties this c) ->
  Forall (fun njp : string * string * ClassProperty =>
            copies (type (snd njp)) = true)
         (forEachClassProperty this c).
Proof.
  rewrite !Forall_forall. intros H [[n j] p] Hin.
  apply forEachClassProperty_name in Hin. destruct Hin as [_ Hin].
  exact (H (j, p) Hin).
Qed.

Lemma flat_map_nil {A B : Type} (f : A -> list B) (l : list A) :
  Forall (fun a => f a = []) l -> flat_map f l = [].
Proof.
  induction 1 as [|a l Ha _ IH]; simpl; [reflexivity|]. now rewrite Ha, IH.
Qed.

Lemma copies_no_loops (this : Renderer) (c : nat) :
  Forall (fun jp => copies (type (snd jp)) = true) (getProperties this c) ->
  emitArrayHydrateDefinition this c = [] /\
  emitArrayDehydrateDefinition this c = [].
Proof.
  intros H. apply forEachClassProperty_copies in H.
  split; apply flat_map_nil; eapply Forall_impl; try exact H;
    intros [[n j] p] Hp; simpl in *; now rewrite (copies_not_array p Hp).
Qed.

Lemma copies_getClassTypeFromType (this : Renderer) (t : Ty) :
  copies t = true -> getClassTypeFromType this t = None.
Proof.
  destruct t; try discriminate; try reflexivity.
  simpl. unfold nullableClass.
  destruct (nullableFromUnion members) as [[]|]; try discriminate;
    reflexivity.
Qed.

(** The traversals emit nothing for a class of copied properties. *)
Lemma copies_no_nested (this : Renderer) (c : nat)
    (emitNested : nat -> string -> Ty -> Emit (list Item)) (fuel : nat)
    (nested : list Item) :
  (forall name t, getClassTypeFromType this t = None ->
                  forall out, emitNested fuel name t = Emitted out ->
                              out = []) ->
  Forall (fun jp => copies (type (snd jp)) = true) (getProperties this c) ->
  forEach
    (fun njp : string * string * ClassProperty =>
       let '(name, _jsonName, classProperty) := njp in
       emitNested fuel name (type classProperty))
    (forEachClassProperty this c) = Emitted nested ->
  nested = [].
Proof.
  intros Hnone Hcopies H. apply forEachClassProperty_copies in Hcopies.
  revert nested H.
  induction Hcopies as [|[[n j] p] l Hp _ IH]; simpl; intros nested H.
  - now injection H as <-.
  - destruct (emitNested fuel n (type p)) as [o| |] eqn:Eo; simpl in H;
      try discriminate.
    destruct (forEach _ l) as [os| |] eqn:El; simpl in H; try discriminate.
    injection H as <-.
    rewrite (Hnone n (type p) (copies_getClassTypeFromType this _ Hp) o Eo).
    now apply IH.
Qed.

(** The hydrator class of a class of copied properties has the two
    methods [hydrate] and [dehydrate] and nothing else: it loads. *)
Lemma copies_redeclared (this : Renderer) (fuel c : nat) (className : string)
    (items : list Item) :
  emitTopClassHydratorDehydrator this fuel c className = Emitted items ->
  Forall (fun jp => copies (type (snd jp)) = true) (getProperties this c) ->
  redeclared items = None.
Proof.
  unfold emitTopClassHydratorDehydrator. intros H Hcopies.
  destruct (emitTopHydrateDefinition this fuel className c)
    as [hydrate| |] eqn:Eh; simpl in H; try discriminate.
  destruct (emitTopDehydrateDefinition this fuel className c)
    as [dehydrate| |] eqn:Ed; simpl in H; try discriminate.
  injection H as <-.
  unfold emitTopHydrateDefinition in Eh.
  destruct (hydrateLines this c "message") as [hl| |]; simpl in Eh;
    try discriminate.
  match type of Eh with
  | context [forEach ?f ?l] =>
      destruct (forEach f l) as [nh| |] eqn:Enh
  end; simpl in Eh; try discriminate.
  injection Eh as <-.
  apply (copies_no_nested this c (emitNestedHydrateDefinition this)) in Enh;
    [|intros name t Ht out Ho; destruct fuel; [discriminate|];
      simpl in Ho; rewrite Ht in Ho; now injection Ho as <-
     |exact Hcopies].
  unfold emitTopDehydrateDefinition in Ed.
  destruct (topDehydrateLines this c) as [dl| |]; simpl in Ed;
    try discriminate.
  match type of Ed with
  | context [forEach ?f ?l] =>
      destruct (forEach f l) as [nd| |] eqn:End
  end; simpl in Ed; try discriminate.
  injection Ed as <-.
  apply (copies_no_nested this c (emitNestedDehydrateDefinition this)) in End;
    [|intros name t Ht out Ho; destruct fuel; [discriminate|];
      simpl in Ho; rewrite Ht in Ho; now injection Ho as <-
     |exact Hcopies].
  subst nh nd. reflexivity.
Qed.

(** The values of the lines a [forEach] emitted, one line per element. *)
Lemma forEach_mapM {A : Type} (f : A -> Emit (list Line))
    (eval : Expr -> Outcome Value) (g : A -> Value) (l : list A)
    (lines : list Line) :
  (forall a, In a l ->
             exists line,
               f a = Emitted [line] /\ eval (value line) = Ok (g a)) ->
  forEach f l = Emitted lines ->
  mapM (fun line => eval (value line)) lines = Ok (map g l).
Proof.
  revert lines. induction l as [|a l IH]; simpl; intros lines Hf H.
  - now injection H as <-.
  - destruct (Hf a (or_introl eq_refl)) as (line & Ea & Ev).
    rewrite Ea in H. simpl in H.
    destruct (forEach f l) as [os| |] eqn:El; simpl in H; try discriminate.
    injection H as <-. simpl. rewrite Ev. simpl.
    now rewrite (IH os (fun b Hb => Hf b (or_intror Hb)) eq_refl).
Qed.

Lemma exec_presence_checks (accepts : string -> Value -> bool)
    (decls : list ClassDecl) (call : string -> Value -> Outcome Value)
    (locals : list (string * Value)) (entries : list (string * Value))
    (names : list string) (rest : list Stmt) :
  local "data" locals = VArray entries ->
  exec accepts decls call locals (map SIsset names ++ rest) =
  match find (fun name => negb (isset (lookup name entries))) names with
  | Some name =>
      Throw (RuntimeException ("Property '" +++ name +++ "' not set"))
  | None => exec accepts decls call locals rest
  end.
Proof.
  intros Hdata. induction names as [|name names IH]; simpl; [reflexivity|].
  rewrite Hdata. now destruct (isset (lookup name entries)).
Qed.

(** The top-level [dehydrate] of a class of copied properties. *)
Lemma dehydrate_copies (accepts : string -> Value -> bool)
    (decls : list ClassDecl) (this : Renderer) (fuel0 fuel c : nat)
    (className : string) (items : list Item)
    (entries : list (string * Value)) :
  emitTopClassHydratorDehydrator this fuel0 c className = Emitted items ->
  Forall (fun jp => copies (type (snd jp)) = true) (getProperties this c) ->
  accepts "array" (VArray entries) = true ->
  callMethod accepts decls items (S fuel) "dehydrate" (VArray entries) =
  match firstMissing this c entries with
  | Some name =>
      Throw (RuntimeException ("Property '" +++ name +++ "' not set"))
  | None => construct accepts decls className (readValues this c entries)
  end.
Proof.
  intros Hitems Hcopies Harray.
  destruct (findMethod_dehydrate _ _ _ _ _ Hitems) as (lines & El & Hm).
  rewrite callMethod_S, (copies_redeclared _ _ _ _ _ Hitems Hcopies), Hm.
  simpl. rewrite Harray.
  rewrite (proj2 (copies_no_loops this c Hcopies)), app_nil_r.
  rewrite presenceChecks_spec, <- (map_map _ SIsset).
  fold (checkedNames this c).
  rewrite (exec_presence_checks _ _ _ _ entries) by reflexivity.
  fold (firstMissing this c entries).
  destruct (firstMissing this c entries); [reflexivity|].
  assert (mapM (fun line =>
                  evalExpr decls (callMethod accepts decls items fuel)
                           [("data", VArray entries)] (value line)) lines
          = Ok (map (fun njp : string * string * ClassProperty =>
                       index (snd (fst njp)) entries)
                    (forEachClassProperty this c))) as Hvalues.
  { refine (forEach_mapM _ _ _ _ _ _ El). intros [[n j] p] Hin.
    pose proof (forEachClassProperty_copies this c Hcopies) as Hall.
    rewrite Forall_forall in Hall. specialize (Hall _ Hin). simpl in Hall.
    destruct (copies_dehydrate this j (type p) None
                (if isNullable this (type p)
                 then ECoalesce (EData j) else EData j) Hall) as (tg & Etg).
    eexists. split; [exact Etg|]. simpl.
    now destruct (isNullable this (type p)). }
  cbn [exec]. rewrite Hvalues. simpl.
  unfold readValues, forEachClassProperty. now rewrite map_map.
Qed.

(** The method [hydrate] of the hydrator class is the one
    [emitTopHydrateDefinition] emitted. *)
Lemma findMethod_hydrate (this : Renderer) (fuel c : nat)
    (className : string) (items : list Item) :
  emitTopClassHydratorDehydrator this fuel c className = Emitted items ->
  exists lines,
    hydrateLines this c "message" = Emitted lines /\
    findMethod items "hydrate" =
    Some ((if (modelInterfaceOption this =? "")%string then ""
           else getLastItem (modelInterfaceOption this) +++ " "),
          "message",
          [SInstanceOf className]
          ++ map SLoop (emitArrayHydrateDefinition this c) ++ [SNewRes]
          ++ map SAssign lines ++ [SReturnRes]).
Proof.
  unfold emitTopClassHydratorDehydrator. intros H.
  destruct (emitTopHydrateDefinition this fuel className c)
    as [hydrate| |] eqn:Eh; simpl in H; try discriminate.
  destruct (emitTopDehydrateDefinition this fuel className c)
    as [dehydrate| |]; simpl in H; try discriminate.
  injection H as <-. unfold emitTopHydrateDefinition in Eh.
  destruct (hydrateLines this c "message") as [lines| |]; simpl in Eh;
    try discriminate.
  match type of Eh with
  | context [forEach ?f ?l] => destruct (forEach f l) as [nested| |]
  end; simpl in Eh; try discriminate.
  injection Eh as <-. exists lines. split; reflexivity.
Qed.

Lemma lookup_NoDup {A : Type} (l : list (string * A)) (key : string) (a : A) :
  NoDup (map fst l) -> In (key, a) l -> lookup key l = Some a.
Proof.
  unfold lookup. induction l as [|[k b] l IH]; simpl; intros Hnd Hin;
    [contradiction|].
  inversion Hnd as [|? ? Hk Hnd']; subst.
  destruct Hin as [Heq|Hin].
  - injection Heq as -> ->. now rewrite String.eqb_refl.
  - destruct (String.eqb_spec k key) as [->|Hne]; [|now apply IH].
    exfalso. apply Hk. apply in_map_iff. now exists (key, a).
Qed.

Lemma setProperty_fresh (name : string) (v : Value)
    (properties : list (string * Value)) :
  ~ In name (map fst properties) ->
  setProperty name v properties = properties ++ [(name, v)].
Proof.
  induction properties as [|[n w] properties IH]; simpl; intros H;
    [reflexivity|].
  destruct (String.eqb_spec n name) as [->|Hne]; [exfalso; auto|].
  rewrite IH; [reflexivity|]. intros Hin. apply H. now right.
Qed.

(** The assignments of [hydrate] on a class of copied properties add one
    property per line to [$res]. *)
Lemma exec_assignments (accepts : string -> Value -> bool)
    (decls : list ClassDecl) (call : string -> Value -> Outcome Value)
    (message : Value) (pairs : list (string * Value)) :
  forall (lines : list Line) (res : list (string * Value)),
    Forall2 (fun line pair =>
               target line = Some (fst pair) /\
               forall res', evalExpr decls call
                              [("message", message);
                               ("res", VObject "stdClass" res')]
                              (value line) = Ok (snd pair))
            lines pairs ->
    NoDup (map fst res ++ map fst pairs) ->
    exec accepts decls call
         [("message", message); ("res", VObject "stdClass" res)]
         (map SAssign lines ++ [SReturnRes])
    = Ok (VObject "stdClass" (res ++ pairs)).
Proof.
  intros lines res H. revert res.
  induction H as [|line [name v] lines pairs [Ht Hv] _ IH]; intros res Hnd.
  - simpl. now rewrite app_nil_r.
  - simpl in Ht, Hv. cbn [map app exec]. rewrite Hv, Ht. simpl.
    rewrite setProperty_fresh.
    + rewrite IH; [now rewrite <- app_assoc|].
      rewrite map_app, <- app_assoc. exact Hnd.
    + intros Hin. simpl in Hnd. apply NoDup_remove_2 in Hnd.
      apply Hnd. apply in_or_app. now left.
Qed.

Lemma emitClassDefinition_getters (this : Renderer) (c : nat)
    (className : string) (d : ClassDecl) :
  emitClassDefinition this c className = Emitted (Some d) ->
  getters d =
  map (fun jp => (getterName this c (fst jp), propertyName this c (fst jp)))
      (sortClassProperties this (getProperties this c)).
Proof.
  unfold emitClassDefinition. intros H.
  destruct (isArray this c); [discriminate|].
  match type of H with
  | context [forEach ?f ?l] => destruct (forEach f l) as [params| |]
  end; simpl in H; try discriminate.
  injection H as <-. simpl. unfold forEachClassProperty. now rewrite map_map.
Qed.

Lemma Forall2_forEach_lines {A : Type} (f : A -> Emit (list Line))
    (P : Line -> A -> Prop) (l : list A) (lines : list Line) :
  (forall a, In a l -> exists line, f a = Emitted [line] /\ P line a) ->
  forEach f l = Emitted lines -> Forall2 P lines l.
Proof.
  revert lines. induction l as [|a l IH]; simpl; intros lines Hf H.
  - injection H as <-. constructor.
  - destruct (Hf a (or_introl eq_refl)) as (line & Ea & Hp).
    rewrite Ea in H. simpl in H.
    destruct (forEach f l) as [os| |] eqn:El; simpl in H; try discriminate.
    injection H as <-. simpl. constructor; [exact Hp|].
    exact (IH os (fun b Hb => Hf b (or_intror Hb)) eq_refl).
Qed.

Lemma Forall2_map_r {A B C : Type} (P : A -> C -> Prop) (g : B -> C)
    (l : list A) (l' : list B) :
  Forall2 (fun a b => P a (g b)) l l' -> Forall2 P l (map g l').
Proof. induction 1; simpl; constructor; assumption. Qed.

(** The top-level [hydrate] of a class of copied properties. *)
Lemma hydrate_copies (accepts : string -> Value -> bool)
    (decls : list ClassDecl) (this : Renderer) (fuel0 fuel c : nat)
    (className : string) (d : ClassDecl) (items : list Item)
    (properties : list (string * Value)) :
  emitClassDefinition this c className = Emitted (Some d) ->
  findDecl decls className = Some d ->
  emitTopClassHydratorDehydrator this fuel0 c className = Emitted items ->
  modelInterfaceOption this = "" ->
  Forall (fun jp => copies (type (snd jp)) = true) (getProperties this c) ->
  NoDup (map (fun jp => propertyName this c (fst jp)) (getProperties this c)) ->
  NoDup (map (fun jp => getterName this c (fst jp)) (getProperties this c)) ->
  callMethod accepts decls items (S fuel) "hydrate"
             (VObject className properties)
  = Ok (VObject "stdClass" (writtenProperties this c properties)).
Proof.
  intros Hd Hfind Hitems Hopt Hcopies Hnames Hgetters.
  destruct (findMethod_hydrate _ _ _ _ _ Hitems) as (lines & El & Hm).
  rewrite callMethod_S, (copies_redeclared _ _ _ _ _ Hitems Hcopies), Hm, Hopt.
  simpl.
  rewrite String.eqb_refl, (proj1 (copies_no_loops this c Hcopies)). simpl.
  assert (Permutation (sortClassProperties this (getProperties this c))
                      (getProperties this c)) as Hperm
    by apply mapSortBy_Permutation.
  apply (exec_assignments accepts decls _ _
           (writtenProperties this c properties) lines []).
  - unfold writtenProperties.
    apply Forall2_map_r.
    unfold hydrateLines, forEachClassProperty in El.
    revert El.
    rewrite (forEach_ext _
               (fun njp : string * string * ClassProperty =>
                  phpHydrateType this (snd (fst njp)) (type (snd njp))
                    (Some (fst (fst njp)))
                    (EGet "message" (getterName this c (snd (fst njp))))))
      by (intros [[n j] p]; reflexivity).
    intros El.
    assert (forall (l : list (string * ClassProperty)) lines',
               incl l (sortClassProperties this (getProperties this c)) ->
               forEach
                 (fun njp : string * string * ClassProperty =>
                    phpHydrateType this (snd (fst njp)) (type (snd njp))
                      (Some (fst (fst njp)))
                      (EGet "message" (getterName this c (snd (fst njp)))))
                 (map (fun jp => (propertyName this c (fst jp), fst jp,
                                  snd jp)) l) = Emitted lines' ->
               Forall2
                 (fun line (jp : string * ClassProperty) =>
                    target line = Some (propertyName this c (fst jp)) /\
                    forall res',
                      evalExpr decls (callMethod accepts decls items fuel)
                        [("message", VObject className properties);
                         ("res", VObject "stdClass" res')] (value line)
                      = Ok (index (propertyName this c (fst jp)) properties))
                 lines' l) as Hgen.
    { induction l as [|[j p] l IH]; simpl; intros lines' Hincl H.
      - injection H as <-. constructor.
      - assert (In (j, p) (getProperties this c)) as Hin
          by (eapply Permutation_in; [exact Hperm|];
              apply Hincl; now left).
        rewrite Forall_forall in Hcopies.
        destruct (copies_hydrate this j (type p)
                    (Some (propertyName this c j))
                    (EGet "message" (getterName this c j))
                    (Hcopies _ Hin)) as (tg & Etg).
        rewrite Etg in H. simpl in H.
        match type of H with
        | context [forEach ?f ?l'] =>
            destruct (forEach f l') as [os| |] eqn:Eos
        end; simpl in H; try discriminate.
        injection H as <-. constructor.
        + split; [reflexivity|]. intros res'. simpl.
          unfold callGetter. rewrite Hfind.
          rewrite (emitClassDefinition_getters _ _ _ _ Hd).
          rewrite (lookup_NoDup _ (getterName this c j)
                                (propertyName this c j)); [reflexivity| |].
          * rewrite map_map. simpl.
            eapply Permutation_NoDup; [|exact Hgetters].
            apply Permutation_map. now symmetry.
          * apply in_map_iff. exists (j, p). split; [reflexivity|].
            apply Hincl. now left.
        + apply IH; [|reflexivity].
          intros a Ha. apply Hincl. now right. }
    apply Hgen; [apply incl_refl|exact El].
  - simpl. unfold writtenProperties. rewrite map_map. simpl.
    eapply Permutation_NoDup; [|exact Hnames].
    apply Permutation_map. now symmetry.
Qed.

Lemma combine_maps {A B C : Type} (f : A -> B) (g : A -> C) (l : list A) :
  combine (map f l) (map g l) = map (fun a => (f a, g a)) l.
Proof. induction l as [|a l IH]; simpl; [reflexivity|now rewrite IH]. Qed.

Lemma index_pairs {A : Type} (f : A -> string) (g : A -> Value)
    (l : list A) (a : A) :
  NoDup (map f l) -> In a l ->
  index (f a) (map (fun a => (f a, g a)) l) = g a.
Proof.
  intros Hnd Hin. unfold index.
  rewrite (lookup_NoDup _ (f a) (g a)); [reflexivity| |].
  - now rewrite map_map.
  - apply in_map_iff. now exists a.
Qed.

Lemma pairs_of_keys (entries : list (string * Value)) :
  NoDup (map fst entries) ->
  map (fun key => (key, index key entries)) (map fst entries) = entries.
Proof.
  intros Hnd. rewrite map_map.
  rewrite <- (map_id entries) at 2. apply map_ext_in. intros [k v] Hin.
  simpl. unfold index. now rewrite (lookup_NoDup _ k v Hnd Hin).
Qed.

(** X10.  The top-level [dehydrate] of a class whose properties are all
    copied (no class, array or date-time among them), on an array: it
    fails with "Property '...' not set" for the first property that is not
    nullable and whose resolved name is not set, in the order of
    [sortClassProperties]; otherwise it passes the constructor the entries
    under the JSON names, a missing one as null, and returns the object
    when PHP accepts the arguments for the declared parameter types. *)
Theorem dehydrate_of_copied_properties (accepts : string -> Value -> bool)
    (decls : list ClassDecl) (this : Renderer) (fuel0 fuel c : nat)
    (className : string) (d : ClassDecl) (items : list Item)
    (entries : list (string * Value)) :
  emitClassDefinition this c className = Emitted (Some d) ->
  findDecl decls className = Some d ->
  emitTopClassHydratorDehydrator this fuel0 c className = Emitted items ->
  Forall (fun jp => copies (type (snd jp)) = true) (getProperties this c) ->
  accepts "array" (VArray entries) = true ->
  callMethod accepts decls items (S fuel) "dehydrate" (VArray entries) =
  match firstMissing this c entries with
  | Some name =>
      Throw (RuntimeException ("Property '" +++ name +++ "' not set"))
  | None =>
      if forallb (fun pv => accepts (fst (fst pv)) (snd pv))
                 (combine (constructorParams d) (readValues this c entries))
      then Ok (VObject className
                       (combine (fieldOrder this c)
                                (readValues this c entries)))
      else Throw TypeError
  end.
Proof.
  intros Hd Hfind Hitems Hcopies Harray.
  rewrite (dehydrate_copies _ _ _ _ _ _ _ _ _ Hitems Hcopies Harray).
  destruct (firstMissing this c entries); [reflexivity|].
  unfold construct. rewrite Hfind.
  pose proof (emitClassDefinition_params _ _ _ _ Hd) as Hparams.
  assert (length (readValues this c entries)
          = length (constructorParams d)) as Hlen.
  { rewrite <- (length_map snd (constructorParams d)), Hparams.
    unfold readValues. now rewrite !length_map. }
  rewrite Hlen, Nat.ltb_irrefl, Hparams, fieldOrder_spec. reflexivity.
Qed.

(** X11.  Round trip on a class of copied properties, with resolved names
    and getter names that are pairwise distinct: [hydrate] of the object
    [dehydrate] returned has, for every property and in the order of
    [sortClassProperties], under the resolved name the entry the array had
    under the JSON name.  When no name is changed and the array lists the
    properties in that order, the properties of the result are the entries
    of the array. *)
Theorem hydrate_of_dehydrate_copied_properties
    (accepts : string -> Value -> bool) (decls : list ClassDecl)
    (this : Renderer) (fuel0 fuel fuel' c : nat) (className : string)
    (d : ClassDecl) (items : list Item) (entries : list (string * Value))
    (typed : Value) :
  emitClassDefinition this c className = Emitted (Some d) ->
  findDecl decls className = Some d ->
  emitTopClassHydratorDehydrator this fuel0 c className = Emitted items ->
  modelInterfaceOption this = "" ->
  Forall (fun jp => copies (type (snd jp)) = true) (getProperties this c) ->
  NoDup (map (fun jp => propertyName this c (fst jp)) (getProperties this c)) ->
  NoDup (map (fun jp => getterName this c (fst jp)) (getProperties this c)) ->
  callMethod accepts decls items fuel "dehydrate" (VArray entries)
  = Ok typed ->
  callMethod accepts decls items (S fuel') "hydrate" typed
  = Ok (VObject "stdClass"
          (map (fun jp => (propertyName this c (fst jp),
                           index (fst jp) entries))
               (sortClassProperties this (getProperties this c)))) /\
  ((forall jp, In jp (getProperties this c) ->
               propertyName this c (fst jp) = fst jp) ->
   map fst entries
   = map fst (sortClassProperties this (getProperties this c)) ->
   callMethod accepts decls items (S fuel') "hydrate" typed
   = Ok (VObject "stdClass" entries)).
Proof.
  intros Hd Hfind Hitems Hopt Hcopies Hnames Hgetters Hrun.
  assert (Permutation (sortClassProperties this (getProperties this c))
                      (getProperties this c)) as Hperm
    by apply mapSortBy_Permutation.
  assert (NoDup (map (fun jp => propertyName this c (fst jp))
                     (sortClassProperties this (getProperties this c))))
    as Hsorted
    by (eapply Permutation_NoDup; [|exact Hnames];
        apply Permutation_map; now symmetry).
  assert (typed =
          VObject className
            (map (fun jp => (propertyName this c (fst jp),
                             index (fst jp) entries))
                 (sortClassProperties this (getProperties this c)))) as ->.
  { destruct fuel as [|fuel]; [discriminate|].
    assert (accepts "array" (VArray entries) = true) as Harray.
    { destruct (findMethod_dehydrate _ _ _ _ _ Hitems) as (lines & _ & Hm).
      destruct (callMethod_Ok _ _ _ _ _ _ _ Hrun)
        as (fuel1 & paramDecl & paramVar & body & _ & _ & Hm' & Hok & _).
      rewrite Hm in Hm'. injection Hm' as <- <- <-. exact Hok. }
    rewrite (dehydrate_copies _ _ _ _ _ _ _ _ _ Hitems Hcopies Harray)
      in Hrun.
    destruct (firstMissing this c entries); [discriminate|].
    unfold construct in Hrun. rewrite Hfind in Hrun.
    destruct (_ <? _)%nat; [discriminate|].
    destruct (forallb _ _); [|discriminate].
    injection Hrun as <-. f_equal.
    rewrite (emitClassDefinition_params _ _ _ _ Hd).
    unfold readValues. apply combine_maps. }
  assert (callMethod accepts decls items (S fuel') "hydrate"
            (VObject className
               (map (fun jp => (propertyName this c (fst jp),
                                index (fst jp) entries))
                    (sortClassProperties this (getProperties this c))))
          = Ok (VObject "stdClass"
                  (map (fun jp => (propertyName this c (fst jp),
                                   index (fst jp) entries))
                       (sortClassProperties this (getProperties this c)))))
    as Hhydrate.
  { rewrite (hydrate_copies _ _ _ _ _ _ _ _ _ _ Hd Hfind Hitems Hopt Hcopies
               Hnames Hgetters).
    do 2 f_equal. unfold writtenProperties. apply map_ext_in.
    intros jp Hin. f_equal.
    exact (index_pairs (fun jp => propertyName this c (fst jp))
                       (fun jp => index (fst jp) entries) _ jp Hsorted Hin). }
  split; [exact Hhydrate|].
  intros Hsame Hkeys. rewrite Hhydrate. do 2 f_equal.
  rewrite (map_ext_in _ (fun jp => (fst jp, index (fst jp) entries))).
  - rewrite <- (map_map fst (fun key => (key, index key entries))), <- Hkeys.
    apply pairs_of_keys. rewrite Hkeys.
    rewrite (map_ext_in fst (fun jp => propertyName this c (fst jp)));
      [exact Hsorted|].
    intros jp Hin. symmetry. apply Hsame.
    eapply Permutation_in; [exact Hperm|exact Hin].
  - intros jp Hin. f_equal. apply Hsame.
    eapply Permutation_in; [exact Hperm|exact Hin].
Qed.

(** [Box] has one property, the union of an integer and a string: its
    [dehydrate] calls the constructor without an argument. *)
Lemma dehydrate_drops_union_property_witness :
  topDehydrateLines (rendererOf boxGraph sameName) 0 = Emitted [] /\
  runOn boxGraph sameName 0 "dehydrate" (VArray [("v", VInt 1)])
  = Throw ArgumentCountError /\
  forall v,
    runOn boxGraph sameName 0 "dehydrate" (VArray [("v", VInt 1)]) <> Ok v.
Proof.
  split; [reflexivity|]. split; [reflexivity|]. intros v.
  exact (proj2 (dehydrate_drops_union_property
                  lenient (declsOf boxGraph sameName)
                  (rendererOf boxGraph sameName) 16 0 "Box"
                  {| declName := "Box";
                     constructorParams := [("", "v")];
                     getters := [("getV", "v")] |}
                  _ "v" (required (UnionType 1 [IntegerType; StringType]))
                  1 [IntegerType; StringType]
                  eq_refl eq_refl eq_refl (or_introl eq_refl) eq_refl
                  eq_refl)
               16 (VArray [("v", VInt 1)]) v).
Defined.

(** [Pair] without its required [id] is rejected; without its nullable
    [note] it is built with null for it. *)
Lemma dehydrate_of_copied_properties_witness :
  runOn pairGraph sameName 0 "dehydrate" (VArray [("note", VString "n")])
  = Throw (RuntimeException "Property 'id' not set") /\
  runOn pairGraph sameName 0 "dehydrate" (VArray [("id", VString "7")])
  = Ok (VObject "Pair" [("id", VString "7"); ("note", VNull)]).
Proof.
  pose (d := {| declName := "Pair";
                constructorParams := [("string", "id"); ("?string", "note")];
                getters := [("getId", "id"); ("getNote", "note")] |}).
  assert (Forall (fun jp : string * ClassProperty =>
                    copies (type (snd jp)) = true)
                 (getProperties (rendererOf pairGraph sameName) 0)) as Hcopies
    by (repeat constructor).
  split.
  - exact (dehydrate_of_copied_properties
             lenient (declsOf pairGraph sameName)
             (rendererOf pairGraph sameName) 16 15 0 "Pair" d _
             [("note", VString "n")] eq_refl eq_refl eq_refl Hcopies eq_refl).
  - exact (dehydrate_of_copied_properties
             lenient (declsOf pairGraph sameName)
             (rendererOf pairGraph sameName) 16 15 0 "Pair" d _
             [("id", VString "7")] eq_refl eq_refl eq_refl Hcopies eq_refl).
Defined.

(** [Pair] comes back from [hydrate] as it went into [dehydrate]. *)
Lemma hydrate_of_dehydrate_copied_properties_witness :
  runOn pairGraph sameName 0 "dehydrate"
        (VArray [("id", VString "7"); ("note", VString "n")])
  = Ok (VObject "Pair" [("id", VString "7"); ("note", VString "n")]) /\
  runOn pairGraph sameName 0 "hydrate"
        (VObject "Pair" [("id", VString "7"); ("note", VString "n")])
  = Ok (VObject "stdClass" [("id", VString "7"); ("note", VString "n")]).
Proof.
  split; [reflexivity|].
  refine (proj2 (hydrate_of_dehydrate_copied_properties
                   lenient (declsOf pairGraph sameName)
                   (rendererOf pairGraph sameName) 16 16 15 0 "Pair"
                   {| declName := "Pair";
                      constructorParams :=
                        [("string", "id"); ("?string", "note")];
                      getters := [("getId", "id"); ("getNote", "note")] |}
                   _ [("id", VString "7"); ("note", VString "n")]
                   (VObject "Pair"
                            [("id", VString "7"); ("note", VString "n")])
                   eq_refl eq_refl eq_refl eq_refl _ _ _ eq_refl) _ eq_refl).
  - repeat constructor.
  - repeat constructor; simpl; intuition discriminate.
  - repeat constructor; simpl; intuition discriminate.
  - intros jp _. reflexivity.
Defined.

End Php.

(* ================================================================== *)
(** * Golang.ts: the types and the files *)
(* ================================================================== *)

Module GoRenderer.

Import Golang.

Local Open Scope list_scope.
Local Set Warnings "-register-all".

Local Notation "a +++ b" := (String.append a b)
  (at level 60, right associativity).

(** ** The Go type of a type

    The type graph is the one of module [Php]. *)

(** [t.kind], for the kinds the renderer names; the kind of a transformed
    string is a name of its own, none of these. *)
Definition kind (t : Php.Ty) : option TypeKind :=
  match t with
  | Php.AnyType => Some KAny
  | Php.NullType => Some KNull
  | Php.BoolType => Some KBool
  | Php.IntegerType => Some KInteger
  | Php.DoubleType => Some KDouble
  | Php.StringType => Some KString
  | Php.ArrayType _ => Some KArray
  | Php.ClassType _ => Some KClass
  | Php.MapType _ => Some KMap
  | Php.EnumType _ => Some KEnum
  | Php.UnionType _ _ => Some KUnion
  | Php.TransformedStringType _ => None
  end.

(** [kinds.indexOf(t.kind) >= 0]. *)
Definition kindIn (kinds : list TypeKind) (t : Php.Ty) : bool :=
  match kind t with
  | Some k => existsb (kind_eqb k) kinds
  | None => false
  end.

(** [isValueType(t)]. *)
Definition isValueType (t : Php.Ty) : bool :=
  kindIn primitiveValueTypeKinds t || kindIn [KClass] t || kindIn [KEnum] t.

(** [singleDescriptionComment(description)]. *)
Definition singleDescriptionComment (description : option (list string))
  : string :=
  match description with
  | None => ""
  | Some lines => "// " +++ String.concat "; " lines
  end.

(** [canOmitEmpty(cp)]. *)
Definition canOmitEmpty (cp : Php.ClassProperty) : bool :=
  if negb (Php.isOptional cp) then false
  else negb (kindIn [KUnion; KNull; KAny] (Php.type cp)).

(** [t instanceof UnionType && nullableFromUnion(t) === null]. *)
Definition isNamedUnion (t : Php.Ty) : bool :=
  match t with
  | Php.UnionType _ members =>
      match Php.nullableFromUnion members with
      | None => true
      | Some _ => false
      end
  | _ => false
  end.

Section Types.

(** [this.nameForNamedType], on resolved names. *)
Variable nameForNamedType : Php.Ty -> string.

(** [goType(t, withIssues)]; the annotations [withIssues] asks for leave
    the text as it is.  [matchType] is given no handler for a transformed
    string: there is no Go type then. *)
Fixpoint goType (t : Php.Ty) (withIssues : bool) : option string :=
  match t with
  | Php.AnyType => Some "interface{}"
  | Php.NullType => Some "interface{}"
  | Php.BoolType => Some "bool"
  | Php.IntegerType => Some "int64"
  | Php.DoubleType => Some "float64"
  | Php.StringType => Some "string"
  | Php.ArrayType items =>
      option_map (fun s => "[]" +++ s) (goType items withIssues)
  | Php.ClassType _ => Some (nameForNamedType t)
  | Php.MapType v =>
      let valueSource :=
        if isNamedUnion v then Some ("*" +++ nameForNamedType v)
        else goType v withIssues in
      option_map (fun s => "map[string]" +++ s) valueSource
  | Php.EnumType _ => Some (nameForNamedType t)
  | Php.UnionType _ members =>
      match Php.nullableFromUnionWith
              (map (fun m => (m, goType m withIssues)) members) with
      | Some (nullable, rendered) =>
          (* this.nullableGoType(nullable, withIssues) *)
          if isValueType nullable then option_map (fun s => "*" +++ s) rendered
          else rendered
      | None => Some (nameForNamedType t)
      end
  | Php.TransformedStringType _ => None
  end.

(** [nullableGoType(t, withIssues)]. *)
Definition nullableGoType (t : Php.Ty) (withIssues : bool) : option string :=
  let goType := goType t withIssues in
  if isValueType t then option_map (fun s => "*" +++ s) goType else goType.

(** [propertyGoType(cp)]. *)
Definition propertyGoType (cp : Php.ClassProperty) : option string :=
  let t := Php.type cp in
  if isNamedUnion t then option_map (fun s => "*" +++ s) (goType t true)
  else if Php.isOptional cp then nullableGoType t true
  else goType t true.

End Types.

(** ** The calls of the emitters

    The renderer writes through the methods of its base classes, which are
    not among the sources: an emitter is embedded as the sequence of the
    calls it makes, in order, the lines as the text of their arguments. *)

Inductive Call : Type :=
| emitLine (line : string)
| emitLineOnce (line : string)
| ensureBlankLine
| indent (body : list Call)
| emitTable (table : list (list string))
| emitDescription (description : option (list string))
| emitMultiline_helperFunctions
    (* emitMultiline of the text of [unmarshalUnion] and [marshalUnion] *)
| initializeEmitContextForFilename (filename : string)
| finishFile (filename : string).

(** How a run of an emitter ends other than by returning: at an [assert]
    whose condition is false, at a [defined] of an undefined value, at a
    [matchType] without a handler for the type. *)
Inductive Failure : Type :=
| AssertionFailed (message : string)
| Undefined
| Unsupported.

Inductive Result (A : Type) : Type :=
| Returned (a : A) (calls : list Call) (_currentFilename : option string)
| Failed (failure : Failure).
Arguments Returned {A} a calls _currentFilename.
Arguments Failed {A} failure.

(** An emitter runs from the value of [this._currentFilename]. *)
Definition M (A : Type) : Type := option string -> Result A.

Definition ret {A : Type} (a : A) : M A := fun current => Returned a [] current.

Definition bind {A B : Type} (m : M A) (k : A -> M B) : M B :=
  fun current =>
    match m current with
    | Returned a calls current' =>
        match k a current' with
        | Returned b calls' current'' => Returned b (calls ++ calls') current''
        | Failed failure => Failed failure
        end
    | Failed failure => Failed failure
    end.

Local Notation "x <- m ;; k" := (bind m (fun x => k))
  (at level 61, m at next level, right associativity).
Local Notation "m ;;; k" := (bind m (fun _ => k))
  (at level 61, right associativity).

Definition call (c : Call) : M unit := fun current => Returned tt [c] current.

Definition calls (cs : list Call) : M unit :=
  fun current => Returned tt cs current.

Definition assert (condition : bool) (message : string) : M unit :=
  fun current =>
    if condition then Returned tt [] current
    else Failed (AssertionFailed message).

Definition defined {A : Type} (v : option A) : M A :=
  fun current =>
    match v with
    | Some a => Returned a [] current
    | None => Failed Undefined
    end.

(** The result of a [matchType]. *)
Definition matched {A : Type} (v : option A) : M A :=
  fun current =>
    match v with
    | Some a => Returned a [] current
    | None => Failed Unsupported
    end.

Definition get_currentFilename : M (option string) :=
  fun current => Returned current [] current.

Definition set_currentFilename (v : option string) : M unit :=
  fun _ => Returned tt [] v.

Fixpoint forEach {A : Type} (f : A -> M unit) (l : list A) : M unit :=
  match l with
  | [] => ret tt
  | a :: rest => f a ;;; forEach f rest
  end.

(** [this.indent(f)]. *)
Definition indented (f : M unit) : M unit :=
  fun current =>
    match f current with
    | Returned a cs current' => Returned a [indent cs] current'
    | Failed failure => Failed failure
    end.

Fixpoint traverse {A B : Type} (f : A -> option B) (l : list A)
  : option (list B) :=
  match l with
  | [] => Some []
  | a :: rest =>
      match f a, traverse f rest with
      | Some b, Some bs => Some (b :: bs)
      | _, _ => None
      end
  end.

Definition dq : string := String (ascii_of_nat 34) EmptyString.

(** ** The renderer *)

(** [goOptions]. *)
Record Options : Type := {
  justTypes : bool;
  justTypesAndPackage : bool;
  packageName : string;
  sdkPackage : string;
  multiFileOutput : bool
}.

(** The renderer object [this]: the options, and the graph and the names
    as the renderer reads them through [../ConvenienceRenderer],
    [../Naming], [../Source] and [../support/Strings]; names are their
    resolved text.  [objects], [enums] and [unions] are what
    [forEachObject], [forEachEnum] and [forEachUnion] iterate over. *)
Record Renderer : Type := {
  _options : Options;
  leadingComments : option (list string);
  haveNamedUnions : bool;
  topLevels : list (Php.Ty * string);
  objects : list (nat * string);
  enums : list (nat * string);
  unions : list (Php.Ty * string);
  namedTypeToNameForTopLevel : Php.Ty -> option Php.Ty;
  nameForNamedType : Php.Ty -> string;
  nameForUnionMember : Php.Ty -> Php.Ty -> string;
  forEachClassProperty : nat -> list (string * string * Php.ClassProperty);
  forEachEnumCase : nat -> list (string * string);
  forEachUnionMember : Php.Ty -> list Php.Ty -> list (string * Php.Ty);
  descriptionForType : Php.Ty -> option (list string);
  descriptionForClassProperty : nat -> string -> option (list string);
  firstProposedName : string -> string;
  _topLevelUnmarshalNames : list (string * string);
  camelCase : string -> string;
  stringEscape : string -> string;
  toLowerCase : string -> string
}.

Section Emitters.

Variable this : Renderer.

(** [startFile(basename)]. *)
Definition startFile (basename : string) : M unit :=
  if negb (multiFileOutput (_options this)) then ret tt
  else
    current <- get_currentFilename ;;
    assert (match current with None => true | Some _ => false end)
           ("Previous file wasn't finished: "
            +++ match current with Some f => f | None => "undefined" end) ;;;
    let filename := toLowerCase this (basename +++ ".go") in
    set_currentFilename (Some filename) ;;;
    call (initializeEmitContextForFilename filename).

(** [endFile()]. *)
Definition endFile : M unit :=
  if negb (multiFileOutput (_options this)) then ret tt
  else
    current <- get_currentFilename ;;
    filename <- defined current ;;
    call (finishFile filename) ;;;
    set_currentFilename None.

(** [emitBlock(line, f)], [emitFunc(decl, f)], [emitStruct(name, table)]. *)
Definition emitBlock (line : string) (f : M unit) : M unit :=
  call (emitLine (line +++ " {")) ;;;
  indented f ;;;
  call (emitLine "}").

Definition emitFunc (decl : string) (f : M unit) : M unit :=
  emitBlock ("func " +++ decl) f.

Definition emitStruct (name : string) (table : list (list string)) : M unit :=
  emitBlock ("type " +++ name +++ " struct") (call (emitTable table)).

(** [emitPackageDefinitons(includeJSONEncodingImport)]. *)
Definition emitPackageDefinitons (includeJSONEncodingImport : bool)
  : list Call :=
  let o := _options this in
  (if negb (justTypes o) || justTypesAndPackage o then
     [ensureBlankLine;
      emitLineOnce ("package " +++ packageName o);
      ensureBlankLine]
   else [])
  ++
  (if negb (justTypes o) && negb (justTypesAndPackage o) then
     [ensureBlankLine]
     ++ (if haveNamedUnions this && negb (multiFileOutput o) then
           [emitLineOnce ("import " +++ dq +++ "bytes" +++ dq);
            emitLineOnce ("import " +++ dq +++ "errors" +++ dq)]
         else [])
     ++ (if includeJSONEncodingImport then
           [emitLineOnce ("import " +++ dq +++ "encoding/json" +++ dq);
            emitLineOnce ("import " +++ dq +++ "fmt" +++ dq)]
         else [])
     ++ [ensureBlankLine]
   else []).

(** [emitSingleFileHeaderComments()]. *)
Definition emitSingleFileHeaderComments : list Call :=
  [emitLineOnce ("// This file was generated from JSON Schema using "
                 +++ "quicktype, do not modify it directly.");
   emitLineOnce ("// To parse and unparse this JSON data, add this code "
                 +++ "to your project and do:")].

(** [emitTopLevel(t, name)]. *)
Definition emitTopLevel (t : Php.Ty) (name : string) : M unit :=
  let o := _options this in
  startFile name ;;;
  (if multiFileOutput o && negb (justTypes o)
      && negb (justTypesAndPackage o)
      && match leadingComments this with None => true | Some _ => false end
   then
     calls
       [emitLineOnce ("// This file was generated from JSON Schema using "
                      +++ "quicktype, do not modify it directly.");
        emitLineOnce ("// To parse and unparse this JSON data, add this "
                      +++ "code to your project and do:");
        emitLineOnce "//"] ;;;
     let ref := camelCase this name in
     unmarshalName <-
       defined (Php.lookup name (_topLevelUnmarshalNames this)) ;;
     calls
       [emitLineOnce ("//    " +++ ref +++ ", err := " +++ unmarshalName
                      +++ "(bytes)");
        emitLineOnce ("//    bytes, err = " +++ ref +++ ".Marshal()")]
   else ret tt) ;;;
  calls (emitPackageDefinitons true) ;;;
  (match namedTypeToNameForTopLevel this t with
   | None =>
       rendered <- matched (goType (nameForNamedType this) t false) ;;
       call (emitLine ("type " +++ name +++ " " +++ rendered))
   | Some _ => ret tt
   end) ;;;
  if justTypes o || justTypesAndPackage o then ret tt
  else
    call (emitLine ("const " +++ name +++ "MessageName = " +++ dq
                    +++ firstProposedName this name +++ dq)) ;;;
    call ensureBlankLine ;;;
    emitFunc ("(m *" +++ name +++ ") GetMessageName() string")
             (call (emitLine ("return " +++ name +++ "MessageName"))) ;;;
    call ensureBlankLine ;;;
    emitFunc ("(m *" +++ name +++ ") Decode(data []byte) error")
      (emitBlock "if err := json.Unmarshal(data, m); err != nil"
         (call (emitLine
                  ("return fmt.Errorf(" +++ dq
                   +++ "json unmarshal for message %s failed, %w" +++ dq
                   +++ ", " +++ name +++ "MessageName, err)"))) ;;;
       call ensureBlankLine ;;;
       call (emitLine "return nil")) ;;;
    call ensureBlankLine ;;;
    emitFunc ("(m *" +++ name +++ ") Encode() ([]byte, error)")
      (call (emitLine "payload, err := json.Marshal(m)") ;;;
       emitBlock "if err != nil"
         (call (emitLine
                  ("return nil, fmt.Errorf(" +++ dq
                   +++ "json marshal %s message error. %w" +++ dq
                   +++ ", m.GetMessageName(), err)"))) ;;;
       call ensureBlankLine ;;;
       call (emitLine "return payload, nil")) ;;;
    endFile.

(** [emitClass(c, className)]. *)
Definition emitClass (c : nat) (className : string) : M unit :=
  startFile className ;;;
  calls (emitPackageDefinitons false) ;;;
  columns <-
    matched
      (traverse
         (fun njp : string * string * Php.ClassProperty =>
            let '(name, jsonName, p) := njp in
            let comment :=
              singleDescriptionComment
                (descriptionForClassProperty this c jsonName) in
            let omitEmpty := if canOmitEmpty p then ",omitempty" else "" in
            option_map
              (fun goType =>
                 [name +++ " "; goType +++ " ";
                  "`json:" +++ dq +++ stringEscape this jsonName +++ omitEmpty
                  +++ dq +++ "`";
                  comment])
              (propertyGoType (nameForNamedType this) p))
         (forEachClassProperty this c)) ;;
  call (emitDescription (descriptionForType this (Php.ClassType c))) ;;;
  emitStruct className columns ;;;
  endFile.

(** [emitEnum(e, enumName)]. *)
Definition emitEnum (e : nat) (enumName : string) : M unit :=
  startFile enumName ;;;
  calls (emitPackageDefinitons false) ;;;
  call (emitDescription (descriptionForType this (Php.EnumType e))) ;;;
  call (emitLine ("type " +++ enumName +++ " string")) ;;;
  call (emitLine "const (") ;;;
  indented
    (forEach
       (fun nj : string * string =>
          let '(name, jsonName) := nj in
          call (emitLine (name +++ " " +++ enumName +++ " = " +++ dq
                          +++ stringEscape this jsonName +++ dq)))
       (forEachEnumCase this e)) ;;;
  call (emitLine ")") ;;;
  endFile.

(** [u.findMember(kind)]. *)
Definition findMember (u : Php.Ty) (k : TypeKind) : option Php.Ty :=
  match u with
  | Php.UnionType _ members => find (kindIn [k]) members
  | _ => None
  end.

(** [ifMember(kind, ifNotMember, f)] of [emitUnion]: [f] is given the
    member, the name of its field and its Go type. *)
Definition ifMember {T : Type} (u : Php.Ty) (k : TypeKind) (ifNotMember : T)
    (f : Php.Ty -> string -> string -> T) : option T :=
  match findMember u k with
  | None => Some ifNotMember
  | Some maybeType =>
      option_map (f maybeType (nameForUnionMember this u maybeType))
                 (goType (nameForNamedType this) maybeType false)
  end.

(** [maybeAssignNil(kind)] of [emitUnion]. *)
Definition maybeAssignNil (u : Php.Ty) (k : TypeKind) : option (list Call) :=
  ifMember u k []
    (fun _1 fieldName _2 => [emitLine ("x." +++ fieldName +++ " = nil")]).

(** [makeArgs(primitiveArg, compoundArg)] of [emitUnion]. *)
Definition makeArgs (u : Php.Ty) (isNullableArg : string)
    (primitiveArg : string -> string)
    (compoundArg : bool -> string -> string) : option string :=
  match
    traverse (fun k => ifMember u k "nil"
                         (fun _1 fieldName _2 => primitiveArg fieldName))
             primitiveValueTypeKinds,
    traverse (fun k => ifMember u k "false, nil"
                         (fun t fieldName _ =>
                            compoundArg (kindIn [KClass] t) fieldName))
             compoundTypeKinds
  with
  | Some primitives, Some compounds =>
      Some (String.concat ""
              (map (fun arg => arg +++ ", ") (primitives ++ compounds))
            +++ isNullableArg)
  | _, _ => None
  end.

(** [emitUnion(u, unionName)]. *)
Definition emitUnion (u : Php.Ty) (unionName : string) : M unit :=
  let o := _options this in
  startFile unionName ;;;
  calls (emitPackageDefinitons false) ;;;
  let members :=
    match u with Php.UnionType _ members => members | _ => [] end in
  let '(hasNull, nonNulls) :=
    Php.removeNullFromUnion (map (fun m => (m, tt)) members) in
  let isNullableArg := if hasNull then "true" else "false" in
  columns <-
    matched
      (traverse
         (fun ft : string * Php.Ty =>
            let '(fieldName, t) := ft in
            option_map (fun goType => [fieldName +++ " "; goType])
                       (nullableGoType (nameForNamedType this) t true))
         (forEachUnionMember this u (map fst nonNulls))) ;;
  call (emitDescription (descriptionForType this u)) ;;;
  emitStruct unionName columns ;;;
  if justTypes o || justTypesAndPackage o then ret tt
  else
    call ensureBlankLine ;;;
    emitFunc ("(x *" +++ unionName +++ ") UnmarshalJSON(data []byte) error")
      (forEach (fun k => nil <- matched (maybeAssignNil u k) ;; calls nil)
               compoundTypeKinds ;;;
       declaration <-
         matched (ifMember u KClass []
                    (fun _1 _2 goType => [emitLine ("var c " +++ goType)])) ;;
       calls declaration ;;;
       args <-
         matched (makeArgs u isNullableArg
                    (fun fn => "&x." +++ fn)
                    (fun isClass fn =>
                       if isClass then "true, &c" else "true, &x." +++ fn)) ;;
       call (emitLine ("object, err := unmarshalUnion(data, " +++ args
                       +++ ")")) ;;;
       emitBlock "if err != nil" (call (emitLine "return err")) ;;;
       emitBlock "if object"
         (assignment <-
            matched (ifMember u KClass []
                       (fun _1 fieldName _2 =>
                          [emitLine ("x." +++ fieldName +++ " = &c")])) ;;
          calls assignment) ;;;
       call (emitLine "return nil")) ;;;
    call ensureBlankLine ;;;
    emitFunc ("(x *" +++ unionName +++ ") MarshalJSON() ([]byte, error)")
      (args <-
         matched (makeArgs u isNullableArg
                    (fun fn => "x." +++ fn)
                    (fun _ fn => "x." +++ fn +++ " != nil, x." +++ fn)) ;;
       call (emitLine ("return marshalUnion(" +++ args +++ ")"))) ;;;
    endFile.

(** [emitHelperFunctions()]. *)
Definition emitHelperFunctions : M unit :=
  if haveNamedUnions this then
    startFile "JSONSchemaSupport" ;;;
    calls (emitPackageDefinitons true) ;;;
    (if multiFileOutput (_options this) then
       calls [emitLineOnce ("import " +++ dq +++ "bytes" +++ dq);
              emitLineOnce ("import " +++ dq +++ "errors" +++ dq)]
     else ret tt) ;;;
    call ensureBlankLine ;;;
    call emitMultiline_helperFunctions ;;;
    endFile
  else ret tt.

(** [emitEncoder()]. *)
Definition emitEncoder : M unit :=
  startFile "encoder" ;;;
  call (emitLine ("package " +++ packageName (_options this))) ;;;
  call ensureBlankLine ;;;
  call (emitLine ("import " +++ dq +++ "fmt" +++ dq)) ;;;
  call ensureBlankLine ;;;
  call (emitLine
          ("var ErrNotSupportedObject = fmt.Errorf(" +++ dq
           +++ "object is not supportable, must be self encodable" +++ dq
           +++ ")")) ;;;
  call ensureBlankLine ;;;
  call (emitLine "type Encoder struct{}") ;;;
  call ensureBlankLine ;;;
  emitFunc "NewEncoder() *Encoder" (call (emitLine "return &Encoder{}")) ;;;
  call ensureBlankLine ;;;
  emitFunc "(e *Encoder) Encode(v interface{}) ([]byte, error)"
    (call (emitLine "switch msg := v.(type) {") ;;;
     forEach
       (fun tn : Php.Ty * string =>
          let '(_t, name) := tn in
          call (emitLine ("case " +++ name +++ ":")) ;;;
          indented
            (call (emitLine "res, err := msg.Encode()") ;;;
             emitBlock "if err != nil"
               (call (emitLine
                        ("return nil, fmt.Errorf(" +++ dq
                         +++ "encoding of bus message %s, %w" +++ dq
                         +++ ", msg.GetMessageName(), err)"))) ;;;
             call ensureBlankLine ;;;
             call (emitLine "return res, nil")))
       (topLevels this) ;;;
     call (emitLine "default:") ;;;
     indented (call (emitLine "return nil, ErrNotSupportedObject")) ;;;
     call (emitLine "}")) ;;;
  endFile.

(** [emitDecoder()]. *)
Definition emitDecoder : M unit :=
  startFile "decoder" ;;;
  call (emitLine ("package " +++ packageName (_options this))) ;;;
  call ensureBlankLine ;;;
  call (emitLine ("import " +++ dq +++ "fmt" +++ dq)) ;;;
  (if negb (sdkPackage (_options this) =? "")%string then
     call (emitLine ("import " +++ dq +++ sdkPackage (_options this) +++ dq))
   else ret tt) ;;;
  call ensureBlankLine ;;;
  call (emitLine ("var ErrUnexpectedMessage = fmt.Errorf(" +++ dq
                  +++ "unexpected message" +++ dq +++ ")")) ;;;
  call ensureBlankLine ;;;
  call (emitLine "type Decoder struct{}") ;;;
  call ensureBlankLine ;;;
  emitFunc "NewDecoder() *Decoder" (call (emitLine "return &Decoder{}")) ;;;
  call ensureBlankLine ;;;
  emitFunc ("(e *Decoder) Decode(messageName string, payload []byte) "
            +++ "(sdk.MessageInterface, error)")
    (call (emitLine "switch messageName {") ;;;
     forEach
       (fun tn : Php.Ty * string =>
          let '(_t, name) := tn in
          call (emitLine ("case " +++ name +++ "MessageName:")) ;;;
          indented
            (call (emitLine ("m := " +++ name +++ "{}")) ;;;
             emitBlock "if err := m.Decode(payload); err != nil"
               (call (emitLine
                        ("return nil, fmt.Errorf(" +++ dq
                         +++ "decode message %s failed. %w" +++ dq
                         +++ ", messageName, err)"))) ;;;
             call ensureBlankLine ;;;
             call (emitLine "return m, nil")))
       (topLevels this) ;;;
     call (emitLine "default:") ;;;
     indented
       (call (emitLine
                ("return nil, fmt.Errorf(" +++ dq +++ "%w, name %s" +++ dq
                 +++ ", ErrUnexpectedMessage, messageName)"))) ;;;
     call (emitLine "}")) ;;;
  endFile.

(** The top-levels [emitSourceStructure] has [forEachTopLevel] emit: all
    of them, or with [justTypes] those that are no named type. *)
Definition emittedTopLevels : list (Php.Ty * string) :=
  filter
    (fun tn : Php.Ty * string =>
       negb (justTypes (_options this) || justTypesAndPackage (_options this))
       || match namedTypeToNameForTopLevel this (fst tn) with
          | None => true
          | Some _ => false
          end)
    (topLevels this).

(** [emitSourceStructure()]. *)
Definition emitSourceStructure : M unit :=
  let o := _options this in
  (if negb (multiFileOutput o) && negb (justTypes o)
      && negb (justTypesAndPackage o)
      && match leadingComments this with None => true | Some _ => false end
   then calls emitSingleFileHeaderComments
   else ret tt) ;;;
  forEach (fun tn : Php.Ty * string => emitTopLevel (fst tn) (snd tn))
          emittedTopLevels ;;;
  forEach (fun cn : nat * string => emitClass (fst cn) (snd cn))
          (objects this) ;;;
  forEach (fun en : nat * string => emitEnum (fst en) (snd en))
          (enums this) ;;;
  forEach (fun un : Php.Ty * string => emitUnion (fst un) (snd un))
          (unions this) ;;;
  emitEncoder ;;;
  emitDecoder ;;;
  if justTypes o || justTypesAndPackage o then ret tt
  else emitHelperFunctions.

End Emitters.

(** ** Vocabulary of the statements *)

(** The Go types whose zero value is nil: a pointer, a slice, a map. *)
Definition isNilable (goType : string) : bool :=
  String.prefix "*" goType || String.prefix "[]" goType
  || String.prefix "map[" goType.

(** No transformed string occurs in [t]. *)
Fixpoint hasHandler (t : Php.Ty) : bool :=
  match t with
  | Php.ArrayType items => hasHandler items
  | Php.MapType values => hasHandler values
  | Php.UnionType _ members => forallb hasHandler members
  | Php.TransformedStringType _ => false
  | _ => true
  end.

Definition isUnionType (t : Php.Ty) : bool :=
  match t with Php.UnionType _ _ => true | _ => false end.

(** The calls that open and close a file. *)
Definition isFileCall (c : Call) : bool :=
  match c with
  | initializeEmitContextForFilename _ | finishFile _ => true
  | _ => false
  end.

(** A package clause written by [emitLine]. *)
Definition isPackageClause (c : Call) : bool :=
  match c with
  | emitLine line => String.prefix "package " line
  | _ => false
  end.

(** The two calls around the file of [basename]. *)
Definition fileOf (this : Renderer) (basename : string) : list Call :=
  let filename := toLowerCase this (basename +++ ".go") in
  [initializeEmitContextForFilename filename; finishFile filename].

(** The files of [basename] in the mode the renderer is in. *)
Definition filesFor (this : Renderer) (basename : string) : list Call :=
  if multiFileOutput (_options this) then fileOf this basename else [].

(** The files [emitSourceStructure] is to write, in order. *)
Definition emittedFiles (this : Renderer) : list string :=
  let o := _options this in
  map snd (emittedTopLevels this) ++ map snd (objects this)
  ++ map snd (enums this) ++ map snd (unions this)
  ++ ["encoder"; "decoder"]
  ++ (if justTypes o || justTypesAndPackage o then []
      else if haveNamedUnions this then ["JSONSchemaSupport"] else []).

(** The first file an emitter returns from without [endFile] when one of
    the two options for plain types is set: the one of a top-level, or
    else the one of a union. *)
Definition firstUnfinished (this : Renderer) : option string :=
  match emittedTopLevels this, unions this with
  | (_, name) :: _, _ => Some name
  | [], (_, name) :: _ => Some name
  | [], [] => None
  end.

(** Every [matchType] of the emitters has a handler: no transformed string
    occurs in the graph. *)
Definition handlesGraph (this : Renderer) : Prop :=
  Forall (fun tn => hasHandler (fst tn) = true) (topLevels this) /\
  Forall (fun cn =>
            Forall (fun njp : string * string * Php.ClassProperty =>
                      hasHandler (Php.type (snd njp)) = true)
                   (forEachClassProperty this (fst cn)))
         (objects this) /\
  Forall (fun un =>
            hasHandler (fst un) = true /\
            forall members,
              Forall (fun ft => hasHandler (snd ft) = true)
                     (forEachUnionMember this (fst un) members))
         (unions this).

(** [makeTopLevelDependencyNames] was called for every top-level. *)
Definition unmarshalNamesRegistered (this : Renderer) : Prop :=
  Forall (fun tn => Php.lookup (snd tn) (_topLevelUnmarshalNames this)
                    <> None)
         (topLevels this).

(** A run of [m] from [current] returns, leaving [current'], and of its
    calls those that [keep] selects are [kept]. *)
Definition runs {A : Type} (keep : Call -> bool) (m : M A)
    (current : option string) (kept : list Call) (current' : option string)
  : Prop :=
  exists a cs, m current = Returned a cs current' /\ filter keep cs = kept.

(** A run of [m] from [current] returns, leaving [current']. *)
Definition returns {A : Type} (m : M A) (current current' : option string)
  : Prop :=
  exists a cs, m current = Returned a cs current'.

(** A small graph: one top-level that is an array of strings, one class,
    no union. *)
Definition demoOptions (justTypes multiFileOutput : bool) : Options :=
  {| justTypes := justTypes;
     justTypesAndPackage := false;
     packageName := "main";
     sdkPackage := "";
     multiFileOutput := multiFileOutput |}.

Definition demoRenderer (justTypes multiFileOutput : bool) : Renderer :=
  {| _options := demoOptions justTypes multiFileOutput;
     leadingComments := None;
     haveNamedUnions := false;
     topLevels := [(Php.ArrayType Php.StringType, "Names")];
     objects := [(0, "Person")];
     enums := [];
     unions := [];
     namedTypeToNameForTopLevel := fun _ => None;
     nameForNamedType := fun _ => "Person";
     nameForUnionMember := fun _ _ => "";
     forEachClassProperty :=
       fun _ => [("Name", "name",
                  {| Php.type := Php.StringType; Php.isOptional := false |})];
     forEachEnumCase := fun _ => [];
     forEachUnionMember := fun _ _ => [];
     descriptionForType := fun _ => None;
     descriptionForClassProperty := fun _ _ => None;
     firstProposedName := fun name => name;
     _topLevelUnmarshalNames := [("Names", "UnmarshalNames")];
     camelCase := fun name => name;
     stringEscape := fun name => name;
     toLowerCase :=
       fun name =>
         if (name =? "Names.go")%string then "names.go"
         else if (name =? "Person.go")%string then "person.go"
         else name |}.

(** ** Facts about the Go types *)

Lemma goType_union (nameForNamedType : Php.Ty -> string) (ref : nat)
    (members : list Php.Ty) (withIssues : bool) :
  goType nameForNamedType (Php.UnionType ref members) withIssues =
  match Php.nullableFromUnion members with
  | Some nullable => nullableGoType nameForNamedType nullable withIssues
  | None => Some (nameForNamedType (Php.UnionType ref members))
  end.
Proof.
  simpl. rewrite Php.nullableFromUnionWith_map.
  now destruct (Php.nullableFromUnion members).
Qed.

Lemma isNilable_pointer (s : string) : isNilable ("*" +++ s) = true.
Proof. destruct s; reflexivity. Qed.

Lemma isNilable_slice (s : string) : isNilable ("[]" +++ s) = true.
Proof. destruct s; reflexivity. Qed.

Lemma isNilable_map (s : string) : isNilable ("map[string]" +++ s) = true.
Proof. destruct s; reflexivity. Qed.

(** X12.  A struct field tagged [omitempty] has a Go type whose zero value
    is nil: when [canOmitEmpty] holds of a property, [propertyGoType]
    renders a pointer, a slice or a map. *)
Theorem omitempty_fields_are_nilable (nameForNamedType : Php.Ty -> string)
    (cp : Php.ClassProperty) (rendered : string) :
  canOmitEmpty cp = true ->
  propertyGoType nameForNamedType cp = Some rendered ->
  isNilable rendered = true.
Proof.
  unfold canOmitEmpty, propertyGoType, nullableGoType.
  destruct (Php.isOptional cp); [|discriminate]. simpl.
  destruct (Php.type cp) as [| | | | | |items|ref|values|ref|ref members|k];
    try discriminate; simpl; intros _ H;
    try (injection H as <-; apply isNilable_pointer).
  - destruct (goType nameForNamedType items true); [|discriminate].
    injection H as <-. apply isNilable_slice.
  - destruct (if isNamedUnion values then _ else _); [|discriminate].
    injection H as <-. apply isNilable_map.
Qed.

(** X13.  Nullable collapse: a property whose type is the nullable form
    of [t], optional or not, has the Go type [nullableGoType] gives [t];
    so has an optional property of type [t] itself, when [t] is no
    union. *)
Theorem nullable_property_is_optional_property
    (nameForNamedType : Php.Ty -> string) (ref : nat)
    (members : list Php.Ty) (t : Php.Ty) (isOptional : bool) :
  Php.nullableFromUnion members = Some t ->
  propertyGoType nameForNamedType
    {| Php.type := Php.UnionType ref members; Php.isOptional := isOptional |}
  = nullableGoType nameForNamedType t true /\
  (isUnionType t = false ->
   propertyGoType nameForNamedType
     {| Php.type := t; Php.isOptional := true |}
   = nullableGoType nameForNamedType t true).
Proof.
  intros Hn. split.
  - unfold propertyGoType. cbn [Php.type Php.isOptional isNamedUnion].
    rewrite Hn. destruct isOptional.
    + unfold nullableGoType at 1. cbn [isValueType kindIn kind existsb orb].
      now rewrite goType_union, Hn.
    + now rewrite goType_union, Hn.
  - intros Ht. unfold propertyGoType. cbn [Php.type Php.isOptional].
    now destruct t.
Qed.

Lemma prefix_star (s : string) :
  String.prefix "*" s = false -> String.prefix "**" s = false.
Proof.
  destruct s as [|ch s]; [reflexivity|]. cbn [String.prefix].
  destruct (ascii_dec "*" ch); [|reflexivity]. now destruct s.
Qed.

Lemma goType_pointers (nameForNamedType : Php.Ty -> string) :
  (forall t, String.prefix "*" (nameForNamedType t) = false) ->
  forall t withIssues rendered,
    goType nameForNamedType t withIssues = Some rendered ->
    String.prefix "**" rendered = false /\
    (isValueType t = true -> String.prefix "*" rendered = false).
Proof.
  intros Hname t withIssues.
  induction t as [| | | | | |items _|ref|values _|ref|ref members IH|k]
    using Php.Ty_members_ind; intros rendered H; simpl in H;
    try (injection H as <-; split; [reflexivity|]; intros _; reflexivity);
    try discriminate.
  - destruct (goType nameForNamedType items withIssues); [|discriminate].
    injection H as <-. split; [reflexivity|discriminate].
  - injection H as <-. split; [|intros _; apply Hname].
    apply prefix_star, Hname.
  - destruct (if isNamedUnion values then _ else _); [|discriminate].
    injection H as <-. split; [reflexivity|discriminate].
  - injection H as <-. split; [|intros _; apply Hname].
    apply prefix_star, Hname.
  - split; [|discriminate]. rewrite Php.nullableFromUnionWith_map in H.
    destruct (Php.nullableFromUnion members) as [n|] eqn:E; simpl in H.
    + apply Php.nullableFromUnion_In in E. rewrite Forall_forall in IH.
      specialize (IH n E).
      destruct (isValueType n) eqn:Ev.
      * destruct (goType nameForNamedType n withIssues) as [s|];
          [|discriminate].
        injection H as <-. change (String.prefix "*" s = false).
        now apply (IH s eq_refl).
      * now apply (IH rendered H).
    + injection H as <-. apply prefix_star, Hname.
Qed.

(** X14.  No pointer to a pointer: when no name starts with a star, the Go
    type [propertyGoType] renders for a property starts with one star at
    most. *)
Theorem propertyGoType_is_no_pointer_to_pointer
    (nameForNamedType : Php.Ty -> string) (cp : Php.ClassProperty)
    (rendered : string) :
  (forall t, String.prefix "*" (nameForNamedType t) = false) ->
  propertyGoType nameForNamedType cp = Some rendered ->
  String.prefix "**" rendered = false.
Proof.
  intros Hname. unfold propertyGoType, nullableGoType.
  pose proof (goType_pointers nameForNamedType Hname (Php.type cp) true)
    as Hgo.
  destruct (isNamedUnion (Php.type cp)) eqn:Eu.
  - destruct (Php.type cp) as [| | | | | |?|?|?|?|ref members|?];
      try discriminate.
    rewrite goType_union. simpl in Eu.
    destruct (Php.nullableFromUnion members); [discriminate|].
    simpl. intros H. injection H as <-.
    change (String.prefix "*" (nameForNamedType (Php.UnionType ref members))
            = false).
    apply Hname.
  - destruct (Php.isOptional cp); [|intros H; now apply Hgo].
    destruct (isValueType (Php.type cp)) eqn:Ev; [|intros H; now apply Hgo].
    destruct (goType nameForNamedType (Php.type cp) true) as [s|];
      [|discriminate].
    simpl. intros H. injection H as <-.
    change (String.prefix "*" s = false). now apply (Hgo s eq_refl).
Qed.

(** An optional string property is a pointer to a string, as is a
    property of the nullable form of a string. *)
Lemma omitempty_fields_are_nilable_witness :
  propertyGoType (fun _ => "T")
    {| Php.type := Php.StringType; Php.isOptional := true |}
  = Some "*string" /\
  isNilable "*string" = true.
Proof.
  split; [reflexivity|].
  exact (omitempty_fields_are_nilable (fun _ => "T")
           {| Php.type := Php.StringType; Php.isOptional := true |}
           "*string" eq_refl eq_refl).
Defined.

Lemma nullable_property_is_optional_property_witness :
  propertyGoType (fun _ => "T")
    {| Php.type := Php.UnionType 0 [Php.NullType; Php.StringType];
       Php.isOptional := false |}
  = Some "*string" /\
  propertyGoType (fun _ => "T")
    {| Php.type := Php.StringType; Php.isOptional := true |}
  = Some "*string".
Proof.
  destruct (nullable_property_is_optional_property
              (fun _ => "T") 0 [Php.NullType; Php.StringType] Php.StringType
              false eq_refl) as [H1 H2].
  split; [exact H1|exact (H2 eq_refl)].
Defined.

Lemma propertyGoType_is_no_pointer_to_pointer_witness :
  propertyGoType (fun _ => "T")
    {| Php.type := Php.ClassType 0; Php.isOptional := true |}
  = Some "*T" /\
  String.prefix "**" "*T" = false.
Proof.
  split; [reflexivity|].
  exact (propertyGoType_is_no_pointer_to_pointer (fun _ => "T")
           {| Php.type := Php.ClassType 0; Php.isOptional := true |} "*T"
           (fun _ => eq_refl) eq_refl).
Defined.

(** ** Facts about the runs of the emitters *)

Lemma returns_ret {A : Type} (a : A) (current : option string) :
  returns (ret a) current current.
Proof. now exists a, []. Qed.

Lemma returns_bind {A B : Type} (m : M A) (k : A -> M B)
    (current current1 current2 : option string) :
  returns m current current1 ->
  (forall a, returns (k a) current1 current2) ->
  returns (bind m k) current current2.
Proof.
  intros (a & cs & Hm) Hk. destruct (Hk a) as (b & cs' & Hk').
  exists b, (cs ++ cs'). unfold bind. now rewrite Hm, Hk'.
Qed.

Lemma returns_call (c : Call) (current : option string) :
  returns (call c) current current.
Proof. now exists tt, [c]. Qed.

Lemma returns_calls (cs : list Call) (current : option string) :
  returns (calls cs) current current.
Proof. now exists tt, cs. Qed.

Lemma returns_matched {A : Type} (v : option A) (current : option string) :
  v <> None -> returns (matched v) current current.
Proof. intros Hv. destruct v as [a|]; [now exists a, []|easy]. Qed.

Lemma returns_indented (f : M unit) (current current' : option string) :
  returns f current current' -> returns (indented f) current current'.
Proof.
  intros (a & cs & Hf). exists a, [indent cs]. unfold indented.
  now rewrite Hf.
Qed.

Lemma returns_emitBlock (line : string) (f : M unit)
    (current current' : option string) :
  returns f current current' -> returns (emitBlock line f) current current'.
Proof.
  intros Hf. unfold emitBlock.
  eapply returns_bind; [apply returns_call|]. intros _.
  eapply returns_bind; [apply returns_indented, Hf|]. intros _.
  apply returns_call.
Qed.

Lemma returns_forEach {A : Type} (f : A -> M unit) (l : list A)
    (current : option string) :
  (forall a, In a l -> returns (f a) current current) ->
  returns (forEach f l) current current.
Proof.
  induction l as [|a l IH]; intros H; simpl; [apply returns_ret|].
  apply returns_bind with (current1 := current); [apply H; now left|].
  intros _. apply IH. intros b Hb. apply H. now right.
Qed.

(** The steps of a body that does not open or close a file. *)
Ltac returning :=
  repeat lazymatch goal with
    | |- returns (bind _ _) _ _ => eapply returns_bind; [|intros ?]
    | |- returns (ret _) _ _ => apply returns_ret
    | |- returns (call _) _ _ => apply returns_call
    | |- returns (calls _) _ _ => apply returns_calls
    | |- returns (emitBlock _ _) _ _ => apply returns_emitBlock
    | |- returns (indented _) _ _ => apply returns_indented
    | |- returns (matched _) _ _ => apply returns_matched
    | |- returns (forEach _ _) _ _ => apply returns_forEach; intros ? _
    | |- returns (let '(_, _) := ?p in _) _ _ => destruct p
    end.

Section Runs.

Variable keep : Call -> bool.
Hypothesis keep_indent : forall body, keep (indent body) = false.

Lemma runs_eq {A : Type} (m : M A) (current current' : option string)
    (kept kept' : list Call) :
  runs keep m current kept current' -> kept = kept' ->
  runs keep m current kept' current'.
Proof. now intros H <-. Qed.

Lemma runs_ret {A : Type} (a : A) (current : option string) :
  runs keep (ret a) current [] current.
Proof. now exists a, []. Qed.

Lemma runs_bind {A B : Type} (m : M A) (k : A -> M B)
    (current current1 current2 : option string) (kept1 kept2 : list Call) :
  runs keep m current kept1 current1 ->
  (forall a, runs keep (k a) current1 kept2 current2) ->
  runs keep (bind m k) current (kept1 ++ kept2) current2.
Proof.
  intros (a & cs & Hm & <-) Hk. destruct (Hk a) as (b & cs' & Hk' & <-).
  exists b, (cs ++ cs'). unfold bind. rewrite Hm, Hk'.
  split; [reflexivity|apply filter_app].
Qed.

Lemma runs_call (c : Call) (current : option string) (kept : list Call) :
  filter keep [c] = kept -> runs keep (call c) current kept current.
Proof. intros <-. now exists tt, [c]. Qed.

Lemma runs_calls (cs : list Call) (current : option string)
    (kept : list Call) :
  filter keep cs = kept -> runs keep (calls cs) current kept current.
Proof. intros <-. now exists tt, cs. Qed.

Lemma runs_matched {A : Type} (v : option A) (current : option string) :
  v <> None -> runs keep (matched v) current [] current.
Proof. intros Hv. destruct v as [a|]; [now exists a, []|easy]. Qed.

Lemma runs_defined {A : Type} (v : option A) (current : option string) :
  v <> None -> runs keep (defined v) current [] current.
Proof. intros Hv. destruct v as [a|]; [now exists a, []|easy]. Qed.

Lemma runs_indented (f : M unit) (current current' : option string) :
  returns f current current' ->
  runs keep (indented f) current [] current'.
Proof.
  intros (a & cs & Hf). exists a, [indent cs]. unfold indented.
  rewrite Hf. split; [reflexivity|]. simpl. now rewrite keep_indent.
Qed.

Lemma runs_forEach {A : Type} (f : A -> M unit) (g : A -> list Call)
    (l : list A) (current : option string) :
  (forall a, In a l -> runs keep (f a) current (g a) current) ->
  runs keep (forEach f l) current (flat_map g l) current.
Proof.
  induction l as [|a l IH]; intros H; simpl; [apply runs_ret|].
  apply runs_bind with (current1 := current); [apply H; now left|].
  intros _. apply IH. intros b Hb. apply H. now right.
Qed.

Lemma runs_emitBlock (line : string) (f : M unit)
    (current current' : option string) (kept : list Call) :
  filter keep [emitLine (line +++ " {"); emitLine "}"] = kept ->
  returns f current current' ->
  runs keep (emitBlock line f) current kept current'.
Proof.
  intros <- Hf. unfold emitBlock.
  eapply runs_eq.
  - eapply runs_bind; [now apply runs_call|]. intros _.
    eapply runs_bind; [eapply runs_indented, Hf|]. intros _.
    now apply runs_call.
  - simpl. destruct (keep (emitLine (line +++ " {"))), (keep (emitLine "}"));
      reflexivity.
Qed.

Variable this : Renderer.

Lemma runs_startFile_single (basename : string) (current : option string) :
  multiFileOutput (_options this) = false ->
  runs keep (startFile this basename) current [] current.
Proof. intros H. unfold startFile. rewrite H. apply runs_ret. Qed.

Lemma runs_endFile_single (current : option string) :
  multiFileOutput (_options this) = false ->
  runs keep (endFile this) current [] current.
Proof. intros H. unfold endFile. rewrite H. apply runs_ret. Qed.

Lemma runs_startFile_multi (basename : string) (kept : list Call) :
  multiFileOutput (_options this) = true ->
  filter keep [initializeEmitContextForFilename
                 (toLowerCase this (basename +++ ".go"))] = kept ->
  runs keep (startFile this basename) None kept
       (Some (toLowerCase this (basename +++ ".go"))).
Proof.
  intros H <-. unfold startFile. rewrite H. eexists tt, _.
  split; reflexivity.
Qed.

Lemma runs_endFile_multi (filename : string) (kept : list Call) :
  multiFileOutput (_options this) = true ->
  filter keep [finishFile filename] = kept ->
  runs keep (endFile this) (Some filename) kept None.
Proof.
  intros H <-. unfold endFile. rewrite H. eexists tt, _. split; reflexivity.
Qed.

End Runs.

Lemma bind_fails {A B : Type} (m : M A) (k : A -> M B)
    (current : option string) (failure : Failure) :
  m current = Failed failure -> bind m k current = Failed failure.
Proof. intros H. unfold bind. now rewrite H. Qed.

Lemma bind_then_fails {A B : Type} (m : M A) (k : A -> M B)
    (current current' : option string) (failure : Failure) (a : A)
    (cs : list Call) :
  m current = Returned a cs current' ->
  k a current' = Failed failure ->
  bind m k current = Failed failure.
Proof. intros Hm Hk. unfold bind. now rewrite Hm, Hk. Qed.

Lemma startFile_fails (this : Renderer) (basename previous : string) :
  multiFileOutput (_options this) = true ->
  startFile this basename (Some previous)
  = Failed (AssertionFailed ("Previous file wasn't finished: " +++ previous)).
Proof. intros H. unfold startFile. now rewrite H. Qed.

(** Emitters that cannot start leave the run at the first of them, or
    there is none. *)
Lemma forEach_then_fails {A : Type} (f : A -> M unit) (l : list A)
    (k : M unit) (current : option string) (failure : Failure) :
  (forall a, f a current = Failed failure) ->
  k current = Failed failure ->
  bind (forEach f l) (fun _ => k) current = Failed failure.
Proof.
  intros Hf Hk. destruct l as [|a l]; simpl.
  - unfold bind. simpl. now rewrite Hk.
  - apply bind_fails, bind_fails, Hf.
Qed.

Lemma forEach_unfinished {A : Type} (f : A -> M unit) (a : A) (l : list A)
    (k : M unit) (current' : option string) (failure : Failure)
    (cs : list Call) :
  f a None = Returned tt cs current' ->
  (forall b, f b current' = Failed failure) ->
  k current' = Failed failure ->
  bind (forEach f (a :: l)) (fun _ => k) None = Failed failure.
Proof.
  intros Ha Hf Hk. simpl. unfold bind at 1 2. rewrite Ha.
  destruct l as [|b l]; simpl.
  - now rewrite Hk.
  - unfold bind at 1. now rewrite Hf.
Qed.

(** *** Types with a handler *)

Lemma hasHandler_goType (nameForNamedType : Php.Ty -> string)
    (withIssues : bool) (t : Php.Ty) :
  hasHandler t = true -> goType nameForNamedType t withIssues <> None.
Proof.
  induction t as [| | | | | |items IH|ref|values IH|ref|ref members IH|k]
    using Php.Ty_members_ind; simpl; intros H; try discriminate.
  - destruct (goType nameForNamedType items withIssues);
      [discriminate|now apply IH].
  - destruct (isNamedUnion values); [discriminate|].
    destruct (goType nameForNamedType values withIssues);
      [discriminate|now apply IH].
  - rewrite Php.nullableFromUnionWith_map.
    destruct (Php.nullableFromUnion members) as [n|] eqn:E; simpl;
      [|discriminate].
    apply Php.nullableFromUnion_In in E. rewrite Forall_forall in IH.
    rewrite forallb_forall in H. specialize (IH n E (H n E)).
    destruct (goType nameForNamedType n withIssues); [|contradiction].
    destruct (isValueType n); discriminate.
Qed.

Lemma hasHandler_nullableGoType (nameForNamedType : Php.Ty -> string)
    (withIssues : bool) (t : Php.Ty) :
  hasHandler t = true -> nullableGoType nameForNamedType t withIssues <> None.
Proof.
  intros H. unfold nullableGoType.
  pose proof (hasHandler_goType nameForNamedType withIssues t H).
  destruct (goType nameForNamedType t withIssues); [|contradiction].
  destruct (isValueType t); discriminate.
Qed.

Lemma hasHandler_propertyGoType (nameForNamedType : Php.Ty -> string)
    (cp : Php.ClassProperty) :
  hasHandler (Php.type cp) = true ->
  propertyGoType nameForNamedType cp <> None.
Proof.
  intros H. unfold propertyGoType.
  pose proof (hasHandler_goType nameForNamedType true _ H).
  pose proof (hasHandler_nullableGoType nameForNamedType true _ H).
  destruct (isNamedUnion (Php.type cp)).
  - destruct (goType nameForNamedType (Php.type cp) true);
      [discriminate|contradiction].
  - now destruct (Php.isOptional cp).
Qed.

Lemma traverse_Some {A B : Type} (f : A -> option B) (l : list A) :
  Forall (fun a => f a <> None) l -> traverse f l <> None.
Proof.
  induction 1 as [|a l Ha _ IH]; simpl; [discriminate|].
  destruct (f a); [|contradiction].
  destruct (traverse f l); [discriminate|contradiction].
Qed.

Lemma option_map_Some {A B : Type} (f : A -> B) (v : option A) :
  v <> None -> option_map f v <> None.
Proof. destruct v; [discriminate|contradiction]. Qed.

Lemma hasHandler_ifMember {T : Type} (this : Renderer) (u : Php.Ty)
    (k : TypeKind) (ifNotMember : T) (f : Php.Ty -> string -> string -> T) :
  hasHandler u = true -> ifMember this u k ifNotMember f <> None.
Proof.
  intros Hu. unfold ifMember.
  destruct (findMember u k) as [t|] eqn:E; [|discriminate].
  apply option_map_Some, hasHandler_goType.
  destruct u; try discriminate. simpl in E, Hu.
  apply find_some in E. rewrite forallb_forall in Hu. now apply Hu.
Qed.

Lemma hasHandler_makeArgs (this : Renderer) (u : Php.Ty)
    (isNullableArg : string) (primitiveArg : string -> string)
    (compoundArg : bool -> string -> string) :
  hasHandler u = true ->
  makeArgs this u isNullableArg primitiveArg compoundArg <> None.
Proof.
  intros Hu. unfold makeArgs.
  match goal with
  | |- context [traverse ?f primitiveValueTypeKinds] =>
      pose proof (traverse_Some f primitiveValueTypeKinds) as Hp
  end.
  match goal with
  | |- context [traverse ?f compoundTypeKinds] =>
      pose proof (traverse_Some f compoundTypeKinds) as Hc
  end.
  destruct (traverse _ primitiveValueTypeKinds).
  - destruct (traverse _ compoundTypeKinds); [discriminate|].
    exfalso. apply Hc; [|reflexivity]. apply Forall_forall. intros k _.
    now apply hasHandler_ifMember.
  - exfalso. apply Hp; [|reflexivity]. apply Forall_forall. intros k _.
    now apply hasHandler_ifMember.
Qed.

(** *** The emitters, one by one *)

Lemma isFileCall_indent (body : list Call) : isFileCall (indent body) = false.
Proof. reflexivity. Qed.

Lemma isPackageClause_indent (body : list Call) :
  isPackageClause (indent body) = false.
Proof. reflexivity. Qed.

Lemma runs_returns {A : Type} (keep : Call -> bool) (m : M A)
    (current current' : option string) (kept : list Call) :
  runs keep m current kept current' -> returns m current current'.
Proof. intros (a & cs & H & _). now exists a, cs. Qed.

Lemma runs_both {A : Type} (keep keep' : Call -> bool) (m : M A)
    (current current' : option string) (kept kept' : list Call) :
  runs keep m current kept current' ->
  runs keep' m current kept' current' ->
  exists a cs, m current = Returned a cs current' /\
               filter keep cs = kept /\ filter keep' cs = kept'.
Proof.
  intros (a & cs & H & Hk) (a' & cs' & H' & Hk').
  rewrite H in H'. injection H' as <- <-. now exists a, cs.
Qed.

Section Emitted.

Variable this : Renderer.

Lemma emitPackageDefinitons_files (includeJSONEncodingImport : bool) :
  filter isFileCall (emitPackageDefinitons this includeJSONEncodingImport)
  = [].
Proof.
  unfold emitPackageDefinitons.
  destruct (justTypes _), (justTypesAndPackage _), (haveNamedUnions this),
    (multiFileOutput _), includeJSONEncodingImport; reflexivity.
Qed.

Lemma emitPackageDefinitons_clauses (includeJSONEncodingImport : bool) :
  filter isPackageClause
         (emitPackageDefinitons this includeJSONEncodingImport) = [].
Proof.
  unfold emitPackageDefinitons.
  destruct (justTypes _), (justTypesAndPackage _), (haveNamedUnions this),
    (multiFileOutput _), includeJSONEncodingImport; reflexivity.
Qed.

Lemma isPackageClause_package (name : string) :
  isPackageClause (emitLine ("package " +++ name)) = true.
Proof. destruct name; reflexivity. Qed.

(** What the calls looked for are among the calls at hand. *)
Ltac kept :=
  first [ apply emitPackageDefinitons_files
        | apply emitPackageDefinitons_clauses
        | cbn [filter isFileCall]; reflexivity
        | vm_compute; reflexivity ].

(** The steps of an emitter; [Hindent] says that the calls looked for are
    not blocks. *)
Ltac running Hindent :=
  repeat lazymatch goal with
    | |- runs _ (bind _ _) _ _ _ => eapply runs_bind; [|intros ?]
    | |- runs _ (ret _) _ _ _ => apply runs_ret
    | |- runs _ (call _) _ _ _ => apply runs_call; kept
    | |- runs _ (calls _) _ _ _ => apply runs_calls; kept
    | |- runs _ (emitFunc _ _) _ _ _ => unfold emitFunc
    | |- runs _ (emitStruct _ _) _ _ _ => unfold emitStruct
    | |- runs _ (emitBlock _ _) _ _ _ =>
        apply (runs_emitBlock _ Hindent); [kept|]
    | |- runs _ (indented _) _ _ _ => apply (runs_indented _ Hindent)
    | |- runs _ (matched _) _ _ _ => apply runs_matched
    | |- runs _ (defined _) _ _ _ => apply runs_defined
    | |- runs _ (startFile _ _) _ _ _ =>
        first [ apply runs_startFile_multi; [assumption|kept]
              | apply runs_startFile_single; assumption ]
    | |- runs _ (endFile _) _ _ _ =>
        first [ apply runs_endFile_multi; [assumption|kept]
              | apply runs_endFile_single; assumption ]
    | |- runs _ (let '(_, _) := ?p in _) _ _ _ => destruct p
    | |- returns _ _ _ => progress returning
    end.

(** The columns of a struct. *)
Lemma class_columns (c : nat) :
  Forall (fun njp : string * string * Php.ClassProperty =>
            hasHandler (Php.type (snd njp)) = true)
         (forEachClassProperty this c) ->
  traverse
    (fun njp : string * string * Php.ClassProperty =>
       let '(name, jsonName, p) := njp in
       let comment :=
         singleDescriptionComment
           (descriptionForClassProperty this c jsonName) in
       let omitEmpty := if canOmitEmpty p then ",omitempty" else "" in
       option_map
         (fun goType =>
            [name +++ " "; goType +++ " ";
             "`json:" +++ dq +++ stringEscape this jsonName +++ omitEmpty
             +++ dq +++ "`";
             comment])
         (propertyGoType (nameForNamedType this) p))
    (forEachClassProperty this c) <> None.
Proof.
  intros H. apply traverse_Some. eapply Forall_impl; [|exact H].
  intros [[n j] p] Hp. now apply option_map_Some, hasHandler_propertyGoType.
Qed.

Lemma union_columns (u : Php.Ty) (members : list Php.Ty) :
  Forall (fun ft => hasHandler (snd ft) = true)
         (forEachUnionMember this u members) ->
  traverse
    (fun ft : string * Php.Ty =>
       let '(fieldName, t) := ft in
       option_map (fun goType => [fieldName +++ " "; goType])
                  (nullableGoType (nameForNamedType this) t true))
    (forEachUnionMember this u members) <> None.
Proof.
  intros H. apply traverse_Some. eapply Forall_impl; [|exact H].
  intros [n t] Ht. now apply option_map_Some, hasHandler_nullableGoType.
Qed.

(** An emitter cannot start while a file is open. *)
Lemma emitters_fail_on_open_file (previous : string) :
  (multiFileOutput (_options this)) = true ->
  let failure :=
    AssertionFailed ("Previous file wasn't finished: " +++ previous) in
  (forall t name, emitTopLevel this t name (Some previous) = Failed failure)
  /\ (forall c name, emitClass this c name (Some previous) = Failed failure)
  /\ (forall e name, emitEnum this e name (Some previous) = Failed failure)
  /\ (forall u name, emitUnion this u name (Some previous) = Failed failure)
  /\ emitEncoder this (Some previous) = Failed failure.
Proof.
  intros Hmulti failure. repeat split; intros;
    apply bind_fails, startFile_fails, Hmulti.
Qed.

(** [emitClass] and [emitEnum] write one file. *)
Lemma emitClass_files (c : nat) (className : string) :
  Forall (fun njp : string * string * Php.ClassProperty =>
            hasHandler (Php.type (snd njp)) = true)
         (forEachClassProperty this c) ->
  runs isFileCall (emitClass this c className) None
       (filesFor this className) None.
Proof.
  intros Hc. apply class_columns in Hc. unfold emitClass, filesFor.
  destruct (multiFileOutput (_options this)) eqn:Hmulti;
    (eapply runs_eq; [running isFileCall_indent; exact Hc|]);
    reflexivity.
Qed.

Lemma emitEnum_files (e : nat) (enumName : string) :
  runs isFileCall (emitEnum this e enumName) None (filesFor this enumName) None.
Proof.
  unfold emitEnum, filesFor.
  destruct (multiFileOutput (_options this)) eqn:Hmulti;
    (eapply runs_eq; [running isFileCall_indent|]); reflexivity.
Qed.

Lemma emitEncoder_files :
  runs isFileCall (emitEncoder this) None (filesFor this "encoder") None.
Proof.
  unfold emitEncoder, filesFor.
  destruct (multiFileOutput (_options this)) eqn:Hmulti;
    (eapply runs_eq; [running isFileCall_indent|]); reflexivity.
Qed.

Lemma emitDecoder_files :
  runs isFileCall (emitDecoder this) None (filesFor this "decoder") None.
Proof.
  unfold emitDecoder, filesFor.
  destruct (multiFileOutput (_options this)) eqn:Hmulti;
    destruct (negb (sdkPackage (_options this) =? "")%string);
    (eapply runs_eq; [running isFileCall_indent|]); reflexivity.
Qed.

Lemma emitHelperFunctions_files :
  runs isFileCall (emitHelperFunctions this) None
       (if haveNamedUnions this then filesFor this "JSONSchemaSupport" else [])
       None.
Proof.
  unfold emitHelperFunctions, filesFor.
  destruct (haveNamedUnions this); [|apply runs_ret].
  destruct (multiFileOutput (_options this)) eqn:Hmulti;
    (eapply runs_eq; [running isFileCall_indent|]); reflexivity.
Qed.

(** What is left to show of a [matchType]. *)
Ltac handled :=
  first [ assumption
        | apply hasHandler_makeArgs; assumption
        | apply hasHandler_ifMember; assumption
        | unfold maybeAssignNil; apply hasHandler_ifMember; assumption ].

(** [emitTopLevel] writes one file, unless one of the two options for
    plain types makes it return before [endFile]. *)
Lemma emitTopLevel_files (t : Php.Ty) (name : string) :
  hasHandler t = true ->
  Php.lookup name (_topLevelUnmarshalNames this) <> None ->
  multiFileOutput (_options this)
  && (justTypes (_options this) || justTypesAndPackage (_options this))
  = false ->
  runs isFileCall (emitTopLevel this t name) None (filesFor this name) None.
Proof.
  intros Ht Hname Hmode.
  pose proof (hasHandler_goType (nameForNamedType this) false t Ht) as Hgo.
  unfold emitTopLevel, filesFor.
  destruct (multiFileOutput (_options this)) eqn:Hmulti,
    (justTypes (_options this)) eqn:Hjt,
    (justTypesAndPackage (_options this)) eqn:Hjtp;
    try discriminate Hmode;
    destruct (leadingComments this),
      (namedTypeToNameForTopLevel this t);
    cbn [andb orb negb];
    (eapply runs_eq; [running isFileCall_indent; handled|]);
    reflexivity.
Qed.

Lemma emitTopLevel_unfinished (t : Php.Ty) (name : string) :
  hasHandler t = true ->
  multiFileOutput (_options this) = true ->
  justTypes (_options this) || justTypesAndPackage (_options this) = true ->
  returns (emitTopLevel this t name) None
          (Some (toLowerCase this (name +++ ".go"))).
Proof.
  intros Ht Hmulti Hplain.
  pose proof (hasHandler_goType (nameForNamedType this) false t Ht) as Hgo.
  apply (runs_returns isFileCall) with
    (kept := [initializeEmitContextForFilename
                (toLowerCase this (name +++ ".go"))]).
  unfold emitTopLevel. rewrite Hplain, Hmulti.
  destruct (justTypes (_options this)) eqn:Hjt,
    (justTypesAndPackage (_options this)) eqn:Hjtp;
    try discriminate Hplain;
    destruct (leadingComments this),
      (namedTypeToNameForTopLevel this t);
    cbn [andb orb negb];
    (eapply runs_eq; [running isFileCall_indent; handled|]);
    reflexivity.
Qed.

(** So does [emitUnion]. *)
Lemma emitUnion_files (u : Php.Ty) (unionName : string) :
  hasHandler u = true ->
  (forall members,
      Forall (fun ft => hasHandler (snd ft) = true)
             (forEachUnionMember this u members)) ->
  multiFileOutput (_options this)
  && (justTypes (_options this) || justTypesAndPackage (_options this))
  = false ->
  runs isFileCall (emitUnion this u unionName) None
       (filesFor this unionName) None.
Proof.
  intros Hu Hmembers Hmode. unfold emitUnion, filesFor.
  destruct (multiFileOutput (_options this)) eqn:Hmulti,
    (justTypes (_options this) || justTypesAndPackage (_options this))
      eqn:Hplain;
    try discriminate Hmode;
    (eapply runs_eq;
     [running isFileCall_indent;
      first [apply union_columns, Hmembers | handled]|]);
    reflexivity.
Qed.

Lemma emitUnion_unfinished (u : Php.Ty) (unionName : string) :
  hasHandler u = true ->
  (forall members,
      Forall (fun ft => hasHandler (snd ft) = true)
             (forEachUnionMember this u members)) ->
  multiFileOutput (_options this) = true ->
  justTypes (_options this) || justTypesAndPackage (_options this) = true ->
  returns (emitUnion this u unionName) None
          (Some (toLowerCase this (unionName +++ ".go"))).
Proof.
  intros Hu Hmembers Hmulti Hplain.
  apply (runs_returns isFileCall) with
    (kept := [initializeEmitContextForFilename
                (toLowerCase this (unionName +++ ".go"))]).
  unfold emitUnion. rewrite Hplain.
  eapply runs_eq;
    [running isFileCall_indent;
     first [apply union_columns, Hmembers | handled]|].
  reflexivity.
Qed.

(** In one file no emitter but [emitEncoder] and [emitDecoder] has
    [emitLine] write a package clause. *)
Lemma emitTopLevel_clauses (t : Php.Ty) (name : string) :
  hasHandler t = true ->
  multiFileOutput (_options this) = false ->
  runs isPackageClause (emitTopLevel this t name) None [] None.
Proof.
  intros Ht Hmulti.
  pose proof (hasHandler_goType (nameForNamedType this) false t Ht) as Hgo.
  unfold emitTopLevel. rewrite Hmulti.
  destruct (justTypes (_options this)) eqn:Hjt,
    (justTypesAndPackage (_options this)) eqn:Hjtp;
    destruct (namedTypeToNameForTopLevel this t);
    cbn [andb orb negb];
    (eapply runs_eq; [running isPackageClause_indent; handled|]);
    reflexivity.
Qed.

Lemma emitClass_clauses (c : nat) (className : string) :
  Forall (fun njp : string * string * Php.ClassProperty =>
            hasHandler (Php.type (snd njp)) = true)
         (forEachClassProperty this c) ->
  multiFileOutput (_options this) = false ->
  runs isPackageClause (emitClass this c className) None [] None.
Proof.
  intros Hc Hmulti. apply class_columns in Hc. unfold emitClass.
  eapply runs_eq; [running isPackageClause_indent; exact Hc|].
  reflexivity.
Qed.

Lemma emitEnum_clauses (e : nat) (enumName : string) :
  multiFileOutput (_options this) = false ->
  runs isPackageClause (emitEnum this e enumName) None [] None.
Proof.
  intros Hmulti. unfold emitEnum.
  eapply runs_eq; [running isPackageClause_indent|]. reflexivity.
Qed.

Lemma emitUnion_clauses (u : Php.Ty) (unionName : string) :
  hasHandler u = true ->
  (forall members,
      Forall (fun ft => hasHandler (snd ft) = true)
             (forEachUnionMember this u members)) ->
  multiFileOutput (_options this) = false ->
  runs isPackageClause (emitUnion this u unionName) None [] None.
Proof.
  intros Hu Hmembers Hmulti. unfold emitUnion.
  destruct (justTypes (_options this) || justTypesAndPackage (_options this));
    (eapply runs_eq;
     [running isPackageClause_indent;
      first [apply union_columns, Hmembers | handled]|]);
    reflexivity.
Qed.

Lemma emitHelperFunctions_clauses :
  multiFileOutput (_options this) = false ->
  runs isPackageClause (emitHelperFunctions this) None [] None.
Proof.
  intros Hmulti. unfold emitHelperFunctions. rewrite Hmulti.
  destruct (haveNamedUnions this); [|apply runs_ret].
  eapply runs_eq; [running isPackageClause_indent|]. reflexivity.
Qed.

Lemma emitEncoder_clauses :
  multiFileOutput (_options this) = false ->
  runs isPackageClause (emitEncoder this) None
       [emitLine ("package " +++ packageName (_options this))] None.
Proof.
  intros Hmulti. unfold emitEncoder.
  eapply runs_eq.
  - eapply runs_bind; [running isPackageClause_indent|intros _].
    eapply runs_bind;
      [apply runs_call; cbn [filter]; rewrite isPackageClause_package;
       reflexivity|intros _].
    running isPackageClause_indent.
  - reflexivity.
Qed.

Lemma emitDecoder_clauses :
  multiFileOutput (_options this) = false ->
  runs isPackageClause (emitDecoder this) None
       [emitLine ("package " +++ packageName (_options this))] None.
Proof.
  intros Hmulti. unfold emitDecoder.
  destruct (negb (sdkPackage (_options this) =? "")%string).
  - eapply runs_eq.
    + eapply runs_bind; [running isPackageClause_indent|intros _].
      eapply runs_bind;
        [apply runs_call; cbn [filter]; rewrite isPackageClause_package;
         reflexivity|intros _].
      eapply runs_bind; [running isPackageClause_indent|intros _].
      eapply runs_bind; [apply runs_call|intros _].
      * destruct (sdkPackage (_options this)); reflexivity.
      * running isPackageClause_indent.
    + reflexivity.
  - eapply runs_eq.
    + eapply runs_bind; [running isPackageClause_indent|intros _].
      eapply runs_bind;
        [apply runs_call; cbn [filter]; rewrite isPackageClause_package;
         reflexivity|intros _].
      running isPackageClause_indent.
    + reflexivity.
Qed.

(** *** The whole output *)

Lemma flat_map_nothing {A B : Type} (l : list A) :
  flat_map (fun _ : A => @nil B) l = [].
Proof. induction l as [|a l IH]; [reflexivity|exact IH]. Qed.

Lemma flat_map_snd {A B : Type} (f : string -> list B)
    (l : list (A * string)) :
  flat_map (fun a => f (snd a)) l = flat_map f (map snd l).
Proof. induction l as [|a l IH]; simpl; [reflexivity|now rewrite IH]. Qed.

Lemma emittedTopLevels_In (tn : Php.Ty * string) :
  In tn (emittedTopLevels this) -> In tn (topLevels this).
Proof. unfold emittedTopLevels. intros H. now apply filter_In in H. Qed.

Lemma returned_unit (m : M unit) (current current' : option string) :
  returns m current current' ->
  exists cs, m current = Returned tt cs current'.
Proof. intros ([] & cs & H). now exists cs. Qed.

(** X15.  With one file per type and declaration ([multiFileOutput]) and
    one of the two options for plain types, [emitTopLevel] and [emitUnion]
    return before their [endFile]: the next [startFile] finds the file
    open, and the generation stops at its assertion, naming the file of
    the first top-level it emitted, or else of the first union. *)
Theorem plain_types_in_many_files_stop_at_an_open_file (name : string) :
  handlesGraph this ->
  multiFileOutput (_options this) = true ->
  justTypes (_options this) || justTypesAndPackage (_options this) = true ->
  firstUnfinished this = Some name ->
  emitSourceStructure this None
  = Failed (AssertionFailed ("Previous file wasn't finished: "
                             +++ toLowerCase this (name +++ ".go"))).
Proof.
  intros (Htops & Hobjects & Hunions) Hmulti Hplain Hfirst.
  destruct (emitters_fail_on_open_file
              (toLowerCase this (name +++ ".go")) Hmulti)
    as (Ftop & Fclass & Fenum & Funion & Fencoder).
  unfold emitSourceStructure. rewrite Hmulti. cbn [negb andb].
  eapply bind_then_fails; [reflexivity|].
  assert (forall k : M unit,
             bind (emitEncoder this) (fun _ => k)
                  (Some (toLowerCase this (name +++ ".go")))
             = Failed (AssertionFailed
                         ("Previous file wasn't finished: "
                          +++ toLowerCase this (name +++ ".go")))) as Hlast
    by (intros k; apply bind_fails, Fencoder).
  unfold firstUnfinished in Hfirst.
  destruct (emittedTopLevels this) as [|[t n] rest] eqn:Etops.
  - destruct (unions this) as [|[u n] rest] eqn:Eunions; [discriminate|].
    injection Hfirst as ->.
    eapply bind_then_fails; [reflexivity|].
    assert (runs isFileCall
              (forEach (fun cn : nat * string =>
                          emitClass this (fst cn) (snd cn)) (objects this))
              None
              (flat_map (fun cn : nat * string => filesFor this (snd cn))
                        (objects this)) None) as Hclasses.
    { apply runs_forEach. intros cn Hin. apply emitClass_files.
      rewrite Forall_forall in Hobjects. now apply Hobjects. }
    destruct Hclasses as ([] & cs & Hclasses & _).
    eapply bind_then_fails; [exact Hclasses|].
    assert (runs isFileCall
              (forEach (fun en : nat * string =>
                          emitEnum this (fst en) (snd en)) (enums this))
              None
              (flat_map (fun en : nat * string => filesFor this (snd en))
                        (enums this)) None) as Henums
      by (apply runs_forEach; intros en _; apply emitEnum_files).
    destruct Henums as ([] & cs' & Henums & _).
    eapply bind_then_fails; [exact Henums|].
    inversion Hunions as [|? ? [Hu Hmembers] _]; subst.
    destruct (returned_unit _ _ _
                (emitUnion_unfinished u name Hu Hmembers Hmulti Hplain))
      as (cs'' & Hunion).
    eapply (forEach_unfinished
              (fun un : Php.Ty * string => emitUnion this (fst un) (snd un))
              (u, name)).
    + exact Hunion.
    + intros un. apply Funion.
    + apply Hlast.
  - injection Hfirst as ->.
    assert (hasHandler t = true) as Ht.
    { rewrite Forall_forall in Htops.
      apply (Htops (t, name)), emittedTopLevels_In. rewrite Etops.
      now left. }
    destruct (returned_unit _ _ _
                (emitTopLevel_unfinished t name Ht Hmulti Hplain))
      as (cs & Htop).
    eapply (forEach_unfinished
              (fun tn : Php.Ty * string =>
                 emitTopLevel this (fst tn) (snd tn)) (t, name)).
    + exact Htop.
    + intros tn. apply Ftop.
    + apply forEach_then_fails; [intros cn; apply Fclass|].
      apply forEach_then_fails; [intros en; apply Fenum|].
      apply forEach_then_fails; [intros un; apply Funion|].
      apply Hlast.
Qed.

(** X16.  In every other case the generation returns with no file open.
    Its calls to [initializeEmitContextForFilename] and [finishFile]
    (those made outside the bodies given to [indent]) come in pairs, each
    file closed before the next is opened: one file per emitted top-level,
    then per class, enum and union, then the ones of [encoder] and
    [decoder] and, with named unions and without an option for plain
    types, the one of [JSONSchemaSupport], each named by [toLowerCase] of
    the name followed by [.go].  In one file ([multiFileOutput] off) it
    makes no such call. *)
Theorem emitSourceStructure_closes_every_file :
  handlesGraph this ->
  unmarshalNamesRegistered this ->
  multiFileOutput (_options this)
  && (justTypes (_options this) || justTypesAndPackage (_options this))
  = false \/ firstUnfinished this = None ->
  runs isFileCall (emitSourceStructure this) None
       (if multiFileOutput (_options this)
        then flat_map (fileOf this) (emittedFiles this) else [])
       None.
Proof.
  intros (Htops & Hobjects & Hunions) Hnames Hmode.
  assert (forall tn, In tn (emittedTopLevels this) ->
                     multiFileOutput (_options this)
                     && (justTypes (_options this)
                         || justTypesAndPackage (_options this)) = false)
    as Htop_mode.
  { intros tn Hin. destruct Hmode as [H|H]; [exact H|].
    unfold firstUnfinished in H.
    destruct (emittedTopLevels this) as [|[t n] rest]; [contradiction|].
    discriminate. }
  assert (forall un, In un (unions this) ->
                     multiFileOutput (_options this)
                     && (justTypes (_options this)
                         || justTypesAndPackage (_options this)) = false)
    as Hunion_mode.
  { intros un Hin. destruct Hmode as [H|H]; [exact H|].
    unfold firstUnfinished in H.
    destruct (emittedTopLevels this) as [|[t n] rest]; [|discriminate].
    destruct (unions this) as [|[u n] rest]; [contradiction|discriminate]. }
  unfold emitSourceStructure. eapply runs_eq.
  - eapply runs_bind with (kept1 := []).
    { destruct (_ && _ && _ && _); [|apply runs_ret].
      now apply runs_calls. }
    intros _. eapply runs_bind.
    { apply (runs_forEach isFileCall _
               (fun tn : Php.Ty * string => filesFor this (snd tn))).
      intros tn Hin. apply emitTopLevel_files.
      - rewrite Forall_forall in Htops.
        now apply Htops, emittedTopLevels_In.
      - unfold unmarshalNamesRegistered in Hnames.
        rewrite Forall_forall in Hnames.
        now apply Hnames, emittedTopLevels_In.
      - now apply Htop_mode with tn. }
    intros _. eapply runs_bind.
    { apply (runs_forEach isFileCall _
               (fun cn : nat * string => filesFor this (snd cn))).
      intros cn Hin. apply emitClass_files.
      rewrite Forall_forall in Hobjects. now apply Hobjects. }
    intros _. eapply runs_bind.
    { apply (runs_forEach isFileCall _
               (fun en : nat * string => filesFor this (snd en))).
      intros en _. apply emitEnum_files. }
    intros _. eapply runs_bind.
    { apply (runs_forEach isFileCall _
               (fun un : Php.Ty * string => filesFor this (snd un))).
      intros un Hin. rewrite Forall_forall in Hunions.
      destruct (Hunions un Hin) as [Hu Hmembers].
      apply emitUnion_files; [exact Hu|exact Hmembers|].
      now apply Hunion_mode with un. }
    intros _. eapply runs_bind; [apply emitEncoder_files|].
    intros _. eapply runs_bind; [apply emitDecoder_files|].
    intros _.
    apply runs_eq with
      (kept := if justTypes (_options this)
                  || justTypesAndPackage (_options this)
               then []
               else if haveNamedUnions this
                    then filesFor this "JSONSchemaSupport" else []);
      [|reflexivity].
    destruct (justTypes (_options this)
              || justTypesAndPackage (_options this));
      [apply runs_ret|apply emitHelperFunctions_files].
  - unfold emittedFiles, filesFor.
    destruct (multiFileOutput (_options this)).
    + rewrite !flat_map_app, !flat_map_snd. simpl. repeat f_equal.
      destruct (justTypes (_options this)
                || justTypesAndPackage (_options this)); [reflexivity|].
      destruct (haveNamedUnions this); reflexivity.
    + rewrite !flat_map_nothing.
      destruct (justTypes (_options this)
                || justTypesAndPackage (_options this)); [reflexivity|].
      destruct (haveNamedUnions this); reflexivity.
Qed.

(** X17.  Written to one file, the output has exactly two lines of
    [emitLine] outside any indentation that begin with [package],
    whatever the options, also with [justTypes]: [emitEncoder] and
    [emitDecoder] each write the clause [package <packageName>] of their
    own, after the declarations of the types, and no other emitter writes
    one with [emitLine]. *)
Theorem one_file_repeats_the_package_clause :
  handlesGraph this ->
  multiFileOutput (_options this) = false ->
  runs isPackageClause (emitSourceStructure this) None
       [emitLine ("package " +++ packageName (_options this));
        emitLine ("package " +++ packageName (_options this))]
       None.
Proof.
  intros (Htops & Hobjects & Hunions) Hmulti.
  unfold emitSourceStructure. eapply runs_eq.
  - eapply runs_bind with (kept1 := []).
    { destruct (_ && _ && _ && _); [|apply runs_ret].
      now apply runs_calls. }
    intros _. eapply runs_bind.
    { apply (runs_forEach isPackageClause _
               (fun _ : Php.Ty * string => [])).
      intros tn Hin. apply emitTopLevel_clauses; [|exact Hmulti].
      rewrite Forall_forall in Htops.
      now apply Htops, emittedTopLevels_In. }
    intros _. eapply runs_bind.
    { apply (runs_forEach isPackageClause _ (fun _ : nat * string => [])).
      intros cn Hin. apply emitClass_clauses; [|exact Hmulti].
      rewrite Forall_forall in Hobjects. now apply Hobjects. }
    intros _. eapply runs_bind.
    { apply (runs_forEach isPackageClause _ (fun _ : nat * string => [])).
      intros en _. now apply emitEnum_clauses. }
    intros _. eapply runs_bind.
    { apply (runs_forEach isPackageClause _
               (fun _ : Php.Ty * string => [])).
      intros un Hin. rewrite Forall_forall in Hunions.
      destruct (Hunions un Hin) as [Hu Hmembers].
      now apply emitUnion_clauses. }
    intros _. eapply runs_bind; [now apply emitEncoder_clauses|].
    intros _. eapply runs_bind; [now apply emitDecoder_clauses|].
    intros _. apply runs_eq with (kept := []); [|reflexivity].
    destruct (justTypes (_options this)
              || justTypesAndPackage (_options this));
      [apply runs_ret|now apply emitHelperFunctions_clauses].
  - now rewrite !flat_map_nothing.
Qed.

End Emitted.

(** The graph of [demoRenderer] has a handler everywhere. *)
Ltac demo_graph :=
  repeat split; repeat constructor; intros; repeat constructor.

(** Plain types in many files: the file of the top-level [Names] is left
    open, and the class [Person] cannot start its own. *)
Lemma plain_types_in_many_files_stop_at_an_open_file_witness :
  emitSourceStructure (demoRenderer true true) None
  = Failed (AssertionFailed "Previous file wasn't finished: names.go").
Proof.
  apply (plain_types_in_many_files_stop_at_an_open_file
           (demoRenderer true true) "Names");
    [demo_graph|reflexivity|reflexivity|reflexivity].
Defined.

(** Many files with the functions of the messages: four files, one after
    the other. *)
Lemma emitSourceStructure_closes_every_file_witness :
  runs isFileCall (emitSourceStructure (demoRenderer false true)) None
       [initializeEmitContextForFilename "names.go"; finishFile "names.go";
        initializeEmitContextForFilename "person.go"; finishFile "person.go";
        initializeEmitContextForFilename "encoder.go";
        finishFile "encoder.go";
        initializeEmitContextForFilename "decoder.go";
        finishFile "decoder.go"]
       None.
Proof.
  apply (emitSourceStructure_closes_every_file (demoRenderer false true));
    [demo_graph|repeat constructor; discriminate|left; reflexivity].
Defined.

(** Plain types in one file: no clause from [emitPackageDefinitons], two
    from the encoder and the decoder. *)
Lemma one_file_repeats_the_package_clause_witness :
  runs isPackageClause (emitSourceStructure (demoRenderer true false)) None
       [emitLine "package main"; emitLine "package main"] None.
Proof.
  apply (one_file_repeats_the_package_clause
           (demoRenderer true false)); [demo_graph|reflexivity].
Defined.

End GoRenderer.
